(** * Power Automate Log Viewer: ingestion and analytics engine

    A shallow embedding of the log engine of the viewer: the record parser
    ([parseLogFile], utils), the multi-file merge ([processFiles],
    FileUpload), the time-range pre-filter (Dashboard), the table filter and
    the filter choices and the pages (LogTable), the timeline buckets, the
    brush and click handlers, the component chart and the metric
    downsampler (LogCharts), and the summary cards (Overview). The modules
    follow the source files; the
    specification vocabulary and the theorems come after them.

    Conventions.
    - A JavaScript number that holds a time value, a bucket start or a
      difference of time values is a [jsnum]: [Some z] for the integer [z],
      [None] for NaN. Time values are integers of magnitude at most 8.64e15.
      On them the double operations of the code agree with the integer
      ones: comparison; [Math.floor(t / w) * w] and [k + w] for the three
      bucket widths; and subtraction, which is exact below 2^53 and beyond
      that is rounded without changing its sign or its place among the
      thresholds it is compared with. Where the difference itself is shown,
      in the duration of the summary, the subtraction is [dsub], which
      rounds as the double subtraction does.
    - A decoded JSON value is a [json]; a property read that gives
      [undefined] is [None] at type [option json].
    - Strings are sequences of code units; [split], [includes] and the
      default ordering of [sort] work unit by unit.
    - Functions of the JavaScript platform that the code calls and that are
      not part of the repository ([JSON.parse], [String.prototype.trim],
      [toLowerCase], [new Date(v).getTime()], [toLocaleString]) are the
      fields of the class [Platform].
    - Building a [Date] is taken to return: it raises only on an object
      that redefines [toString] or [valueOf] as something that is not a
      function, and records with such a timestamp are outside the model. *)

From Stdlib Require Import ZArith List String Ascii Bool Lia Permutation Sorted.
From Stdlib Require Import PrimFloat FloatOps DecimalString.
Import ListNotations.
Local Open Scope string_scope.
Local Open Scope Z_scope.

Set Implicit Arguments.
Set Warnings "-register-all".

(* ------------------------------------------------------------------ *)
(** ** JavaScript values *)

(** A number that is an integer or NaN. *)
Definition jsnum := option Z.

Definition NaN : jsnum := None.

(** [a - b]. *)
Definition nsub (a b : jsnum) : jsnum :=
  match a, b with
  | Some x, Some y => Some (x - y)
  | _, _ => NaN
  end.

(** [a + w] for an integer constant [w]. *)
Definition nadd (a : jsnum) (w : Z) : jsnum :=
  match a with
  | Some x => Some (x + w)
  | None => NaN
  end.

(** [a < b], [a <= b], [a >= b]: false as soon as one side is NaN. *)
Definition nlt (a b : jsnum) : bool :=
  match a, b with
  | Some x, Some y => x <? y
  | _, _ => false
  end.

Definition nle (a b : jsnum) : bool :=
  match a, b with
  | Some x, Some y => x <=? y
  | _, _ => false
  end.

Definition nge (a b : jsnum) : bool := nle b a.

(** Equality of property keys made from numbers ([String(a) === String(b)]):
    NaN prints as one key. *)
Definition nkey_eqb (a b : jsnum) : bool :=
  match a, b with
  | Some x, Some y => x =? y
  | None, None => true
  | _, _ => false
  end.

(** Decoded JSON. Numbers are binary64 values; an object lists its own
    properties, each name once ([JSON.parse] keeps the last of the members
    that share a name). *)
Inductive json : Type :=
| JNull
| JBool (b : bool)
| JNum (x : float)
| JStr (s : string)
| JArr (items : list json)
| JObj (props : list (string * json)).

(** ToBoolean. [None] is [undefined]. *)
Definition truthy (v : option json) : bool :=
  match v with
  | None => false
  | Some JNull => false
  | Some (JBool b) => b
  | Some (JNum x) => negb (PrimFloat.eqb x 0%float || PrimFloat.is_nan x)
  | Some (JStr s) => negb (s =? "")%string
  | Some (JArr _) => true
  | Some (JObj _) => true
  end.

(** Own property of an object, by name. *)
Fixpoint lookup (k : string) (o : list (string * json)) : option json :=
  match o with
  | [] => None
  | (k', v) :: rest => if (k' =? k)%string then Some v else lookup k rest
  end.

(** [v?.k] for the property names of a log record: [undefined] on
    [undefined] and [null]; strings, numbers, booleans and arrays have no
    property of these names. *)
Definition get (k : string) (v : option json) : option json :=
  match v with
  | Some (JObj o) => lookup k o
  | _ => None
  end.

(** [v !== undefined]. *)
Definition defined (v : option json) : bool :=
  match v with
  | Some _ => true
  | None => false
  end.

(** [v === s] for a string [s]. *)
Definition strictEqStr (v : option json) (s : string) : bool :=
  match v with
  | Some (JStr t) => (t =? s)%string
  | _ => false
  end.

(** SameValueZero, the equality of [Set]: NaN is the same as NaN and +0 the
    same as -0; an object or an array is the same as itself only, and the
    values read from two records are never one object. *)
Definition sameValueZero (a b : option json) : bool :=
  match a, b with
  | None, None => true
  | Some JNull, Some JNull => true
  | Some (JBool x), Some (JBool y) => Bool.eqb x y
  | Some (JNum x), Some (JNum y) =>
      PrimFloat.eqb x y || (PrimFloat.is_nan x && PrimFloat.is_nan y)
  | Some (JStr x), Some (JStr y) => (x =? y)%string
  | _, _ => false
  end.

(** [new Set(values)]: the values in the order of first occurrence. *)
Fixpoint setOf (values : list (option json)) : list (option json) :=
  match values with
  | [] => []
  | v :: rest => v :: filter (fun w => negb (sameValueZero w v)) (setOf rest)
  end.

(** [v || 0]. *)
Definition orZero (v : option json) : json :=
  match v with
  | Some x => if truthy v then x else JNum 0%float
  | None => JNum 0%float
  end.

(* ------------------------------------------------------------------ *)
(** ** Platform functions *)

Class Platform : Type := {
  (** [JSON.parse]; [None] when it throws. *)
  JSON_parse : string -> option json;
  (** [String.prototype.trim]. *)
  trim : string -> string;
  (** [String.prototype.toLowerCase]. *)
  toLowerCase : string -> string;
  (** [new Date(v).getTime()] for a property value [v]; NaN for an invalid
      date. *)
  Date_getTime : option json -> jsnum;
  (** [new Date(t).toLocaleString(undefined, ...)], the label of a time. *)
  toLocaleString : jsnum -> string;
  (** The empty text is not JSON. *)
  JSON_parse_empty : JSON_parse "" = None
}.

(* ------------------------------------------------------------------ *)
(** ** Array.prototype.sort

    ECMAScript makes [sort] stable and, when the comparator is consistent,
    makes it return the sorted arrangement, which stability determines
    uniquely; the insertion below computes it. A comparator result that is
    NaN counts as [+0]. With an inconsistent comparator the standard leaves
    the order to the engine; the model then fixes the order of this
    insertion. *)

Section ArraySort.
Variable A : Type.
Variable comparefn : A -> A -> jsnum.

(** [comparefn a b > 0]: [b] has to come first. *)
Definition comesAfter (a b : A) : bool := nlt (Some 0) (comparefn a b).

Fixpoint insertInOrder (x : A) (l : list A) : list A :=
  match l with
  | [] => [x]
  | y :: rest => if comesAfter x y then y :: insertInOrder x rest else x :: y :: rest
  end.

Fixpoint arraySort (l : list A) : list A :=
  match l with
  | [] => []
  | x :: rest => insertInOrder x (arraySort rest)
  end.

End ArraySort.

(** [String.prototype.split('\n')]. *)
Fixpoint splitLines (s : string) : list string :=
  match s with
  | EmptyString => [EmptyString]
  | String c rest =>
      if Ascii.eqb c "010"%char then EmptyString :: splitLines rest
      else match splitLines rest with
           | first :: others => String c first :: others
           | [] => [String c EmptyString]
           end
  end.

(** [String.prototype.includes]. *)
Fixpoint startsWith (p s : string) : bool :=
  match p, s with
  | EmptyString, _ => true
  | String a p', String b s' => Ascii.eqb a b && startsWith p' s'
  | String _ _, EmptyString => false
  end.

Fixpoint includes (s p : string) : bool :=
  startsWith p s ||
  match s with
  | EmptyString => false
  | String _ s' => includes s' p
  end.

(** Template literal of a length: its decimal digits. *)
Definition decimal (n : nat) : string := NilEmpty.string_of_uint (Nat.to_uint n).

(** Template literal of an integer or NaN. *)
Definition numberText (n : jsnum) : string :=
  match n with
  | Some z => NilEmpty.string_of_int (Z.to_int z)
  | None => "NaN"
  end.

(** [a === b] on numbers: NaN equals nothing. *)
Definition nstrictEq (a b : jsnum) : bool :=
  match a, b with
  | Some x, Some y => x =? y
  | _, _ => false
  end.

(** [Math.floor(a / d)] and [a % d] for an integer constant [d]; the
    remainder has the sign of [a]. *)
Definition nfloorDiv (a : jsnum) (d : Z) : jsnum :=
  match a with
  | Some x => Some (x / d)
  | None => NaN
  end.

Definition nrem (a : jsnum) (d : Z) : jsnum :=
  match a with
  | Some x => Some (Z.rem x d)
  | None => NaN
  end.

(** [n / d] rounded to the nearest integer, a tie to the even one, for
    [0 <= n] and [0 < d]. *)
Definition roundHalfEven (n d : Z) : Z :=
  let q := n / d in
  let r := n mod d in
  if 2 * r <? d then q
  else if d <? 2 * r then q + 1
  else if Z.even q then q else q + 1.

(** The double nearest to the integer [z], which is an integer too: up to
    2^53 in absolute value it is [z]; beyond, the significand keeps 53 bits
    and a tie goes to the even significand. *)
Definition toDouble (z : Z) : Z :=
  let a := Z.abs z in
  if a <=? 2 ^ 53 then z
  else
    let ulp := 2 ^ (Z.log2 a - 52) in
    Z.sgn z * (roundHalfEven a ulp * ulp).

(** [a - b] on doubles that hold integers: the exact difference, rounded to
    a double. *)
Definition dsub (a b : jsnum) : jsnum :=
  match a, b with
  | Some x, Some y => Some (toDouble (x - y))
  | _, _ => NaN
  end.

(** [Array.prototype.slice(start, end)]: a negative bound counts from the
    end, and both are clamped to the array. *)
Definition slice (A : Type) (start end_ : Z) (l : list A) : list A :=
  let len := Z.of_nat (List.length l) in
  let k := if start <? 0 then Z.max (len + start) 0 else Z.min start len in
  let final := if end_ <? 0 then Z.max (len + end_) 0 else Z.min end_ len in
  firstn (Z.to_nat (final - k)) (skipn (Z.to_nat k) l).

(** [Array.prototype.findIndex]: the first index that passes, or -1. *)
Fixpoint findIndexFrom (A : Type) (p : A -> bool) (i : Z) (l : list A) : Z :=
  match l with
  | [] => -1
  | x :: rest => if p x then i else findIndexFrom p (i + 1) rest
  end.

Definition findIndex (A : Type) (p : A -> bool) (l : list A) : Z := findIndexFrom p 0 l.

(** [array[i]] for an integer [i]: [undefined] outside the array. *)
Definition item (A : Type) (l : list A) (i : Z) : option A :=
  if i <? 0 then None else nth_error l (Z.to_nat i).

(** The value of a text made of decimal digits. *)
Fixpoint digitsValue (acc : Z) (s : string) : option Z :=
  match s with
  | EmptyString => Some acc
  | String c rest =>
      let n := nat_of_ascii c in
      if ((48 <=? n) && (n <=? 57))%nat then digitsValue (acc * 10 + (Z.of_nat n - 48)) rest
      else None
  end.

(** The array index a property name stands for: the name is the decimal
    text of an integer from 0 to 2^32 - 2. *)
Definition arrayIndexOf (k : string) : option Z :=
  match k with
  | EmptyString => None
  | String _ _ =>
      match digitsValue 0 k with
      | Some n =>
          if (n <? 4294967295) && (numberText (Some n) =? k)%string then Some n else None
      | None => None
      end
  end.

Definition defined_index (k : string) : bool :=
  match arrayIndexOf k with
  | Some _ => true
  | None => false
  end.

(** The property names every object inherits from [Object.prototype]. *)
Definition inheritedNames : list string :=
  ["constructor"; "__defineGetter__"; "__defineSetter__"; "hasOwnProperty";
   "__lookupGetter__"; "__lookupSetter__"; "isPrototypeOf"; "propertyIsEnumerable";
   "toString"; "valueOf"; "__proto__"; "toLocaleString"].

Definition isInherited (k : string) : bool :=
  existsb (fun n => (n =? k)%string) inheritedNames.

(* ------------------------------------------------------------------ *)
(** ** types.ts *)

(** A log record is a JSON object; [interface LogEntry] names the
    properties the engine reads. *)
Definition LogEntry := list (string * json).

Definition eventTimestamp (l : LogEntry) : option json := lookup "eventTimestamp" l.
Definition component (l : LogEntry) : option json := lookup "component" l.
Definition traceLevel (l : LogEntry) : option json := lookup "traceLevel" l.
Definition message (l : LogEntry) : option json := lookup "message" l.
Definition operationName (l : LogEntry) : option json := lookup "operationName" l.
Definition eventData (l : LogEntry) : option json := lookup "eventData" l.

(** [component_] is the field [component] of the filter; the plain name is
    the property of a log record. *)
Record LogFilter : Type := {
  search : string;
  level : string;
  component_ : string
}.

(** [new Date(log.eventTimestamp).getTime()]. *)
Definition getTime `{Platform} (l : LogEntry) : jsnum := Date_getTime (eventTimestamp l).

(** The comparator of both sorts:
    [new Date(a.eventTimestamp).getTime() - new Date(b.eventTimestamp).getTime()]. *)
Definition byTimestamp `{Platform} (a b : LogEntry) : jsnum := nsub (getTime a) (getTime b).

(* ------------------------------------------------------------------ *)
(** ** utils: the record parser *)

Module Utils.
Section WithPlatform.
Context `{Platform}.

(** The test of the [if] around [validLogs.push(parsed)]. Only an object can
    pass it: the three reads give [undefined] on a string, a number, a
    boolean or an array, and raise on [null], which the [catch] swallows. *)
Definition isLogRecord (parsed : json) : option LogEntry :=
  match parsed with
  | JObj o =>
      if truthy (eventTimestamp o) && truthy (component o) && truthy (traceLevel o)
      then Some o
      else None
  | _ => None
  end.

(** One turn of the loop over the lines: the entry pushed, if any. *)
Definition parseLine (line : string) : option LogEntry :=
  let trimmed := trim line in
  if (trimmed =? "")%string then None
  else match JSON_parse trimmed with
       | Some parsed => isLogRecord parsed
       | None => None
       end.

(** The loop: [validLogs] in the order of the lines. *)
Fixpoint collect (lines : list string) : list LogEntry :=
  match lines with
  | [] => []
  | line :: rest =>
      match parseLine line with
      | Some entry => entry :: collect rest
      | None => collect rest
      end
  end.

Definition parseLogFile (content : string) : list LogEntry :=
  let lines := splitLines content in
  let validLogs := collect lines in
  arraySort byTimestamp validLogs.

End WithPlatform.
End Utils.

(* ------------------------------------------------------------------ *)
(** ** App: the state that holds the published dataset *)

Module App.

Record State : Type := {
  logs : list LogEntry;
  fileName : string;
  hasData : bool
}.

Definition initial : State := {| logs := []; fileName := ""; hasData := false |}.

Definition handleDataLoaded (parsedLogs : list LogEntry) (name : string) (_ : State) : State :=
  {| logs := parsedLogs; fileName := name; hasData := true |}.

Definition handleReset (_ : State) : State := initial.

End App.

(* ------------------------------------------------------------------ *)
(** ** FileUpload: reading and merging the sources *)

Module FileUpload.

(** A selected file: its name and what [FileReader.readAsText] delivers,
    [None] when the reader fires [onerror]. *)
Record File : Type := {
  name : string;
  text : option string
}.

Record State : Type := {
  isLoading : bool;
  error : option string
}.

Definition setIsLoading (b : bool) (st : State) : State :=
  {| isLoading := b; error := error st |}.

Definition setError (e : option string) (st : State) : State :=
  {| isLoading := isLoading st; error := e |}.

(** [{ name: file.name, logs }]. *)
Record FileResult : Type := {
  res_name : string;
  res_logs : list LogEntry
}.

Definition noValidLogs : string :=
  "No valid Power Automate Desktop logs found. Please check your file selection.".

Definition failedToProcess : string :=
  "Failed to process files. Please ensure they contain valid line-delimited JSON.".

Section WithPlatform.
Context `{Platform}.

(** The promise of [readFile]: [Some logs] when it resolves, [None] when it
    rejects. [parseLogFile] does not raise on a text, so the [catch] of
    [onload] is not taken. *)
Definition readFile (file : File) : option (list LogEntry) :=
  match text file with
  | Some content => Some (Utils.parseLogFile content)
  | None => None
  end.

(** [Promise.all(files.map(...))]: the results in the order of the files, or
    a rejection as soon as one read rejects. *)
Fixpoint readAll (files : list File) : option (list FileResult) :=
  match files with
  | [] => Some []
  | file :: rest =>
      match readFile file, readAll rest with
      | Some logs, Some results => Some ({| res_name := name file; res_logs := logs |} :: results)
      | _, _ => None
      end
  end.

Definition validFileResults (results : list FileResult) : list FileResult :=
  filter (fun res => (0 <? List.length (res_logs res))%nat) results.

Definition allLogs (valid : list FileResult) : list LogEntry :=
  flat_map res_logs valid.

Definition datasetName (valid : list FileResult) : string :=
  match valid with
  | [only] => res_name only
  | _ => decimal (List.length valid) ++ " Log Files Merged"
  end.

(** [processFiles]: the upload state and the state behind the callback
    [onDataLoaded] after the call. *)
Definition processFiles (S : Type) (onDataLoaded : list LogEntry -> string -> S -> S)
    (fileList : list File) (st : State * S) : State * S :=
  let '(up, app) := st in
  let up := setError None (setIsLoading true up) in
  match fileList with
  | [] => (setIsLoading false up, app)
  | _ :: _ =>
      match readAll fileList with
      | None => (setIsLoading false (setError (Some failedToProcess) up), app)
      | Some results =>
          let valid := validFileResults results in
          let all := allLogs valid in
          if (List.length all =? 0)%nat
          then (setIsLoading false (setError (Some noValidLogs) up), app)
          else
            let sorted := arraySort byTimestamp all in
            (setIsLoading false up, onDataLoaded sorted (datasetName valid) app)
      end
  end.


End WithPlatform.
End FileUpload.

(* ------------------------------------------------------------------ *)
(** ** Dashboard: the zoom window *)

Module Dashboard.

(** [{ start, end }]. *)
Record TimeRange : Type := {
  start : jsnum;
  end_ : jsnum
}.

Record State : Type := {
  selectedLog : option LogEntry;
  timeRange : option TimeRange;
  filters : LogFilter
}.

Definition noFilters : LogFilter := {| search := ""; level := ""; component_ := "" |}.

Definition initial : State :=
  {| selectedLog := None; timeRange := None; filters := noFilters |}.

Section WithPlatform.
Context `{Platform}.

Definition filteredLogs (logs : list LogEntry) (timeRange : option TimeRange) : list LogEntry :=
  match timeRange with
  | None => logs
  | Some range =>
      filter (fun log => let t := getTime log in nge t (start range) && nle t (end_ range)) logs
  end.

(** The [logs] prop of [<LogTable logs={filteredLogs} .../>]. *)
Definition logTableLogs (logs : list LogEntry) (st : State) : list LogEntry :=
  filteredLogs logs (timeRange st).

End WithPlatform.
End Dashboard.

(* ------------------------------------------------------------------ *)
(** ** LogTable: filter choices and the filter *)

Module LogTable.

(** A property read at its declared type [string]. The engine is typed
    against [interface LogEntry]; the choices are modelled for records whose
    [component] and [traceLevel] are strings, as the interface says. *)
Definition asString (v : option json) : string :=
  match v with
  | Some (JStr s) => s
  | _ => ""
  end.

(** [Array.from(new Set(values))]: first occurrences, in order. *)
Fixpoint distinct (values : list string) : list string :=
  match values with
  | [] => []
  | v :: rest => v :: filter (fun w => negb (w =? v)%string) (distinct rest)
  end.

(** The default comparator of [sort()] on strings. *)
Definition defaultCompare (a b : string) : jsnum :=
  match String.compare a b with
  | Lt => Some (-1)
  | Eq => Some 0
  | Gt => Some 1
  end.

Definition uniqueComponents (logs : list LogEntry) : list string :=
  arraySort defaultCompare (distinct (map (fun l => asString (component l)) logs)).

Definition uniqueLevels (logs : list LogEntry) : list string :=
  arraySort defaultCompare (distinct (map (fun l => asString (traceLevel l)) logs)).

Section WithPlatform.
Context `{Platform}.

(** [text.toLowerCase().includes(filters.search.toLowerCase())] on a
    property: [None] when the call raises a TypeError. [optional] is the
    [?.] of [log.operationName?.toLowerCase()], which gives [undefined]
    (falsy) on [undefined] and [null]. *)
Definition lowerIncludes (optional : bool) (v : option json) (search : string) : option bool :=
  match v with
  | Some (JStr text) => Some (includes (toLowerCase text) (toLowerCase search))
  | None | Some JNull => if optional then Some false else None
  | Some _ => None
  end.

Definition matchesSearch (filters : LogFilter) (log : LogEntry) : option bool :=
  if (search filters =? "")%string then Some true
  else match lowerIncludes false (message log) (search filters) with
       | Some true => Some true
       | Some false => lowerIncludes true (operationName log) (search filters)
       | None => None
       end.

Definition matchesLevel (filters : LogFilter) (log : LogEntry) : bool :=
  (level filters =? "")%string || strictEqStr (traceLevel log) (level filters).

Definition matchesComponent (filters : LogFilter) (log : LogEntry) : bool :=
  (component_ filters =? "")%string || strictEqStr (component log) (component_ filters).

(** The callback of [logs.filter]. *)
Definition keeps (filters : LogFilter) (log : LogEntry) : option bool :=
  match matchesSearch filters log with
  | Some s => Some (s && matchesLevel filters log && matchesComponent filters log)
  | None => None
  end.

(** [filteredLogs]: [None] when the callback raises on some entry. *)
Fixpoint filteredLogs (logs : list LogEntry) (filters : LogFilter) : option (list LogEntry) :=
  match logs with
  | [] => Some []
  | log :: rest =>
      match keeps filters log with
      | None => None
      | Some keep =>
          match filteredLogs rest filters with
          | None => None
          | Some kept => Some (if keep then log :: kept else kept)
          end
      end
  end.

End WithPlatform.

Definition ROWS_PER_PAGE : Z := 50.

(** [Math.ceil(filteredLogs.length / ROWS_PER_PAGE)]. *)
Definition totalPages (filtered : list LogEntry) : Z :=
  (Z.of_nat (List.length filtered) + ROWS_PER_PAGE - 1) / ROWS_PER_PAGE.

Definition paginatedLogs (filtered : list LogEntry) (currentPage : Z) : list LogEntry :=
  slice ((currentPage - 1) * ROWS_PER_PAGE) (currentPage * ROWS_PER_PAGE) filtered.

(** [handlePageChange]: the value of [currentPage] after the call. *)
Definition handlePageChange (filtered : list LogEntry) (newPage currentPage : Z) : Z :=
  if (1 <=? newPage) && (newPage <=? totalPages filtered) then newPage else currentPage.

(** The two buttons of the footer, which do nothing when disabled. *)
Definition previousPage (filtered : list LogEntry) (currentPage : Z) : Z :=
  if currentPage =? 1 then currentPage
  else handlePageChange filtered (currentPage - 1) currentPage.

Definition nextPage (filtered : list LogEntry) (currentPage : Z) : Z :=
  if (currentPage =? totalPages filtered) || (totalPages filtered =? 0) then currentPage
  else handlePageChange filtered (currentPage + 1) currentPage.

(** The numbers of the footer: [Showing from to to of total], and
    [Page currentPage of pages]. *)
Definition showingFrom (filtered : list LogEntry) (currentPage : Z) : Z :=
  if (0 <? List.length (paginatedLogs filtered currentPage))%nat
  then (currentPage - 1) * ROWS_PER_PAGE + 1
  else 0.

Definition showingTo (filtered : list LogEntry) (currentPage : Z) : Z :=
  Z.min (currentPage * ROWS_PER_PAGE) (Z.of_nat (List.length filtered)).

Definition shownPages (filtered : list LogEntry) : Z :=
  if totalPages filtered =? 0 then 1 else totalPages filtered.

End LogTable.

(* ------------------------------------------------------------------ *)
(** ** LogCharts: timeline buckets and metric points *)

Module LogCharts.

(** A value of the [buckets] record. *)
Record Bucket : Type := {
  time : string;
  timestamp : jsnum;
  endTime : jsnum;
  count : Z;
  errors : Z
}.

Record MetricPoint : Type := {
  pt_time : string;
  pt_timestamp : jsnum;
  cpu : json;
  memory : json;
  processCpu : json;
  queueLength : json
}.

(** [buckets: Record<string, ...>]: the properties in creation order, each
    under the number its key was made from. *)
Definition Buckets := list (jsnum * Bucket).

Fixpoint findBucket (key : jsnum) (buckets : Buckets) : option Bucket :=
  match buckets with
  | [] => None
  | (k, b) :: rest => if nkey_eqb k key then Some b else findBucket key rest
  end.

(** [buckets[key] = b] for a new key. *)
Definition addBucket (key : jsnum) (b : Bucket) (buckets : Buckets) : Buckets :=
  (buckets ++ [(key, b)])%list.

(** An update in place of [buckets[key]]. *)
Fixpoint updateBucket (key : jsnum) (f : Bucket -> Bucket) (buckets : Buckets) : Buckets :=
  match buckets with
  | [] => []
  | (k, b) :: rest =>
      if nkey_eqb k key then (k, f b) :: rest else (k, b) :: updateBucket key f rest
  end.

Definition incCount (b : Bucket) : Bucket :=
  {| time := time b; timestamp := timestamp b; endTime := endTime b;
     count := count b + 1; errors := errors b |}.

Definition incErrors (b : Bucket) : Bucket :=
  {| time := time b; timestamp := timestamp b; endTime := endTime b;
     count := count b; errors := errors b + 1 |}.

(** A key is an array index when it is an integer from 0 to 2^32 - 2. *)
Definition isArrayIndex (key : jsnum) : bool :=
  match key with
  | Some k => (0 <=? k) && (k <? 4294967295)
  | None => false
  end.

(** [Object.values]: the array-index keys in ascending order, then the other
    keys in creation order. The index keys are distinct integers, which
    [arraySort] puts in ascending order. *)
Definition objectValues (buckets : Buckets) : list Bucket :=
  map snd
    (arraySort (fun a b => nsub (fst a) (fst b)) (filter (fun kb => isArrayIndex (fst kb)) buckets)
     ++ filter (fun kb => negb (isArrayIndex (fst kb))) buckets)%list.

(** The granularity chosen from the total duration. *)
Definition bucketSizeMs (durationMs : jsnum) : Z :=
  if nlt durationMs (Some 300000) then 1000
  else if nlt durationMs (Some 3600000) then 10000
  else 60000.

(** [Math.floor(ts / bucketSizeMs) * bucketSizeMs]. *)
Definition bucketKey (ts : jsnum) (size : Z) : jsnum :=
  match ts with
  | Some t => Some (t / size * size)
  | None => NaN
  end.

Definition isError (log : LogEntry) : bool :=
  strictEqStr (traceLevel log) "Error" || strictEqStr (traceLevel log) "Critical".

Definition ceilDiv (n d : nat) : nat := ((n + d - 1) / d)%nat.

(** [array.filter((_, i) => i % step === 0)], from index [i]. *)
Fixpoint everyNth (A : Type) (step i : nat) (l : list A) : list A :=
  match l with
  | [] => []
  | x :: rest =>
      if (i mod step =? 0)%nat then x :: everyNth step (S i) rest
      else everyNth step (S i) rest
  end.

Section WithPlatform.
Context `{Platform}.

Definition effectiveLogs (logs : list LogEntry) (filteredLogs : option (list LogEntry)) : list LogEntry :=
  match filteredLogs with
  | Some filtered => filtered
  | None => logs
  end.

Definition durationMs (logs : list LogEntry) : jsnum :=
  match logs with
  | [] => NaN
  | first :: _ =>
      let startTime := getTime first in
      let endTime := getTime (last logs first) in
      nsub endTime startTime
  end.

(** The body of [logs.forEach]. *)
Definition addLog (size : Z) (buckets : Buckets) (log : LogEntry) : Buckets :=
  let ts := getTime log in
  let key := bucketKey ts size in
  let buckets :=
    match findBucket key buckets with
    | Some _ => buckets
    | None =>
        addBucket key
          {| time := toLocaleString key; timestamp := key; endTime := nadd key size;
             count := 0; errors := 0 |} buckets
    end in
  let buckets := updateBucket key incCount buckets in
  if isError log then updateBucket key incErrors buckets else buckets.

Definition volumeData (logs : list LogEntry) : list Bucket :=
  match logs with
  | [] => []
  | _ :: _ =>
      let size := bucketSizeMs (durationMs logs) in
      let buckets := fold_left (addLog size) logs [] in
      arraySort (fun a b => nsub (timestamp a) (timestamp b)) (objectValues buckets)
  end.

(** The filter that selects the entries with performance data. *)
Definition hasPerf (l : LogEntry) : bool :=
  truthy (get "perfCounters" (eventData l))
  || defined (get "physicalFreeMemoryMB" (get "machineInfo" (eventData l)))
  || defined (get "cpuLoad" (get "machineInfo" (eventData l))).

Definition perfLogs (logs : list LogEntry) : list LogEntry := filter hasPerf logs.

(** The callback of [map]. *)
Definition toMetricPoint (log : LogEntry) : MetricPoint :=
  let ed := eventData log in
  let pc := get "perfCounters" ed in
  let mi := get "machineInfo" ed in
  let pi := get "processInfo" ed in
  let t := getTime log in
  if truthy pc then
    {| pt_time := toLocaleString t; pt_timestamp := t;
       cpu := orZero (get "totalCpuUsagePercent" pc);
       memory := orZero (get "availableMemoryMB" pc);
       processCpu := orZero (get "processCpuUsagePercent" pc);
       queueLength := orZero (get "processorQueueLength" pc) |}
  else
    {| pt_time := toLocaleString t; pt_timestamp := t;
       cpu := orZero (get "cpuLoad" mi);
       memory := orZero (get "physicalFreeMemoryMB" mi);
       processCpu := orZero (get "cpuLoad" pi);
       queueLength := JNum 0%float |}.

(** The entries kept by the stride. *)
Definition sampled (logs : list LogEntry) : list LogEntry :=
  let selected := perfLogs logs in
  match selected with
  | [] => []
  | _ :: _ =>
      let step := ceilDiv (List.length selected) 500 in
      everyNth step 0 selected
  end.

Definition perfData (logs : list LogEntry) : list MetricPoint :=
  map toMetricPoint (sampled logs).

(** The [for] loop of the brush indices: from index [n - 1] down to 0, the
    first bucket that starts before [bound], or [fallback]. *)
Fixpoint lastStartingBefore (volumeData : list Bucket) (bound : jsnum) (n : nat)
    (fallback : Z) : Z :=
  match n with
  | O => fallback
  | S i =>
      match nth_error volumeData i with
      | Some d =>
          if nlt (timestamp d) bound then Z.of_nat i
          else lastStartingBefore volumeData bound i fallback
      | None => lastStartingBefore volumeData bound i fallback
      end
  end.

(** [{ startIndex, endIndex }] of the controlled brush; [None] when both
    are [undefined]. *)
Definition brushIndices (volumeData : list Bucket) (timeRange : option Dashboard.TimeRange)
    : option (Z * Z) :=
  match timeRange, volumeData with
  | Some range, _ :: _ =>
      let start := findIndex (fun d => nge (timestamp d) (Dashboard.start range)) volumeData in
      let start := if start =? -1 then 0 else start in
      let end_ :=
        lastStartingBefore volumeData (Dashboard.end_ range) (List.length volumeData)
          (Z.of_nat (List.length volumeData) - 1) in
      let end_ := if end_ <? start then start else end_ in
      Some (start, end_)
  | _, _ => None
  end.

(** What [onTimeRangeChange] is given the bounds [newStart] and [newEnd],
    unless the range already has them: the value of [timeRange] after. *)
Definition changeTimeRange (timeRange : option Dashboard.TimeRange) (newStart newEnd : jsnum)
    : option Dashboard.TimeRange :=
  match timeRange with
  | Some range =>
      if nstrictEq (Dashboard.start range) newStart && nstrictEq (Dashboard.end_ range) newEnd
      then timeRange
      else Some {| Dashboard.start := newStart; Dashboard.end_ := newEnd |}
  | None => Some {| Dashboard.start := newStart; Dashboard.end_ := newEnd |}
  end.

(** [handleBrushChange] on the indices of the event: the value of
    [timeRange] after the call, with [setTimeRange] as [onTimeRangeChange]. *)
Definition handleBrushChange (volumeData : list Bucket)
    (timeRange : option Dashboard.TimeRange) (startIndex endIndex : option Z)
    : option Dashboard.TimeRange :=
  match startIndex, endIndex with
  | Some s, Some e =>
      match item volumeData s, item volumeData e with
      | Some startItem, Some endItem =>
          changeTimeRange timeRange (timestamp startItem) (endTime endItem)
      | _, _ => timeRange
      end
  | _, _ => timeRange
  end.

(** The entries of the dataset inside a bucket: the start included, the
    end excluded. *)
Definition bucketLogs (logs : list LogEntry) (data : Bucket) : list LogEntry :=
  filter (fun l => let t := getTime l in nge t (timestamp data) && nlt t (endTime data)) logs.

Definition errorFilter : LogFilter := {| search := ""; level := "Error"; component_ := "" |}.

(** [handleChartClick] on the bucket of the event's payload, [None] when
    the event has none: the state of the dashboard after the call, with its
    three setters as the callbacks. *)
Definition handleChartClick (logs : list LogEntry) (payload : option Bucket)
    (st : Dashboard.State) : Dashboard.State :=
  match payload with
  | None => st
  | Some data =>
      let zoomed := changeTimeRange (Dashboard.timeRange st) (timestamp data) (endTime data) in
      let errorLogs := filter isError (bucketLogs logs data) in
      match errorLogs with
      | [] =>
          {| Dashboard.selectedLog := Dashboard.selectedLog st;
             Dashboard.timeRange := zoomed;
             Dashboard.filters := Dashboard.noFilters |}
      | [only] =>
          {| Dashboard.selectedLog := Some only;
             Dashboard.timeRange := zoomed;
             Dashboard.filters := errorFilter |}
      | _ :: _ :: _ =>
          {| Dashboard.selectedLog := Dashboard.selectedLog st;
             Dashboard.timeRange := zoomed;
             Dashboard.filters := errorFilter |}
      end
  end.

End WithPlatform.

(** [counts: Record<string, number>]: the own properties in creation
    order. A value that is not a number stands as NaN: it is the text that
    adding 1 to an inherited function makes. *)
Definition Counts := list (string * jsnum).

Fixpoint ownCount (k : string) (counts : Counts) : option jsnum :=
  match counts with
  | [] => None
  | (k', v) :: rest => if (k' =? k)%string then Some v else ownCount k rest
  end.

Fixpoint setCount (k : string) (v : jsnum) (counts : Counts) : Counts :=
  match counts with
  | [] => [(k, v)]
  | (k', v') :: rest =>
      if (k' =? k)%string then (k, v) :: rest else (k', v') :: setCount k v rest
  end.

(** [counts[l.component] = (counts[l.component] || 0) + 1]. An own count is
    a truthy value. A name that is not there reads as [undefined], unless
    the object inherits it: then it reads as a function or an object, the
    sum is a text, and the assignment to [__proto__] does nothing. The
    component is read at its declared type, as for the filter choices. *)
Definition countComponent (counts : Counts) (l : LogEntry) : Counts :=
  let k := LogTable.asString (component l) in
  match ownCount k counts with
  | Some v => setCount k (nadd v 1) counts
  | None =>
      if isInherited k then
        (if (k =? "__proto__")%string then counts else setCount k NaN counts)
      else setCount k (Some 1) counts
  end.

(** [Object.entries]: the names that are array indices in ascending order,
    then the other names in creation order. *)
Definition objectEntries (counts : Counts) : Counts :=
  (arraySort (fun a b => nsub (arrayIndexOf (fst a)) (arrayIndexOf (fst b)))
     (filter (fun kv => defined_index (fst kv)) counts)
   ++ filter (fun kv => negb (defined_index (fst kv))) counts)%list.

Record ComponentCount : Type := {
  cc_name : string;
  value : jsnum
}.

(** [componentData], on the effective logs. *)
Definition componentData (logs : list LogEntry) : list ComponentCount :=
  let counts := fold_left countComponent logs [] in
  slice 0 10
    (arraySort (fun a b => nsub (value b) (value a))
       (map (fun kv => {| cc_name := fst kv; value := snd kv |}) (objectEntries counts))).

End LogCharts.

(* ------------------------------------------------------------------ *)
(** ** Overview: the summary cards *)

Module Overview.

Definition totalLogs (logs : list LogEntry) : Z := Z.of_nat (List.length logs).

Definition errors (logs : list LogEntry) : Z :=
  Z.of_nat (List.length (filter LogCharts.isError logs)).

Definition warnings (logs : list LogEntry) : Z :=
  Z.of_nat (List.length (filter (fun l => strictEqStr (traceLevel l) "Warning") logs)).

(** [new Set(logs.map(l => l.component)).size]. *)
Definition components (logs : list LogEntry) : Z :=
  Z.of_nat (List.length (setOf (map component logs))).

Section WithPlatform.
Context `{Platform}.

(** [diffMs], [diffMins] and [diffSecs] of a dataset that has entries. The
    difference of two time values is a double that holds an integer, of at
    most 2^54 in absolute value; on such a double the remainder is exact,
    and the two quotients are too far from the next integer to be rounded
    to it, so that their floors are those of the exact quotients. *)
Definition diffMs (first : LogEntry) (logs : list LogEntry) : jsnum :=
  dsub (getTime (last logs first)) (getTime first).

Definition diffMins (first : LogEntry) (logs : list LogEntry) : jsnum :=
  nfloorDiv (diffMs first logs) 60000.

Definition diffSecs (first : LogEntry) (logs : list LogEntry) : jsnum :=
  nfloorDiv (nrem (diffMs first logs) 60000) 1000.

Definition duration (logs : list LogEntry) : string :=
  match logs with
  | [] => "N/A"
  | first :: _ =>
      numberText (diffMins first logs) ++ "m " ++ numberText (diffSecs first logs) ++ "s"
  end.

End WithPlatform.
End Overview.

(* ------------------------------------------------------------------ *)
(** ** A reference platform

    An executable instance of [Platform] for running the engine on concrete
    sources. It covers the ASCII part of the platform functions: JSON texts
    without escape sequences or exponents, and timestamps written as
    [YYYY-MM-DDTHH:mm:ssZ] or [YYYY-MM-DDTHH:mm:ss.sssZ]. On these it returns
    what the JavaScript functions return, and a text that no engine reads
    as a date, such as [not-a-date], gives NaN. *)

Module Reference.

Definition isSpace (c : ascii) : bool :=
  let n := nat_of_ascii c in
  ((9 <=? n) && (n <=? 13) || (n =? 32))%nat.

Fixpoint dropSpace (s : list ascii) : list ascii :=
  match s with
  | c :: rest => if isSpace c then dropSpace rest else s
  | [] => []
  end.

Definition trimSpace (s : string) : string :=
  string_of_list_ascii
    (rev (dropSpace (rev (dropSpace (list_ascii_of_string s))))).

Definition lowerChar (c : ascii) : ascii :=
  let n := nat_of_ascii c in
  if ((65 <=? n) && (n <=? 90))%nat then ascii_of_nat (n + 32) else c.

Fixpoint lower (s : string) : string :=
  match s with
  | EmptyString => EmptyString
  | String c rest => String (lowerChar c) (lower rest)
  end.

Definition digit (c : ascii) : option Z :=
  let n := nat_of_ascii c in
  if ((48 <=? n) && (n <=? 57))%nat then Some (Z.of_nat n - 48) else None.

(** The digits at the head of a text: their value, how many, and the rest. *)
Fixpoint digits (acc : Z) (n : nat) (s : list ascii) : Z * nat * list ascii :=
  match s with
  | c :: rest =>
      match digit c with
      | Some d => digits (acc * 10 + d) (S n) rest
      | None => (acc, n, s)
      end
  | [] => (acc, n, s)
  end.

(** The double of a non-negative integer below 2^53, built digit by digit. *)
Fixpoint floatOfPos (p : positive) : float :=
  match p with
  | xH => 1%float
  | xO q => (2 * floatOfPos q)%float
  | xI q => (2 * floatOfPos q + 1)%float
  end.

Definition floatOfZ (z : Z) : float :=
  match z with
  | Z0 => 0%float
  | Zpos p => floatOfPos p
  | Zneg p => (- floatOfPos p)%float
  end.

(** [-? digits (. digits)?] with at most 15 significant digits. *)
Definition number (s : list ascii) : option (json * list ascii) :=
  let '(neg, s1) :=
    match s with
    | c :: rest => if Ascii.eqb c "-" then (true, rest) else (false, s)
    | [] => (false, s)
    end in
  let '(whole, n, s2) := digits 0 0 s1 in
  if (n =? 0)%nat then None
  else
    let '(mant, frac, s3) :=
      match s2 with
      | c :: rest =>
          if Ascii.eqb c "." then
            let '(m, k, r) := digits whole 0 rest in (m, k, r)
          else (whole, 0%nat, s2)
      | [] => (whole, 0%nat, s2)
      end in
    if (15 <? n + frac)%nat then None
    else
      let x := (floatOfZ mant / floatOfZ (10 ^ Z.of_nat frac))%float in
      Some (JNum (if neg then (- x)%float else x), s3).

(** The characters of a string literal up to its closing quote. *)
Fixpoint stringBody (s : list ascii) : option (string * list ascii) :=
  match s with
  | [] => None
  | c :: rest =>
      if Ascii.eqb c "034" then Some (EmptyString, rest)
      else if Ascii.eqb c "092" then None
      else match stringBody rest with
           | Some (body, r) => Some (String c body, r)
           | None => None
           end
  end.

(** A later member of the same name replaces the earlier one. *)
Fixpoint setProp (k : string) (v : json) (o : list (string * json)) : list (string * json) :=
  match o with
  | [] => [(k, v)]
  | (k', v') :: rest => if (k' =? k)%string then (k, v) :: rest else (k', v') :: setProp k v rest
  end.

Definition keyword (w : string) (v : json) (s : list ascii) : option (json * list ascii) :=
  let w' := list_ascii_of_string w in
  if startsWith w (string_of_list_ascii (firstn (List.length w') s))
  then Some (v, skipn (List.length w') s)
  else None.

Fixpoint value (fuel : nat) (s : list ascii) : option (json * list ascii) :=
  match fuel with
  | O => None
  | S fuel =>
      match dropSpace s with
      | [] => None
      | c :: rest =>
          if Ascii.eqb c "{" then
            match dropSpace rest with
            | d :: rest' =>
                if Ascii.eqb d "}" then Some (JObj [], rest') else members fuel [] (d :: rest')
            | [] => None
            end
          else if Ascii.eqb c "[" then
            match dropSpace rest with
            | d :: rest' =>
                if Ascii.eqb d "]" then Some (JArr [], rest') else elements fuel [] (d :: rest')
            | [] => None
            end
          else if Ascii.eqb c "034" then
            match stringBody rest with
            | Some (str, r) => Some (JStr str, r)
            | None => None
            end
          else if Ascii.eqb c "t" then keyword "true" (JBool true) (c :: rest)
          else if Ascii.eqb c "f" then keyword "false" (JBool false) (c :: rest)
          else if Ascii.eqb c "n" then keyword "null" JNull (c :: rest)
          else number (c :: rest)
      end
  end
with members (fuel : nat) (acc : list (string * json)) (s : list ascii) : option (json * list ascii) :=
  match fuel with
  | O => None
  | S fuel =>
      match dropSpace s with
      | q :: rest =>
          if Ascii.eqb q "034" then
            match stringBody rest with
            | Some (k, r) =>
                match dropSpace r with
                | colon :: r1 =>
                    if Ascii.eqb colon ":" then
                      match value fuel r1 with
                      | Some (v, r2) =>
                          match dropSpace r2 with
                          | sep :: r3 =>
                              if Ascii.eqb sep "," then members fuel (setProp k v acc) r3
                              else if Ascii.eqb sep "}" then Some (JObj (setProp k v acc), r3)
                              else None
                          | [] => None
                          end
                      | None => None
                      end
                    else None
                | [] => None
                end
            | None => None
            end
          else None
      | [] => None
      end
  end
with elements (fuel : nat) (acc : list json) (s : list ascii) : option (json * list ascii) :=
  match fuel with
  | O => None
  | S fuel =>
      match value fuel s with
      | Some (v, r) =>
          match dropSpace r with
          | sep :: r1 =>
              if Ascii.eqb sep "," then elements fuel (acc ++ [v])%list r1
              else if Ascii.eqb sep "]" then Some (JArr (acc ++ [v])%list, r1)
              else None
          | [] => None
          end
      | None => None
      end
  end.

Definition parse (text : string) : option json :=
  let s := list_ascii_of_string text in
  match value (S (List.length s)) s with
  | Some (v, rest) =>
      match dropSpace rest with
      | [] => Some v
      | _ :: _ => None
      end
  | None => None
  end.

(** Days from 1970-01-01 to a date of the proleptic Gregorian calendar. *)
Definition daysFromCivil (y m d : Z) : Z :=
  let y' := if m <=? 2 then y - 1 else y in
  let era := y' / 400 in
  let yoe := y' - era * 400 in
  let mp := (m + 9) mod 12 in
  let doy := (153 * mp + 2) / 5 + d - 1 in
  let doe := yoe * 365 + yoe / 4 - yoe / 100 + doy in
  era * 146097 + doe - 719468.

(** [n] digits, then the character [sep] when one is given. *)
Definition field (n : nat) (sep : option ascii) (s : list ascii) : option (Z * list ascii) :=
  let '(v, k, rest) := digits 0 0 (firstn n s) in
  if ((k =? n)%nat && match rest with [] => true | _ => false end)%bool then
    match sep, skipn n s with
    | None, r => Some (v, r)
    | Some c, c' :: r => if Ascii.eqb c c' then Some (v, r) else None
    | Some _, [] => None
    end
  else None.

Definition bind (A B : Type) (x : option A) (f : A -> option B) : option B :=
  match x with
  | Some a => f a
  | None => None
  end.

(** [Date.parse] on the two UTC formats. *)
Definition parseDate (text : string) : jsnum :=
  bind (field 4 (Some "-"%char) (list_ascii_of_string text)) (fun '(y, s) =>
  bind (field 2 (Some "-"%char) s) (fun '(mo, s) =>
  bind (field 2 (Some "T"%char) s) (fun '(d, s) =>
  bind (field 2 (Some ":"%char) s) (fun '(h, s) =>
  bind (field 2 (Some ":"%char) s) (fun '(mi, s) =>
  bind (field 2 None s) (fun '(sec, s) =>
  bind (match s with
        | c :: r =>
            if Ascii.eqb c "." then field 3 (Some "Z"%char) r
            else if Ascii.eqb c "Z" then Some (0, r)
            else None
        | [] => None
        end) (fun '(ms, s) =>
  match s with
  | [] =>
      if (1 <=? mo) && (mo <=? 12) && (1 <=? d) && (d <=? 31)
         && (h <=? 23) && (mi <=? 59) && (sec <=? 59)
      then Some (daysFromCivil y mo d * 86400000 + h * 3600000 + mi * 60000 + sec * 1000 + ms)
      else NaN
  | _ :: _ => NaN
  end))))))).

(** The integer part of a finite double. *)
Definition truncate (x : float) : jsnum :=
  match Prim2SF x with
  | SpecFloat.S754_zero _ => Some 0
  | SpecFloat.S754_finite neg m e =>
      let a := if 0 <=? e then Z.pos m * 2 ^ e else Z.pos m / 2 ^ (- e) in
      Some (if neg then - a else a)
  | _ => NaN
  end.

(** TimeClip. *)
Definition timeClip (t : jsnum) : jsnum :=
  match t with
  | Some z => if Z.abs z <=? 8640000000000000 then Some z else NaN
  | None => NaN
  end.

Definition dateTime (v : option json) : jsnum :=
  match v with
  | Some (JStr text) => parseDate text
  | Some (JNum x) => timeClip (truncate x)
  | Some (JBool b) => Some (if b then 1 else 0)
  | Some JNull => Some 0
  | _ => NaN
  end.

Definition label (t : jsnum) : string :=
  match t with
  | Some z => NilEmpty.string_of_int (Z.to_int z) ++ " ms"
  | None => "Invalid Date"
  end.

#[global] Instance platform : Platform := {|
  JSON_parse := parse;
  trim := trimSpace;
  toLowerCase := lower;
  Date_getTime := dateTime;
  toLocaleString := label;
  JSON_parse_empty := eq_refl
|}.

(** Sources are written with an apostrophe where the text has a double
    quote. *)
Definition quoted (s : string) : string :=
  string_of_list_ascii
    (map (fun c => if Ascii.eqb c "'" then "034"%char else c) (list_ascii_of_string s)).

End Reference.

(* ------------------------------------------------------------------ *)
(** ** Sample sources *)

Module Samples.
Import Reference.

(** A line with the three required properties and a message. *)
Definition line (ts comp lvl msg : string) : string :=
  quoted ("{'eventTimestamp':'" ++ ts ++ "','component':'" ++ comp
          ++ "','traceLevel':'" ++ lvl ++ "','message':'" ++ msg ++ "'}").

Definition newline : string := String "010"%char EmptyString.

Definition agentLog : FileUpload.File :=
  {| FileUpload.name := "agent.log";
     FileUpload.text := Some
       (line "2024-01-01T00:00:05Z" "Agent" "Info" "started" ++ newline
        ++ "truncated {'eventTimes" ++ newline
        ++ line "2024-01-01T00:00:01Z" "Agent" "Error" "Login FAILED" ++ newline) |}.

Definition serviceLog : FileUpload.File :=
  {| FileUpload.name := "service.log";
     FileUpload.text := Some
       (line "2024-01-01T00:00:03Z" "Service" "Warning" "slow reply" ++ newline
        ++ line "2024-01-01T00:00:02.500Z" "Service" "Critical" "crash") |}.

(** No line of this file is a log record. *)
Definition notesTxt : FileUpload.File :=
  {| FileUpload.name := "notes.txt";
     FileUpload.text := Some ("hello" ++ newline ++ quoted "{'component':'Agent'}" ++ newline) |}.

(** A file the reader fails on. *)
Definition lockedLog : FileUpload.File :=
  {| FileUpload.name := "locked.log"; FileUpload.text := None |}.

(** A record whose timestamp is not a date, before one whose timestamp is. *)
Definition brokenClockLog : FileUpload.File :=
  {| FileUpload.name := "clock.log";
     FileUpload.text := Some
       (line "not-a-date" "Agent" "Info" "clock lost" ++ newline
        ++ line "2024-01-01T00:00:00Z" "Agent" "Info" "clock back") |}.

(** A record without a message: the parser asks for the three required
    properties only. *)
Definition silentLog : FileUpload.File :=
  {| FileUpload.name := "silent.log";
     FileUpload.text := Some
       (quoted "{'eventTimestamp':'2024-01-01T00:00:04Z','component':'Agent','traceLevel':'Info'}") |}.

(** A record whose operation name is a number. *)
Definition numberedLog : FileUpload.File :=
  {| FileUpload.name := "numbered.log";
     FileUpload.text := Some
       (quoted ("{'eventTimestamp':'2024-01-01T00:00:05Z','component':'Agent',"
                ++ "'traceLevel':'Info','message':'done','operationName':5}")) |}.

(** A record whose timestamp is not a date, before two records two seconds
    apart. *)
Definition staleClockLog : FileUpload.File :=
  {| FileUpload.name := "stale.log";
     FileUpload.text := Some
       (line "not-a-date" "Agent" "Info" "clock lost" ++ newline
        ++ line "2024-01-01T00:00:00Z" "Agent" "Info" "clock back" ++ newline
        ++ line "2024-01-01T00:00:02Z" "Agent" "Info" "still there") |}.

Definition entry (ts comp lvl msg : string) : LogEntry :=
  [("eventTimestamp", JStr ts); ("component", JStr comp);
   ("traceLevel", JStr lvl); ("message", JStr msg)].

(** A dataset of four records over three seconds. *)
Definition dataset : list LogEntry :=
  [ entry "2024-01-01T00:00:00Z" "Agent" "Info" "Flow started";
    entry "2024-01-01T00:00:00.400Z" "Agent" "Error" "Login FAILED";
    entry "2024-01-01T00:00:02Z" "Service" "Critical" "crash";
    entry "2024-01-01T00:00:03Z" "Service" "Info" "Flow finished" ].

(** The same record without a message. *)
Definition silent : LogEntry :=
  [("eventTimestamp", JStr "2024-01-01T00:00:04Z"); ("component", JStr "Agent");
   ("traceLevel", JStr "Info")].

Definition twoDigits (n : nat) : string :=
  if (n <? 10)%nat then "0" ++ decimal n else decimal n.

(** The [i]-th second of a series of records with performance counters. *)
Definition perfEntry (i : nat) : LogEntry :=
  [("eventTimestamp",
    JStr ("2024-01-01T00:" ++ twoDigits (i / 60) ++ ":" ++ twoDigits (i mod 60) ++ "Z"));
   ("component", JStr "Agent"); ("traceLevel", JStr "Info"); ("message", JStr "tick");
   ("eventData",
    JObj [("perfCounters",
           JObj [("totalCpuUsagePercent", JNum (floatOfZ (Z.of_nat (i mod 100))));
                 ("availableMemoryMB", JNum 2048%float)])])].

Definition perfSeries (n : nat) : list LogEntry := map perfEntry (seq 0 n).

(** A record of the newer agent format, without [perfCounters]. *)
Definition agentEntry : LogEntry :=
  [("eventTimestamp", JStr "2024-01-01T00:00:06Z"); ("component", JStr "RpaAgent");
   ("traceLevel", JStr "Info"); ("message", JStr "heartbeat");
   ("eventData",
    JObj [("machineInfo", JObj [("cpuLoad", JNum 12.5%float);
                                ("physicalFreeMemoryMB", JNum 4096%float)]);
          ("processInfo", JObj [("cpuLoad", JNum 3%float)])])].

End Samples.

(* ------------------------------------------------------------------ *)
(** ** Specification vocabulary *)

(** An order-preserving subsequence. *)
Inductive Subsequence (A : Type) : list A -> list A -> Prop :=
| Subsequence_nil : Subsequence [] []
| Subsequence_keep x l1 l2 : Subsequence l1 l2 -> Subsequence (x :: l1) (x :: l2)
| Subsequence_skip x l1 l2 : Subsequence l1 l2 -> Subsequence l1 (x :: l2).

(** Order by an integer key; NaN is in no order with anything. *)
Definition keyLe (A : Type) (key : A -> jsnum) (a b : A) : Prop :=
  nle (key a) (key b) = true.

(** The datetime value of the earlier entry is at most that of the later. *)
Definition timeLe `{Platform} (a b : LogEntry) : Prop := nle (getTime a) (getTime b) = true.

(** The entry's [eventTimestamp] reads as a datetime. *)
Definition hasTime `{Platform} (l : LogEntry) : Prop := getTime l <> NaN.

(** What [processFiles] hands to [onDataLoaded], if it calls it: the merged
    entries and the dataset name. *)
Definition ingest `{Platform} (fileList : list FileUpload.File) : option (list LogEntry * string) :=
  snd (FileUpload.processFiles (fun logs name _ => Some (logs, name)) fileList
         ({| FileUpload.isLoading := false; FileUpload.error := None |}, None)).

(** The values that count as empty: [null], [false], a zero or NaN number
    and the empty string. *)
Definition emptyValue (x : json) : bool :=
  match x with
  | JNull => true
  | JBool b => negb b
  | JNum n => PrimFloat.eqb n 0%float || PrimFloat.is_nan n
  | JStr s => (s =? "")%string
  | JArr _ => false
  | JObj _ => false
  end.

(** A property that is present and not empty. *)
Definition presentNonEmpty (v : option json) : Prop :=
  exists x, v = Some x /\ emptyValue x = false.

(** [needle] occurs in [text] when case is ignored. *)
Definition ciSubstring `{Platform} (needle text : string) : Prop :=
  exists before after, toLowerCase text = before ++ toLowerCase needle ++ after.

(** The property [v] is a string in which [needle] occurs, case ignored. *)
Definition ciOccursIn `{Platform} (needle : string) (v : option json) : Prop :=
  exists text, v = Some (JStr text) /\ ciSubstring needle text.

(** The filter of the specification: the three conditions, conjoined. *)
Definition Matches `{Platform} (filters : LogFilter) (e : LogEntry) : Prop :=
  (search filters = ""
   \/ ciOccursIn (search filters) (message e)
   \/ ciOccursIn (search filters) (operationName e))
  /\ (level filters = "" \/ traceLevel e = Some (JStr (level filters)))
  /\ (component_ filters = "" \/ component e = Some (JStr (component_ filters))).

(** The same filter as a test. *)
Definition ciOccursInb `{Platform} (needle : string) (v : option json) : bool :=
  match v with
  | Some (JStr text) => includes (toLowerCase text) (toLowerCase needle)
  | _ => false
  end.

Definition matchesb `{Platform} (filters : LogFilter) (e : LogEntry) : bool :=
  ((search filters =? "")%string
   || ciOccursInb (search filters) (message e)
   || ciOccursInb (search filters) (operationName e))
  && ((level filters =? "")%string || strictEqStr (traceLevel e) (level filters))
  && ((component_ filters =? "")%string || strictEqStr (component e) (component_ filters)).

(** An entry as [interface LogEntry] types it for the search: [message] is
    a string and [operationName] is a string when it is there ([null]
    counts as not there). *)
Definition searchable (e : LogEntry) : Prop :=
  (exists text, message e = Some (JStr text))
  /\ (operationName e = None \/ operationName e = Some JNull
      \/ exists text, operationName e = Some (JStr text)).

(** [wider] constrains no dimension that [filters] leaves free, and
    constrains the others as [filters] does or not at all. *)
Definition Relaxes (wider filters : LogFilter) : Prop :=
  (search wider = "" \/ search wider = search filters)
  /\ (level wider = "" \/ level wider = level filters)
  /\ (component_ wider = "" \/ component_ wider = component_ filters).

(** [l] is the sorted list of the distinct members of [values]. *)
Definition SortedDistinct (values l : list string) : Prop :=
  Sorted (fun a b => String.leb a b = true) l
  /\ NoDup l
  /\ (forall v, In v l <-> In v values).

(** The entry lies in the zoom window; every entry does when there is no
    window. *)
Definition InRange `{Platform} (range : option Dashboard.TimeRange) (e : LogEntry) : Prop :=
  match range with
  | None => True
  | Some r =>
      exists t from to,
        getTime e = Some t /\ Dashboard.start r = Some from /\ Dashboard.end_ r = Some to
        /\ from <= t <= to
  end.

(** An entry whose [component] and [traceLevel] are strings, as
    [interface LogEntry] types them. *)
Definition named (e : LogEntry) : Prop :=
  (exists c, component e = Some (JStr c)) /\ (exists l, traceLevel e = Some (JStr l)).

(** The first second of the sample dataset. *)
Definition firstSecond : Dashboard.State :=
  {| Dashboard.selectedLog := None;
     Dashboard.timeRange :=
       Some {| Dashboard.start := Some 1704067200000; Dashboard.end_ := Some 1704067201000 |};
     Dashboard.filters := Dashboard.noFilters |}.

(** The bucket start of an entry for a bucket width. *)
Definition keyOf `{Platform} (size : Z) (e : LogEntry) : jsnum :=
  LogCharts.bucketKey (getTime e) size.

(** The entry falls in the bucket that starts at [k]. *)
Definition inBucket `{Platform} (size : Z) (k : jsnum) (e : LogEntry) : bool :=
  nkey_eqb (keyOf size e) k.

(** How many entries pass a test. *)
Definition tally (p : LogEntry -> bool) (logs : list LogEntry) : Z :=
  Z.of_nat (List.length (filter p logs)).

(** The bucket that starts at [k], counted over [logs]. *)
Definition bucketOf `{Platform} (size : Z) (logs : list LogEntry) (k : jsnum) : LogCharts.Bucket :=
  {| LogCharts.time := toLocaleString k;
     LogCharts.timestamp := k;
     LogCharts.endTime := nadd k size;
     LogCharts.count := tally (inBucket size k) logs;
     LogCharts.errors := tally (fun e => inBucket size k e && LogCharts.isError e) logs |}.

(** The state of [buckets] after the entries [seen]: one bucket per key
    that occurred, each holding the tallies of its key. *)
Definition Tallied `{Platform} (size : Z) (buckets : LogCharts.Buckets)
    (seen : list LogEntry) : Prop :=
  NoDup (map fst buckets)
  /\ (forall k b, In (k, b) buckets -> b = bucketOf size seen k)
  /\ (forall k, In k (map fst buckets) <-> In k (map (keyOf size) seen)).

(** The sum of [count] over buckets. *)
Definition totalCount (buckets : list LogCharts.Bucket) : Z :=
  fold_right Z.add 0 (map LogCharts.count buckets).

(** The width [volumeData] works with on a dataset. *)
Definition widthOf `{Platform} (logs : list LogEntry) : Z :=
  LogCharts.bucketSizeMs (LogCharts.durationMs logs).

(** The datetime values of the entries that have one. *)
Definition timesOf `{Platform} (logs : list LogEntry) : list Z :=
  flat_map (fun e => match getTime e with Some t => [t] | None => [] end) logs.

Definition maxOf (times : list Z) : Z :=
  match times with
  | [] => 0
  | t :: rest => fold_right Z.max t rest
  end.

Definition minOf (times : list Z) : Z :=
  match times with
  | [] => 0
  | t :: rest => fold_right Z.min t rest
  end.

(** The total span of a dataset in milliseconds:
    [max(timestamp) - min(timestamp)]. *)
Definition spanOf `{Platform} (logs : list LogEntry) : Z :=
  maxOf (timesOf logs) - minOf (timesOf logs).

(** The elements of [l] whose index is divisible by [step]. *)
Definition atStride (A : Type) (step : nat) (l : list A) : list A :=
  map snd
    (filter (fun ix => (fst ix mod step =? 0)%nat) (combine (seq 0 (List.length l)) l)).

(** The page numbers of the footer: 1 to [totalPages]. *)
Definition pageNumbers (filtered : list LogEntry) : list Z :=
  map Z.of_nat (seq 1 (Z.to_nat (LogTable.totalPages filtered))).

(** The two page buttons. *)
Inductive PageButton : Type :=
| Previous
| Next.

Definition press (filtered : list LogEntry) (currentPage : Z) (b : PageButton) : Z :=
  match b with
  | Previous => LogTable.previousPage filtered currentPage
  | Next => LogTable.nextPage filtered currentPage
  end.

(** Bucket [a] of width [w] ends at or before the start of bucket [b]. *)
Definition EndsBefore (w : Z) (a b : LogCharts.Bucket) : Prop :=
  exists x y,
    LogCharts.timestamp a = Some x /\ LogCharts.endTime a = Some (x + w)
    /\ LogCharts.timestamp b = Some y /\ x + w <= y.

(** The result of the loop over [n] indices is one of them or the
    fallback. *)
Definition lastStartingBefore_result_ok (n : nat) (fallback result : Z) : Prop :=
  result = fallback \/ 0 <= result < Z.of_nat n.

(** The sum of [errors] over buckets. *)
Definition totalErrors (buckets : list LogCharts.Bucket) : Z :=
  fold_right Z.add 0 (map LogCharts.errors buckets).

(** The number of entries of [logs] whose component is [k]. *)
Definition occurrences (k : string) (logs : list LogEntry) : Z :=
  tally (fun e => strictEqStr (component e) k) logs.

(** The component of the entry is a text, and not the name of a property
    that every object inherits. *)
Definition plainComponent (e : LogEntry) : Prop :=
  exists c, component e = Some (JStr c) /\ isInherited c = false.

(** The earlier row of the chart counts at least as many entries. *)
Definition countsAtLeast (a b : LogCharts.ComponentCount) : Prop :=
  nle (LogCharts.value b) (LogCharts.value a) = true.

(** The entries whose component is not the text [__proto__]. *)
Definition withoutProto (logs : list LogEntry) : list LogEntry :=
  filter (fun e => negb (strictEqStr (component e) "__proto__")) logs.

(** The source was read and yields at least one valid entry. *)
Definition contributes `{Platform} (file : FileUpload.File) : bool :=
  match FileUpload.readFile file with
  | Some (_ :: _) => true
  | _ => false
  end.

(** The result record of a source that was read. *)
Definition resultOf `{Platform} (file : FileUpload.File) : FileUpload.FileResult :=
  {| FileUpload.res_name := FileUpload.name file;
     FileUpload.res_logs :=
       match FileUpload.readFile file with
       | Some logs => logs
       | None => []
       end |}.

(** The source was read. *)
Definition readable (file : FileUpload.File) : Prop := FileUpload.text file <> None.

(** The upload state after a run that reports nothing, and after one that
    reports [msg]. *)
Definition quiet : FileUpload.State :=
  {| FileUpload.isLoading := false; FileUpload.error := None |}.

Definition reporting (msg : string) : FileUpload.State :=
  {| FileUpload.isLoading := false; FileUpload.error := Some msg |}.

(* ------------------------------------------------------------------ *)
(** ** Facts about the array operations *)

Section ArraySortFacts.
Variable A : Type.
Variable comparefn : A -> A -> jsnum.

Lemma insertInOrder_perm (x : A) (l : list A) :
  Permutation (insertInOrder comparefn x l) (x :: l).
Proof.
  induction l as [|y rest IH]; simpl.
  - apply Permutation_refl.
  - destruct (comesAfter comparefn x y).
    + eapply perm_trans; [apply perm_skip, IH | apply perm_swap].
    + apply Permutation_refl.
Qed.

Lemma arraySort_perm (l : list A) : Permutation (arraySort comparefn l) l.
Proof.
  induction l as [|x rest IH]; simpl.
  - apply perm_nil.
  - eapply perm_trans; [apply insertInOrder_perm | apply perm_skip, IH].
Qed.

Lemma arraySort_In (l : list A) (x : A) : In x (arraySort comparefn l) <-> In x l.
Proof.
  split; apply Permutation_in; [|apply Permutation_sym]; apply arraySort_perm.
Qed.

Lemma arraySort_length (l : list A) : List.length (arraySort comparefn l) = List.length l.
Proof. apply Permutation_length, arraySort_perm. Qed.

(** The result is sorted for a relation [R] as soon as, on the elements
    that satisfy [P], the comparator decides [R] one way or the other. *)
Variable P : A -> Prop.
Variable R : A -> A -> Prop.
Hypothesis after_R : forall a b, P a -> P b -> comesAfter comparefn a b = true -> R b a.
Hypothesis before_R : forall a b, P a -> P b -> comesAfter comparefn a b = false -> R a b.

Lemma insertInOrder_Sorted (x : A) (l : list A) :
  P x -> Forall P l -> Sorted R l -> Sorted R (insertInOrder comparefn x l).
Proof.
  intros Hx Hl Hs. induction l as [|y rest IH]; simpl.
  - repeat constructor.
  - inversion Hl as [|? ? Hy Hrest]; subst.
    inversion Hs as [|? ? Hs' Hhd]; subst.
    destruct (comesAfter comparefn x y) eqn:Exy.
    + constructor; [apply IH; assumption|].
      destruct rest as [|z rest']; simpl.
      * constructor. apply after_R; assumption.
      * destruct (comesAfter comparefn x z).
        -- constructor. inversion Hhd; subst. assumption.
        -- constructor. apply after_R; assumption.
    + constructor; [constructor; assumption|].
      constructor. apply before_R; assumption.
Qed.

Lemma arraySort_Sorted (l : list A) : Forall P l -> Sorted R (arraySort comparefn l).
Proof.
  induction l as [|x rest IH]; simpl; intros Hl.
  - constructor.
  - inversion Hl as [|? ? Hx Hrest]; subst.
    apply insertInOrder_Sorted; [exact Hx | | apply IH; exact Hrest].
    apply Forall_forall. intros a Ha.
    apply (proj1 (Forall_forall _ _) Hrest), (proj1 (arraySort_In _ _)), Ha.
Qed.

End ArraySortFacts.

(** A comparator that subtracts integer keys sorts by these keys. *)
Section SortByKey.
Variable A : Type.
Variable key : A -> jsnum.

Lemma arraySort_sorted (l : list A) :
  Forall (fun a => key a <> NaN) l ->
  Sorted (keyLe key) (arraySort (fun a b => nsub (key a) (key b)) l).
Proof.
  apply arraySort_Sorted; unfold comesAfter, keyLe, NaN; intros a b Ha Hb;
    destruct (key a) as [ka|]; [|congruence| |congruence];
    destruct (key b) as [kb|]; [|congruence| |congruence]; simpl; intros Hcmp.
  - apply Z.leb_le. apply Z.ltb_lt in Hcmp. lia.
  - apply Z.leb_le. apply Z.ltb_ge in Hcmp. lia.
Qed.

End SortByKey.

(* ------------------------------------------------------------------ *)
(** ** The merge: order of the published dataset *)

Section MergeFacts.
Context `{Platform}.

Lemma Sorted_timeLe_keyLe (l : list LogEntry) :
  Sorted (keyLe getTime) l -> Sorted timeLe l.
Proof. intros Hs. exact Hs. Qed.

(** What [ingest] returns, case by case. *)
Lemma ingest_cases (fileList : list FileUpload.File) :
  ingest fileList =
  match fileList with
  | [] => None
  | _ :: _ =>
      match FileUpload.readAll fileList with
      | None => None
      | Some results =>
          let valid := FileUpload.validFileResults results in
          match FileUpload.allLogs valid with
          | [] => None
          | _ :: _ =>
              Some (arraySort byTimestamp (FileUpload.allLogs valid), FileUpload.datasetName valid)
          end
      end
  end.
Proof.
  unfold ingest, FileUpload.processFiles.
  destruct fileList as [|file rest]; [reflexivity|].
  destruct (FileUpload.readAll (file :: rest)) as [results|]; [|reflexivity].
  destruct (FileUpload.allLogs (FileUpload.validFileResults results)); reflexivity.
Qed.

(** The callback receives exactly what [ingest] returns. *)
Lemma processFiles_callback (S : Type) (onDataLoaded : list LogEntry -> string -> S -> S)
    (fileList : list FileUpload.File) (up : FileUpload.State) (app : S) :
  snd (FileUpload.processFiles onDataLoaded fileList (up, app)) =
  match ingest fileList with
  | Some (logs, name) => onDataLoaded logs name app
  | None => app
  end.
Proof.
  rewrite ingest_cases. unfold FileUpload.processFiles.
  destruct fileList as [|file rest]; [reflexivity|].
  destruct (FileUpload.readAll (file :: rest)) as [results|]; [|reflexivity].
  destruct (FileUpload.allLogs (FileUpload.validFileResults results)); reflexivity.
Qed.

End MergeFacts.

(** C1, as amended. For every list of input sources whose merged entries
    all carry an [eventTimestamp] that reads as a datetime, the dataset that
    ingestion publishes is sorted non-decreasing in [eventTimestamp]: the
    datetime value of each entry is at most that of the next one. *)
Theorem merged_dataset_sorted `{Platform} (fileList : list FileUpload.File)
    (logs : list LogEntry) (name : string) :
  ingest fileList = Some (logs, name) ->
  Forall hasTime logs ->
  Sorted timeLe logs.
Proof.
  rewrite ingest_cases.
  destruct fileList as [|file rest]; [discriminate|].
  destruct (FileUpload.readAll (file :: rest)) as [results|]; [|discriminate].
  cbv zeta.
  destruct (FileUpload.allLogs (FileUpload.validFileResults results)) as [|e all] eqn:Eall;
    [discriminate|].
  intros Hpub Htimes.
  assert (Hlogs : logs = arraySort byTimestamp (e :: all)) by congruence.
  subst logs. clear Hpub.
  apply Sorted_timeLe_keyLe.
  apply (arraySort_sorted getTime).
  apply Forall_forall. intros a Ha.
  apply (proj1 (Forall_forall _ _) Htimes), (proj2 (arraySort_In _ _ _)), Ha.
Qed.

(** The theorem at two sources and a file without records. *)
Lemma merged_dataset_sorted_witness :
  exists logs name,
    ingest [Samples.agentLog; Samples.notesTxt; Samples.serviceLog] = Some (logs, name)
    /\ List.length logs = 4%nat
    /\ Sorted timeLe logs.
Proof.
  eexists. eexists. split; [vm_compute; reflexivity|]. split; [reflexivity|].
  apply (@merged_dataset_sorted Reference.platform
           [Samples.agentLog; Samples.notesTxt; Samples.serviceLog] _ "2 Log Files Merged").
  - vm_compute. reflexivity.
  - repeat constructor; vm_compute; discriminate.
Defined.

(** C1, as stated, fails: a record whose timestamp is not a date is
    accepted, its datetime value is NaN, and wherever it stands in the
    published dataset the comparison with its neighbour is false. No
    arrangement of the two entries is sorted, so the failure does not depend
    on the order the sort leaves them in. *)
Lemma merged_dataset_sorted_counterexample :
  exists logs name,
    ingest [Samples.brokenClockLog] = Some (logs, name)
    /\ ~ Sorted timeLe logs
    /\ (forall arranged, Permutation logs arranged -> ~ Sorted timeLe arranged).
Proof.
  eexists. eexists. split; [vm_compute; reflexivity|].
  assert (Hall : forall arranged,
             Permutation
               [Samples.entry "not-a-date" "Agent" "Info" "clock lost";
                Samples.entry "2024-01-01T00:00:00Z" "Agent" "Info" "clock back"] arranged ->
             ~ Sorted timeLe arranged).
  { intros arranged Hperm Hsorted.
    pose proof (Permutation_length Hperm) as Hlen.
    destruct arranged as [|a [|b [|c rest]]]; try discriminate Hlen.
    assert (Ha : In (Samples.entry "not-a-date" "Agent" "Info" "clock lost") [a; b])
      by (eapply Permutation_in; [exact Hperm | left; reflexivity]).
    inversion Hsorted as [|? ? _ Hhd]; subst. inversion Hhd as [|? ? Hle]; subst.
    assert (Hnan : getTime (Samples.entry "not-a-date" "Agent" "Info" "clock lost") = NaN)
      by (vm_compute; reflexivity).
    unfold timeLe in Hle.
    destruct Ha as [Ha|[Ha|[]]]; subst; rewrite Hnan in Hle;
      [|destruct (getTime a)]; discriminate Hle. }
  split; [apply Hall, Permutation_refl | exact Hall].
Qed.

(* ------------------------------------------------------------------ *)
(** ** The merge: which sources count *)

Section SourceFacts.
Context `{Platform}.

Lemma readAll_Some (files : list FileUpload.File) (results : list FileUpload.FileResult) :
  FileUpload.readAll files = Some results ->
  results = map resultOf files /\ Forall readable files.
Proof.
  revert results. induction files as [|file rest IH]; simpl; intros results Hread.
  - injection Hread as <-. split; constructor.
  - unfold resultOf at 1.
    destruct (FileUpload.readFile file) as [logs|] eqn:Efile; [|discriminate].
    destruct (FileUpload.readAll rest) as [others|]; [|discriminate].
    injection Hread as <-. destruct (IH others eq_refl) as [-> Hrest].
    split; [reflexivity|]. constructor; [|exact Hrest].
    unfold readable, FileUpload.readFile in *.
    destruct (FileUpload.text file); [discriminate|discriminate].
Qed.

Lemma readAll_readable (files : list FileUpload.File) :
  Forall readable files -> FileUpload.readAll files = Some (map resultOf files).
Proof.
  induction 1 as [|file rest Hfile _ IH]; simpl; [reflexivity|].
  rewrite IH. unfold resultOf at 2. unfold readable in Hfile. unfold FileUpload.readFile.
  destruct (FileUpload.text file); [reflexivity|congruence].
Qed.

Lemma validFileResults_contributing (files : list FileUpload.File) :
  FileUpload.validFileResults (map resultOf files) = map resultOf (filter contributes files).
Proof.
  unfold FileUpload.validFileResults.
  induction files as [|file rest IH]; simpl; [reflexivity|].
  rewrite IH. unfold contributes.
  destruct (FileUpload.readFile file) as [[|e logs]|]; reflexivity.
Qed.

Lemma allLogs_contributing (files : list FileUpload.File) :
  Forall (fun f => contributes f = true) files -> files <> [] ->
  FileUpload.allLogs (map resultOf files) <> [].
Proof.
  intros Hall Hne. destruct files as [|file rest]; [congruence|].
  inversion Hall as [|? ? Hfile _]; subst. unfold contributes in Hfile.
  unfold FileUpload.allLogs. simpl.
  destruct (FileUpload.readFile file) as [[|e logs]|]; discriminate.
Qed.

Lemma allLogs_nothing (files : list FileUpload.File) :
  FileUpload.allLogs (map resultOf (filter contributes files)) = [] ->
  filter contributes files = [].
Proof.
  intros Hnil. destruct (filter contributes files) as [|file rest] eqn:Efilter; [reflexivity|].
  exfalso. revert Hnil. apply allLogs_contributing; [|discriminate].
  rewrite <- Efilter. apply Forall_forall. intros f Hf. apply filter_In in Hf. apply Hf.
Qed.

Lemma datasetName_names (files : list FileUpload.File) :
  FileUpload.datasetName (map resultOf files) =
  match files with
  | [only] => FileUpload.name only
  | _ => decimal (List.length files) ++ " Log Files Merged"
  end.
Proof.
  destruct files as [|a [|b rest]]; simpl; try reflexivity.
  unfold FileUpload.datasetName. simpl. rewrite length_map. reflexivity.
Qed.

Lemma filter_contributes_idem (files : list FileUpload.File) :
  filter contributes (filter contributes files) = filter contributes files.
Proof.
  induction files as [|file rest IH]; simpl; [reflexivity|].
  destruct (contributes file) eqn:Efile; simpl; [rewrite Efile, IH|]; auto.
Qed.

End SourceFacts.

(** C9. Whenever ingestion publishes a dataset, its name is the name of the
    single source that contributed valid entries when there is exactly one,
    and otherwise the count of contributing sources followed by
    [ Log Files Merged]; ingesting the contributing sources alone gives the
    same name, so a source without valid entries has no effect on it. *)
Theorem dataset_name_from_contributing_sources `{Platform}
    (fileList : list FileUpload.File) (logs : list LogEntry) (name : string) :
  ingest fileList = Some (logs, name) ->
  let contributing := filter contributes fileList in
  (forall only, contributing = [only] -> name = FileUpload.name only)
  /\ (List.length contributing <> 1%nat ->
      name = decimal (List.length contributing) ++ " Log Files Merged")
  /\ ingest contributing = Some (logs, name).
Proof.
  intros Hpub. cbv zeta. rewrite ingest_cases in Hpub.
  destruct fileList as [|file rest] eqn:Efiles; [discriminate|]. rewrite <- Efiles in *.
  destruct (FileUpload.readAll fileList) as [results|] eqn:Eread; [|discriminate].
  destruct (readAll_Some _ Eread) as [-> Hreadable].
  cbv zeta in Hpub. rewrite validFileResults_contributing in Hpub.
  pose proof (filter_contributes_idem fileList) as Hidem.
  assert (Hsub : Forall readable (filter contributes fileList)).
  { apply Forall_forall. intros f Hf. apply filter_In in Hf.
    apply (proj1 (Forall_forall _ _) Hreadable), Hf. }
  remember (filter contributes fileList) as contributing eqn:Econtr.
  destruct (FileUpload.allLogs (map resultOf contributing)) as [|e all] eqn:Eall;
    [discriminate|].
  assert (Hname : name = FileUpload.datasetName (map resultOf contributing)) by congruence.
  assert (Hlogs : logs = arraySort byTimestamp (e :: all)) by congruence.
  rewrite datasetName_names in Hname.
  split; [|split].
  - intros only Honly. rewrite Honly in Hname. exact Hname.
  - intros Hcount. destruct contributing as [|a [|b others]]; simpl in *; congruence.
  - rewrite ingest_cases.
    assert (Hsome : exists a others, contributing = a :: others).
    { destruct contributing as [|a others]; [simpl in Eall; discriminate Eall|].
      exists a, others. reflexivity. }
    destruct Hsome as (a & others & Eshape). rewrite Eshape at 1. cbv beta iota.
    rewrite (readAll_readable Hsub).
    cbv zeta. rewrite validFileResults_contributing, Hidem.
    rewrite Eall, datasetName_names, Hlogs, Hname. reflexivity.
Qed.

(** The theorem at three sources of which one has no record: the name
    counts two. *)
Lemma dataset_name_from_contributing_sources_witness :
  ingest [Samples.agentLog; Samples.notesTxt; Samples.serviceLog]
  = ingest [Samples.agentLog; Samples.serviceLog]
  /\ option_map snd (ingest [Samples.agentLog; Samples.notesTxt; Samples.serviceLog])
     = Some "2 Log Files Merged"
  /\ option_map snd (ingest [Samples.notesTxt; Samples.serviceLog]) = Some "service.log".
Proof.
  destruct (ingest [Samples.agentLog; Samples.notesTxt; Samples.serviceLog])
    as [[logs name]|] eqn:Epub; [|vm_compute in Epub; discriminate Epub].
  pose proof (@dataset_name_from_contributing_sources Reference.platform
                [Samples.agentLog; Samples.notesTxt; Samples.serviceLog] logs name Epub)
    as [_ [Hcount Hsame]].
  split; [symmetry; exact Hsame|].
  split; [simpl; f_equal; apply Hcount; vm_compute; discriminate|].
  vm_compute. reflexivity.
Defined.

(* ------------------------------------------------------------------ *)
(** ** The merge: the empty outcome *)

Lemma filter_nothing (A : Type) (f : A -> bool) (l : list A) :
  Forall (fun x => f x = false) l -> filter f l = [].
Proof.
  induction 1 as [|x rest Hx _ IH]; simpl; [reflexivity|]. rewrite Hx. exact IH.
Qed.

Lemma filter_everything (A : Type) (f : A -> bool) (l : list A) :
  (forall x, In x l -> f x = true) -> filter f l = l.
Proof.
  induction l as [|x rest IH]; simpl; intros Hall; [reflexivity|].
  rewrite (Hall x (or_introl eq_refl)). f_equal. apply IH.
  intros y Hy. apply Hall. right. exact Hy.
Qed.





(* ------------------------------------------------------------------ *)
(** ** The record parser *)

Lemma truthy_presentNonEmpty (v : option json) :
  truthy v = true <-> presentNonEmpty v.
Proof.
  unfold presentNonEmpty. split.
  - destruct v as [x|]; [|discriminate]. intros Ht. exists x. split; [reflexivity|].
    destruct x; simpl in *; try discriminate; try reflexivity;
      first [rewrite Ht; reflexivity | apply negb_true_iff in Ht; exact Ht].
  - intros (x & -> & Hx). destruct x; simpl in *; try discriminate; try reflexivity;
      first [apply negb_false_iff in Hx; exact Hx | apply negb_true_iff; exact Hx].
Qed.

Section ParserFacts.
Context `{Platform}.

Lemma isLogRecord_Some (parsed : json) (entry : LogEntry) :
  Utils.isLogRecord parsed = Some entry <->
  parsed = JObj entry
  /\ truthy (eventTimestamp entry) = true
  /\ truthy (component entry) = true
  /\ truthy (traceLevel entry) = true.
Proof.
  unfold Utils.isLogRecord. split.
  - destruct parsed as [| | | | |o]; try discriminate.
    destruct (truthy (eventTimestamp o)) eqn:E1; [|discriminate].
    destruct (truthy (component o)) eqn:E2; [|discriminate].
    destruct (truthy (traceLevel o)) eqn:E3; [|discriminate].
    simpl. intros [= <-]. auto.
  - intros (-> & -> & -> & ->). reflexivity.
Qed.

Lemma collect_In (lines : list string) (entry : LogEntry) :
  In entry (Utils.collect lines) <->
  exists line, In line lines /\ Utils.parseLine line = Some entry.
Proof.
  induction lines as [|line rest IH]; simpl.
  - split; [intros [] | intros (? & [] & _)].
  - destruct (Utils.parseLine line) as [e|] eqn:Eline; simpl; rewrite IH; split.
    + intros [->|(l & Hl & Hp)]; [exists line; auto | exists l; auto].
    + intros (l & [<-|Hl] & Hp); [left; congruence | right; exists l; auto].
    + intros (l & Hl & Hp). exists l; auto.
    + intros (l & [<-|Hl] & Hp); [congruence | exists l; auto].
Qed.

End ParserFacts.

(** C2. A line yields an entry exactly when its text decodes as JSON and
    the decoded record has [eventTimestamp], [component] and [traceLevel]
    present and not empty, whatever its other properties are; the entries of
    [parseLogFile] are exactly the entries of such lines, so a line that
    does not decode or lacks one of the three never appears in the output.
    For a string, not empty means different from the empty string. *)
Theorem record_parser_schema_gate `{Platform} :
  (forall line entry,
      Utils.parseLine line = Some entry <->
      JSON_parse (trim line) = Some (JObj entry)
      /\ presentNonEmpty (eventTimestamp entry)
      /\ presentNonEmpty (component entry)
      /\ presentNonEmpty (traceLevel entry))
  /\ (forall content entry,
        In entry (Utils.parseLogFile content) <->
        exists line, In line (splitLines content) /\ Utils.parseLine line = Some entry)
  /\ (forall s, presentNonEmpty (Some (JStr s)) <-> s <> "").
Proof.
  split; [|split].
  - intros line entry. rewrite <- !truthy_presentNonEmpty. unfold Utils.parseLine.
    destruct (trim line =? "")%string eqn:Eblank.
    + apply String.eqb_eq in Eblank. rewrite Eblank, JSON_parse_empty.
      split; [discriminate | intros [Hparse _]; discriminate Hparse].
    + destruct (JSON_parse (trim line)) as [parsed|].
      * rewrite isLogRecord_Some. split.
        -- intros (-> & Hrest). split; [reflexivity | exact Hrest].
        -- intros ([= ->] & Hrest). split; [reflexivity | exact Hrest].
      * split; [discriminate | intros [Hparse _]; discriminate Hparse].
  - intros content entry. unfold Utils.parseLogFile. cbv zeta.
    rewrite arraySort_In. apply collect_In.
  - intros s. rewrite <- truthy_presentNonEmpty. simpl. rewrite negb_true_iff.
    split.
    + intros Hne ->. discriminate Hne.
    + intros Hne. apply String.eqb_neq. exact Hne.
Qed.

(** The theorem on one line of the sample file: it decodes and has the
    three properties, so it yields its record. *)
Lemma record_parser_schema_gate_witness :
  Utils.parseLine (Samples.line "2024-01-01T00:00:05Z" "Agent" "Info" "started")
  = Some (Samples.entry "2024-01-01T00:00:05Z" "Agent" "Info" "started").
Proof.
  destruct (@record_parser_schema_gate Reference.platform) as (Hline & _ & _).
  apply Hline. split; [vm_compute; reflexivity|].
  repeat split; eexists; (split; [reflexivity | reflexivity]).
Defined.

(* ------------------------------------------------------------------ *)
(** ** The filter engine *)

Lemma startsWith_spec (p s : string) :
  startsWith p s = true <-> exists after, s = p ++ after.
Proof.
  revert s. induction p as [|a p IH]; intros s; simpl.
  - split; [intros _; exists s; reflexivity | reflexivity].
  - destruct s as [|b s]; simpl.
    + split; [discriminate | intros [after Hs]; discriminate Hs].
    + rewrite andb_true_iff, Ascii.eqb_eq, IH. split.
      * intros [-> [after ->]]. exists after. reflexivity.
      * intros [after [= -> ->]]. split; [reflexivity | exists after; reflexivity].
Qed.

Lemma includes_spec (s p : string) :
  includes s p = true <-> exists before after, s = before ++ p ++ after.
Proof.
  induction s as [|c s IH]; simpl.
  - rewrite orb_false_r, startsWith_spec. split.
    + intros [after Hs]. exists "", after. exact Hs.
    + intros (before & after & Hs). destruct before as [|b before]; [|discriminate Hs].
      exists after. exact Hs.
  - rewrite orb_true_iff, startsWith_spec, IH. split.
    + intros [[after Hs]|(before & after & ->)].
      * exists "", after. exact Hs.
      * exists (String c before), after. reflexivity.
    + intros (before & after & Hs). destruct before as [|b before]; simpl in Hs.
      * left. exists after. exact Hs.
      * right. injection Hs as -> ->. exists before, after. reflexivity.
Qed.

Lemma filter_Subsequence (A : Type) (f : A -> bool) (l : list A) :
  Subsequence (filter f l) l.
Proof.
  induction l as [|x rest IH]; simpl; [constructor|].
  destruct (f x); constructor; exact IH.
Qed.

Lemma filter_Subsequence_mono (A : Type) (f g : A -> bool) (l : list A) :
  (forall x, In x l -> f x = true -> g x = true) ->
  Subsequence (filter f l) (filter g l).
Proof.
  induction l as [|x rest IH]; simpl; intros Hfg; [constructor|].
  assert (Hrest : Subsequence (filter f rest) (filter g rest))
    by (apply IH; intros y Hy; apply Hfg; right; exact Hy).
  destruct (f x) eqn:Ef.
  - rewrite (Hfg x (or_introl eq_refl) Ef). constructor. exact Hrest.
  - destruct (g x); [constructor|]; exact Hrest.
Qed.

Section FilterFacts.
Context `{Platform}.

Lemma strictEqStr_spec (v : option json) (s : string) :
  strictEqStr v s = true <-> v = Some (JStr s).
Proof.
  destruct v as [[| | |t| |]|]; simpl; try (split; [discriminate | intros [=]]).
  rewrite String.eqb_eq. split; [intros ->; reflexivity | intros [= ->]; reflexivity].
Qed.

Lemma ciOccursInb_spec (needle : string) (v : option json) :
  ciOccursInb needle v = true <-> ciOccursIn needle v.
Proof.
  unfold ciOccursIn, ciSubstring.
  destruct v as [[| | |t| |]|]; simpl;
    try (split; [discriminate | intros (text & [=] & _)]).
  rewrite includes_spec. split.
  - intros Hin. exists t. split; [reflexivity | exact Hin].
  - intros (text & [= <-] & Hin). exact Hin.
Qed.

Lemma matchesb_spec (filters : LogFilter) (e : LogEntry) :
  matchesb filters e = true <-> Matches filters e.
Proof.
  unfold matchesb, Matches.
  rewrite !andb_true_iff, !orb_true_iff, !String.eqb_eq, !strictEqStr_spec,
    !ciOccursInb_spec.
  tauto.
Qed.

(** On a searchable entry the callback does not raise and computes the
    filter of the specification. *)
Lemma keeps_searchable (filters : LogFilter) (e : LogEntry) :
  searchable e -> LogTable.keeps filters e = Some (matchesb filters e).
Proof.
  intros [[text Hmsg] Hop].
  unfold LogTable.keeps, LogTable.matchesSearch, matchesb.
  destruct (search filters =? "")%string; [reflexivity|].
  rewrite Hmsg. simpl.
  destruct (includes (toLowerCase text) (toLowerCase (search filters))); [reflexivity|].
  destruct Hop as [->|[->|[op ->]]]; reflexivity.
Qed.

Lemma filteredLogs_searchable (logs : list LogEntry) (filters : LogFilter) :
  Forall searchable logs ->
  LogTable.filteredLogs logs filters = Some (filter (matchesb filters) logs).
Proof.
  induction 1 as [|e rest He _ IH]; simpl; [reflexivity|].
  rewrite (keeps_searchable filters He), IH. reflexivity.
Qed.

(** With an empty search no text is read, whatever the entries are. *)
Lemma keeps_without_search (filters : LogFilter) (e : LogEntry) :
  search filters = "" -> LogTable.keeps filters e = Some (matchesb filters e).
Proof.
  intros Hs. unfold LogTable.keeps, LogTable.matchesSearch, matchesb.
  rewrite Hs. reflexivity.
Qed.

End FilterFacts.

Lemma Matches_relaxed `{Platform} (wider filters : LogFilter) (e : LogEntry) :
  Relaxes wider filters -> Matches filters e -> Matches wider e.
Proof.
  unfold Relaxes, Matches.
  intros (Hs & Hl & Hc) (Ms & Ml & Mc). repeat split.
  - destruct Hs as [Hs|Hs]; [left; exact Hs | rewrite Hs; exact Ms].
  - destruct Hl as [Hl|Hl]; [left; exact Hl | rewrite Hl; exact Ml].
  - destruct Hc as [Hc|Hc]; [left; exact Hc | rewrite Hc; exact Mc].
Qed.

(** C3, as amended. On every dataset whose entries have a text as
    [message] and, when they have an [operationName] other than [null], a
    text as [operationName], and for every filter, the filter engine
    returns the entries that satisfy the three conditions
    together (the search text is empty or occurs, case ignored, in the
    message or in the operation name; the level is empty or equals the
    trace level; the component is empty or equals the component), in the
    order of the dataset. The empty filter keeps every entry, and a filter
    returns a subsequence of what any filter with fewer constraints
    returns. *)
Theorem filter_engine_conjunction `{Platform} (logs : list LogEntry) (filters : LogFilter) :
  Forall searchable logs ->
  LogTable.filteredLogs logs filters = Some (filter (matchesb filters) logs)
  /\ (forall e, matchesb filters e = true <-> Matches filters e)
  /\ Subsequence (filter (matchesb filters) logs) logs
  /\ LogTable.filteredLogs logs Dashboard.noFilters = Some logs
  /\ (forall wider, Relaxes wider filters ->
        exists more,
          LogTable.filteredLogs logs wider = Some more
          /\ Subsequence (filter (matchesb filters) logs) more).
Proof.
  intros Htyped. split; [|split; [|split; [|split]]].
  - apply filteredLogs_searchable, Htyped.
  - intros e. apply matchesb_spec.
  - apply filter_Subsequence.
  - rewrite (filteredLogs_searchable Dashboard.noFilters Htyped). f_equal.
    clear Htyped. induction logs as [|e rest IH]; simpl; [reflexivity|].
    rewrite IH. reflexivity.
  - intros wider Hwider. exists (filter (matchesb wider) logs). split.
    + apply filteredLogs_searchable, Htyped.
    + apply filter_Subsequence_mono. intros e _ He.
      apply matchesb_spec. apply (Matches_relaxed Hwider). apply matchesb_spec, He.
Qed.

(** The theorem on the sample dataset: a search in another case, a level
    and a component select the one failed login. *)
Lemma filter_engine_conjunction_witness :
  LogTable.filteredLogs Samples.dataset
    {| search := "login fail"; level := "Error"; component_ := "Agent" |}
  = Some [Samples.entry "2024-01-01T00:00:00.400Z" "Agent" "Error" "Login FAILED"]
  /\ LogTable.filteredLogs Samples.dataset Dashboard.noFilters = Some Samples.dataset.
Proof.
  assert (Htyped : Forall searchable Samples.dataset).
  { repeat (constructor; [split; [eexists; reflexivity | left; reflexivity]|]).
    constructor. }
  destruct (@filter_engine_conjunction Reference.platform Samples.dataset
              {| search := "login fail"; level := "Error"; component_ := "Agent" |} Htyped)
    as (Hout & _ & _ & Hall & _).
  split; [rewrite Hout; vm_compute; reflexivity | exact Hall].
Defined.

(** C3, as stated, fails: a record without a message passes the parser
    and is published, and with a search text the filter engine raises on it
    instead of returning the entries that match, which are none here. It
    raises as well on a published record whose operation name is a number,
    when the search text is not in the message. *)
Lemma filter_engine_conjunction_counterexample :
  (exists logs name,
     ingest (H := Reference.platform) [Samples.silentLog] = Some (logs, name)
     /\ logs = [Samples.silent]
     /\ filter (matchesb (H := Reference.platform)
                  {| search := "flow"; level := ""; component_ := "" |}) logs = []
     /\ LogTable.filteredLogs (H := Reference.platform) logs
          {| search := "flow"; level := ""; component_ := "" |} = None
     /\ forall kept,
          LogTable.filteredLogs (H := Reference.platform) logs
            {| search := "flow"; level := ""; component_ := "" |} <> Some kept)
  /\ (exists logs name,
        ingest (H := Reference.platform) [Samples.numberedLog] = Some (logs, name)
        /\ map message logs = [Some (JStr "done")]
        /\ map operationName logs = [Some (JNum 5%float)]
        /\ LogTable.filteredLogs (H := Reference.platform) logs
             {| search := "flow"; level := ""; component_ := "" |} = None).
Proof.
  split.
  - exists [Samples.silent], "silent.log".
    split; [vm_compute; reflexivity|]. split; [reflexivity|].
    split; [vm_compute; reflexivity|].
    assert (Hraises : LogTable.filteredLogs (H := Reference.platform) [Samples.silent]
                        {| search := "flow"; level := ""; component_ := "" |} = None)
      by (vm_compute; reflexivity).
    split; [exact Hraises|]. intros kept Hkept. rewrite Hraises in Hkept. discriminate Hkept.
  - eexists. eexists. split; [vm_compute; reflexivity|].
    split; [vm_compute; reflexivity|]. split; vm_compute; reflexivity.
Qed.

(* ------------------------------------------------------------------ *)
(** ** The filter choices *)

Lemma distinct_In (values : list string) (v : string) :
  In v (LogTable.distinct values) <-> In v values.
Proof.
  induction values as [|w rest IH]; simpl; [tauto|].
  rewrite filter_In, IH, negb_true_iff, String.eqb_neq.
  destruct (string_dec w v) as [->|Hne]; [tauto|].
  split; [tauto|]. intros [Heq|Hin]; [tauto|]. right. split; [exact Hin|congruence].
Qed.

Lemma distinct_NoDup (values : list string) : NoDup (LogTable.distinct values).
Proof.
  induction values as [|w rest IH]; simpl; constructor.
  - rewrite filter_In, negb_true_iff, String.eqb_neq. tauto.
  - apply NoDup_filter, IH.
Qed.

Lemma defaultCompare_after (a b : string) :
  comesAfter LogTable.defaultCompare a b = true -> String.leb b a = true.
Proof.
  unfold comesAfter, LogTable.defaultCompare, String.leb.
  rewrite (String.compare_antisym a b).
  destruct (String.compare b a); simpl; intros Hc; first [discriminate Hc | reflexivity].
Qed.

Lemma defaultCompare_before (a b : string) :
  comesAfter LogTable.defaultCompare a b = false -> String.leb a b = true.
Proof.
  unfold comesAfter, LogTable.defaultCompare, String.leb.
  destruct (String.compare a b); simpl; intros Hc; first [discriminate Hc | reflexivity].
Qed.

(** [Array.from(new Set(values)).sort()] on strings. *)
Lemma sort_distinct_SortedDistinct (values : list string) :
  SortedDistinct values (arraySort LogTable.defaultCompare (LogTable.distinct values)).
Proof.
  split; [|split].
  - apply (@arraySort_Sorted _ LogTable.defaultCompare (fun _ => True)).
    + intros a b _ _. apply defaultCompare_after.
    + intros a b _ _. apply defaultCompare_before.
    + apply Forall_forall. intros; exact I.
  - eapply Permutation_NoDup; [apply Permutation_sym, arraySort_perm | apply distinct_NoDup].
  - intros v. rewrite arraySort_In. apply distinct_In.
Qed.

Section ChoiceFacts.
Context `{Platform}.

Lemma filteredLogs_InRange (logs : list LogEntry) (range : option Dashboard.TimeRange)
    (e : LogEntry) :
  In e (Dashboard.filteredLogs logs range) <-> In e logs /\ InRange range e.
Proof.
  destruct range as [r|]; simpl; [|tauto].
  rewrite filter_In. cbv zeta. rewrite andb_true_iff. unfold nge, nle.
  split; intros [Hin Hrange]; (split; [exact Hin|]).
  - destruct Hrange as [Hfrom Hto].
    destruct (Dashboard.start r) as [from|]; [|discriminate Hfrom].
    destruct (getTime e) as [t|]; [|discriminate Hfrom].
    destruct (Dashboard.end_ r) as [to|]; [|discriminate Hto].
    apply Z.leb_le in Hfrom. apply Z.leb_le in Hto.
    exists t, from, to. auto.
  - destruct Hrange as (t & from & to & -> & -> & -> & Hfrom & Hto).
    split; apply Z.leb_le; assumption.
Qed.

Lemma names_In (read : LogEntry -> option json) (logs : list LogEntry) (v : string) :
  Forall (fun e => exists s, read e = Some (JStr s)) logs ->
  In v (map (fun l => LogTable.asString (read l)) logs) <->
  exists e, In e logs /\ read e = Some (JStr v).
Proof.
  intros Htyped. rewrite in_map_iff. split.
  - intros (e & Hv & He). exists e. split; [exact He|].
    destruct (proj1 (Forall_forall _ _) Htyped e He) as [s Hs].
    rewrite Hs in Hv. simpl in Hv. congruence.
  - intros (e & He & Hv). exists e. rewrite Hv. auto.
Qed.

End ChoiceFacts.

(** C4, as amended. For every dataset whose entries have texts as
    [component] and [traceLevel] and every state of the dashboard, the
    component and level choices of the table are the sorted distinct
    [component] and [traceLevel] values of the entries of the dataset that
    lie in the zoom window, which are all its entries when no window is set;
    the search, level and component filters play no part in them. *)
Theorem filter_choices_follow_zoom `{Platform} (logs : list LogEntry) (st : Dashboard.State) :
  Forall named logs ->
  let shown := Dashboard.logTableLogs logs st in
  Subsequence shown logs
  /\ (Dashboard.timeRange st = None -> shown = logs)
  /\ SortedDistinct (map (fun l => LogTable.asString (component l)) shown)
       (LogTable.uniqueComponents shown)
  /\ SortedDistinct (map (fun l => LogTable.asString (traceLevel l)) shown)
       (LogTable.uniqueLevels shown)
  /\ (forall c, In c (LogTable.uniqueComponents shown) <->
        exists e, In e logs /\ InRange (Dashboard.timeRange st) e
                  /\ component e = Some (JStr c))
  /\ (forall l, In l (LogTable.uniqueLevels shown) <->
        exists e, In e logs /\ InRange (Dashboard.timeRange st) e
                  /\ traceLevel e = Some (JStr l)).
Proof.
  intros Hnamed shown.
  assert (Hshown : forall e, In e shown <-> In e logs /\ InRange (Dashboard.timeRange st) e)
    by (intros e; apply filteredLogs_InRange).
  assert (Htyped : Forall named shown).
  { apply Forall_forall. intros e He. apply Hshown in He.
    apply (proj1 (Forall_forall _ _) Hnamed), He. }
  pose proof (sort_distinct_SortedDistinct
                (map (fun l => LogTable.asString (component l)) shown)) as Hcs.
  pose proof (sort_distinct_SortedDistinct
                (map (fun l => LogTable.asString (traceLevel l)) shown)) as Hls.
  split; [|split; [|split; [|split; [|split]]]].
  - subst shown. unfold Dashboard.logTableLogs, Dashboard.filteredLogs.
    destruct (Dashboard.timeRange st); [apply filter_Subsequence|].
    clear. induction logs; constructor; assumption.
  - intros Hnone. subst shown. unfold Dashboard.logTableLogs. rewrite Hnone. reflexivity.
  - exact Hcs.
  - exact Hls.
  - intros c. destruct Hcs as (_ & _ & Hin). unfold LogTable.uniqueComponents.
    rewrite Hin, (names_In component).
    + split; intros (e & He & Hc); exists e.
      * apply Hshown in He. tauto.
      * split; [apply Hshown; tauto | tauto].
    + eapply Forall_impl; [|exact Htyped]. intros e [Hc _]. exact Hc.
  - intros l. destruct Hls as (_ & _ & Hin). unfold LogTable.uniqueLevels.
    rewrite Hin, (names_In traceLevel).
    + split; intros (e & He & Hl); exists e.
      * apply Hshown in He. tauto.
      * split; [apply Hshown; tauto | tauto].
    + eapply Forall_impl; [|exact Htyped]. intros e [_ Hl]. exact Hl.
Qed.

(** The theorem on the sample dataset zoomed on its first second: the
    choices are those of the two entries in the window. *)
Lemma filter_choices_follow_zoom_witness :
  LogTable.uniqueComponents (Dashboard.logTableLogs Samples.dataset firstSecond) = ["Agent"]
  /\ LogTable.uniqueLevels (Dashboard.logTableLogs Samples.dataset firstSecond)
     = ["Error"; "Info"]
  /\ (forall c,
        In c (LogTable.uniqueComponents (Dashboard.logTableLogs Samples.dataset firstSecond))
        <-> exists e, In e Samples.dataset
                      /\ InRange (Dashboard.timeRange firstSecond) e
                      /\ component e = Some (JStr c)).
Proof.
  assert (Hnamed : Forall named Samples.dataset).
  { repeat (constructor; [split; eexists; reflexivity|]). constructor. }
  destruct (@filter_choices_follow_zoom Reference.platform Samples.dataset firstSecond Hnamed)
    as (_ & _ & _ & _ & Hchoices & _).
  split; [vm_compute; reflexivity|]. split; [vm_compute; reflexivity|].
  exact Hchoices.
Defined.

(** C4, as stated, fails: under a zoom window the table receives the
    entries of the window only, and a component that occurs in the dataset
    but not in the window is not among the choices. *)
Lemma filter_choices_follow_zoom_counterexample :
  LogTable.uniqueComponents Samples.dataset = ["Agent"; "Service"]
  /\ LogTable.uniqueComponents
       (Dashboard.logTableLogs (H := Reference.platform) Samples.dataset firstSecond)
     = ["Agent"]
  /\ LogTable.uniqueComponents
       (Dashboard.logTableLogs (H := Reference.platform) Samples.dataset firstSecond)
     <> LogTable.uniqueComponents Samples.dataset
  /\ ~ SortedDistinct (map (fun l => LogTable.asString (component l)) Samples.dataset)
         (LogTable.uniqueComponents
            (Dashboard.logTableLogs (H := Reference.platform) Samples.dataset firstSecond)).
Proof.
  split; [vm_compute; reflexivity|]. split; [vm_compute; reflexivity|].
  split; [vm_compute; discriminate|].
  intros (_ & _ & Hsame).
  assert (Hin : In "Service"
                  (LogTable.uniqueComponents
                     (Dashboard.logTableLogs (H := Reference.platform)
                        Samples.dataset firstSecond))).
  { apply Hsame. vm_compute. right. right. left. reflexivity. }
  vm_compute in Hin. destruct Hin as [Hin|[]]. discriminate Hin.
Qed.

(* ------------------------------------------------------------------ *)
(** ** The timeline buckets *)

Lemma nkey_eqb_eq (a b : jsnum) : nkey_eqb a b = true <-> a = b.
Proof.
  destruct a as [x|], b as [y|]; simpl; try (split; [discriminate|discriminate]).
  - rewrite Z.eqb_eq. split; [intros ->; reflexivity | intros [= ->]; reflexivity].
  - tauto.
Qed.

Lemma nkey_eqb_refl (a : jsnum) : nkey_eqb a a = true.
Proof. apply nkey_eqb_eq. reflexivity. Qed.

Lemma nkey_eqb_neq (a b : jsnum) : nkey_eqb a b = false <-> a <> b.
Proof.
  rewrite <- nkey_eqb_eq. destruct (nkey_eqb a b); split; congruence.
Qed.

Lemma findBucket_None (key : jsnum) (buckets : LogCharts.Buckets) :
  LogCharts.findBucket key buckets = None <-> ~ In key (map fst buckets).
Proof.
  induction buckets as [|[k b] rest IH]; simpl; [tauto|].
  destruct (nkey_eqb k key) eqn:Ek.
  - apply nkey_eqb_eq in Ek. split; [discriminate | tauto].
  - apply nkey_eqb_neq in Ek. rewrite IH. tauto.
Qed.

Lemma findBucket_Some (key : jsnum) (buckets : LogCharts.Buckets) (b : LogCharts.Bucket) :
  LogCharts.findBucket key buckets = Some b -> In key (map fst buckets).
Proof.
  induction buckets as [|[k b0] rest IH]; simpl; [discriminate|].
  destruct (nkey_eqb k key) eqn:Ek.
  - apply nkey_eqb_eq in Ek. intros _. left. exact Ek.
  - intros Hfind. right. apply IH, Hfind.
Qed.

Lemma updateBucket_keys (key : jsnum) (f : LogCharts.Bucket -> LogCharts.Bucket)
    (buckets : LogCharts.Buckets) :
  map fst (LogCharts.updateBucket key f buckets) = map fst buckets.
Proof.
  induction buckets as [|[k b] rest IH]; simpl; [reflexivity|].
  destruct (nkey_eqb k key); simpl; [reflexivity|]. rewrite IH. reflexivity.
Qed.

(** With distinct keys, an update changes the bucket of its key and no
    other. *)
Lemma updateBucket_In (key : jsnum) (f : LogCharts.Bucket -> LogCharts.Bucket)
    (buckets : LogCharts.Buckets) (k : jsnum) (b : LogCharts.Bucket) :
  NoDup (map fst buckets) ->
  In (k, b) (LogCharts.updateBucket key f buckets) ->
  (k = key /\ exists b0, In (k, b0) buckets /\ b = f b0)
  \/ (k <> key /\ In (k, b) buckets).
Proof.
  induction buckets as [|[k0 b0] rest IH]; simpl; intros Hnd Hin; [contradiction|].
  inversion Hnd as [|? ? Hfresh Hrest]; subst.
  destruct (nkey_eqb k0 key) eqn:Ek.
  - apply nkey_eqb_eq in Ek. subst k0. destruct Hin as [[= <- <-]|Hin].
    + left. split; [reflexivity|]. exists b0. auto.
    + right. split; [|right; exact Hin].
      intros ->. apply Hfresh. apply (in_map fst) in Hin. exact Hin.
  - apply nkey_eqb_neq in Ek. destruct Hin as [[= <- <-]|Hin].
    + right. split; [exact Ek | left; reflexivity].
    + destruct (IH Hrest Hin) as [(-> & b1 & Hb1 & ->)|(Hne & Hb)].
      * left. split; [reflexivity|]. exists b1. auto.
      * right. auto.
Qed.

Lemma updateBucket_twice (key : jsnum) (f g : LogCharts.Bucket -> LogCharts.Bucket)
    (buckets : LogCharts.Buckets) :
  LogCharts.updateBucket key g (LogCharts.updateBucket key f buckets)
  = LogCharts.updateBucket key (fun b => g (f b)) buckets.
Proof.
  induction buckets as [|[k b] rest IH]; simpl; [reflexivity|].
  destruct (nkey_eqb k key) eqn:Ek; simpl; rewrite Ek; [reflexivity|].
  rewrite IH. reflexivity.
Qed.

Lemma tally_snoc (p : LogEntry -> bool) (seen : list LogEntry) (e : LogEntry) :
  tally p (seen ++ [e]) = tally p seen + (if p e then 1 else 0).
Proof.
  unfold tally. rewrite filter_app, length_app. simpl.
  destruct (p e); simpl; lia.
Qed.

Lemma tally_cons (p : LogEntry -> bool) (e : LogEntry) (rest : list LogEntry) :
  tally p (e :: rest) = (if p e then 1 else 0) + tally p rest.
Proof.
  unfold tally. simpl filter. destruct (p e); [|lia].
  simpl List.length. lia.
Qed.

Lemma tally_none (p : LogEntry -> bool) (seen : list LogEntry) :
  (forall e, In e seen -> p e = false) -> tally p seen = 0.
Proof.
  intros Hnone. unfold tally.
  induction seen as [|e rest IH]; simpl; [reflexivity|].
  rewrite (Hnone e (or_introl eq_refl)). apply IH. intros x Hx. apply Hnone. right. exact Hx.
Qed.

Lemma tally_bounds (p q : LogEntry -> bool) (logs : list LogEntry) :
  0 <= tally (fun e => p e && q e) logs <= tally p logs.
Proof.
  unfold tally. induction logs as [|e rest IH]; simpl; [lia|].
  destruct (p e), (q e); simpl; lia.
Qed.

Lemma filter_partition_perm (A : Type) (p : A -> bool) (l : list A) :
  Permutation (filter p l ++ filter (fun x => negb (p x)) l) l.
Proof.
  induction l as [|x rest IH]; simpl; [constructor|].
  destruct (p x); simpl.
  - constructor. exact IH.
  - apply Permutation_sym. apply Permutation_cons_app. apply Permutation_sym. exact IH.
Qed.

Lemma objectValues_perm (buckets : LogCharts.Buckets) :
  Permutation (LogCharts.objectValues buckets) (map snd buckets).
Proof.
  unfold LogCharts.objectValues. apply Permutation_map.
  eapply perm_trans; [|apply filter_partition_perm with (p := fun kb => LogCharts.isArrayIndex (fst kb))].
  apply Permutation_app_tail. apply arraySort_perm.
Qed.

Section BucketFacts.
Context `{Platform}.
Variable size : Z.

Lemma bucketOf_snoc (seen : list LogEntry) (e : LogEntry) (k : jsnum) :
  bucketOf size (seen ++ [e]) k =
  if nkey_eqb (keyOf size e) k then
    (if LogCharts.isError e
     then LogCharts.incErrors (LogCharts.incCount (bucketOf size seen k))
     else LogCharts.incCount (bucketOf size seen k))
  else bucketOf size seen k.
Proof.
  unfold bucketOf. rewrite !tally_snoc. unfold inBucket.
  destruct (nkey_eqb (keyOf size e) k); simpl.
  - destruct (LogCharts.isError e); unfold LogCharts.incErrors, LogCharts.incCount; simpl;
      f_equal; lia.
  - f_equal; lia.
Qed.

Lemma bucketOf_fresh (seen : list LogEntry) (k : jsnum) :
  ~ In k (map (keyOf size) seen) ->
  bucketOf size seen k =
  {| LogCharts.time := toLocaleString k; LogCharts.timestamp := k;
     LogCharts.endTime := nadd k size; LogCharts.count := 0; LogCharts.errors := 0 |}.
Proof.
  intros Hfresh. unfold bucketOf.
  assert (Hnone : forall e, In e seen -> inBucket size k e = false).
  { intros e He. apply nkey_eqb_neq. intros Hk. apply Hfresh. rewrite <- Hk.
    apply in_map. exact He. }
  rewrite !tally_none; [reflexivity | | exact Hnone].
  intros e He. rewrite (Hnone e He). reflexivity.
Qed.

Lemma addLog_Tallied (buckets : LogCharts.Buckets) (seen : list LogEntry) (e : LogEntry) :
  Tallied size buckets seen -> Tallied size (LogCharts.addLog size buckets e) (seen ++ [e]).
Proof.
  intros (Hnd & Hvals & Hdom).
  unfold LogCharts.addLog. cbv zeta. fold (keyOf size e).
  set (k := keyOf size e).
  set (ensured :=
         match LogCharts.findBucket k buckets with
         | Some _ => buckets
         | None =>
             LogCharts.addBucket k
               {| LogCharts.time := toLocaleString k; LogCharts.timestamp := k;
                  LogCharts.endTime := nadd k size; LogCharts.count := 0;
                  LogCharts.errors := 0 |} buckets
         end).
  assert (Hensured :
            NoDup (map fst ensured)
            /\ (forall k' b, In (k', b) ensured -> b = bucketOf size seen k')
            /\ (forall k', In k' (map fst ensured) <-> k' = k \/ In k' (map (keyOf size) seen))).
  { subst ensured. destruct (LogCharts.findBucket k buckets) as [b|] eqn:Efind.
    - split; [exact Hnd|]. split; [exact Hvals|].
      intros k'. rewrite Hdom. split; [tauto|]. intros [->|Hin]; [|exact Hin].
      apply Hdom. apply (findBucket_Some _ _ Efind).
    - apply findBucket_None in Efind. unfold LogCharts.addBucket.
      split; [|split].
      + rewrite map_app. simpl. apply NoDup_app; [exact Hnd | repeat constructor; intros [] |].
        intros x Hx [<-|[]]. exact (Efind Hx).
      + intros k' b Hin. apply in_app_or in Hin. destruct Hin as [Hin|[[= <- <-]|[]]].
        * apply Hvals, Hin.
        * symmetry. apply bucketOf_fresh. rewrite <- Hdom. exact Efind.
      + intros k'. rewrite map_app, in_app_iff, Hdom. simpl. intuition congruence. }
  destruct Hensured as (Hnd1 & Hvals1 & Hdom1).
  set (bump := fun b =>
         if LogCharts.isError e then LogCharts.incErrors (LogCharts.incCount b)
         else LogCharts.incCount b).
  assert (Hshape :
            (if LogCharts.isError e
             then LogCharts.updateBucket k LogCharts.incErrors
                    (LogCharts.updateBucket k LogCharts.incCount ensured)
             else LogCharts.updateBucket k LogCharts.incCount ensured)
            = LogCharts.updateBucket k bump ensured).
  { subst bump. destruct (LogCharts.isError e); [apply updateBucket_twice | reflexivity]. }
  rewrite Hshape. split; [|split].
  - rewrite updateBucket_keys. exact Hnd1.
  - intros k' b Hin. rewrite bucketOf_snoc. fold k.
    destruct (@updateBucket_In _ _ _ _ _ Hnd1 Hin) as [(-> & b0 & Hb0 & ->)|(Hne & Hb)].
    + rewrite nkey_eqb_refl. rewrite (Hvals1 _ _ Hb0). reflexivity.
    + assert (Eq : nkey_eqb k k' = false) by (apply nkey_eqb_neq; congruence).
      rewrite Eq. apply Hvals1, Hb.
  - intros k'. rewrite updateBucket_keys, Hdom1, map_app, in_app_iff. simpl. fold k.
    intuition congruence.
Qed.

Lemma fold_addLog_Tallied (rest : list LogEntry) (buckets : LogCharts.Buckets)
    (seen : list LogEntry) :
  Tallied size buckets seen ->
  Tallied size (fold_left (LogCharts.addLog size) rest buckets) (seen ++ rest).
Proof.
  revert buckets seen. induction rest as [|e rest IH]; simpl; intros buckets seen Hinv.
  - rewrite app_nil_r. exact Hinv.
  - replace (seen ++ e :: rest)%list with ((seen ++ [e]) ++ rest)%list
      by (rewrite <- app_assoc; reflexivity).
    apply IH, addLog_Tallied, Hinv.
Qed.

Lemma Tallied_empty : Tallied size [] [].
Proof.
  split; [constructor|]. split; [intros k b []|]. intros k. simpl. tauto.
Qed.

End BucketFacts.

Lemma totalCount_perm (a b : list LogCharts.Bucket) :
  Permutation a b -> totalCount a = totalCount b.
Proof.
  unfold totalCount. induction 1; simpl; lia.
Qed.

(** Over distinct keys, the tallies add up to the entries whose key is
    among them. *)
Lemma totalCount_bucketOf `{Platform} (size : Z) (keys : list jsnum) (logs : list LogEntry) :
  NoDup keys ->
  totalCount (map (bucketOf size logs) keys)
  = tally (fun e => existsb (nkey_eqb (keyOf size e)) keys) logs.
Proof.
  intros Hnd. unfold totalCount. rewrite map_map. simpl.
  induction Hnd as [|k keys Hfresh Hnd IH]; simpl.
  - rewrite tally_none; [reflexivity | reflexivity].
  - rewrite IH. clear IH. unfold inBucket.
    induction logs as [|e rest IHlogs]; [reflexivity|].
    rewrite !tally_cons.
    destruct (nkey_eqb (keyOf size e) k) eqn:Ek.
    + assert (Hout : existsb (nkey_eqb (keyOf size e)) keys = false).
      { apply not_true_is_false. intros Hex. apply existsb_exists in Hex.
        destruct Hex as (k' & Hk' & Heq). apply nkey_eqb_eq in Ek, Heq. congruence. }
      rewrite Hout. simpl orb. cbv iota. lia.
    + simpl orb. destruct (existsb (nkey_eqb (keyOf size e)) keys); cbv iota; lia.
Qed.

(** [volumeData] in closed form: up to their order, the buckets are those
    of the distinct bucket starts of the entries, each with the tallies of
    its start. *)
Lemma volumeData_buckets `{Platform} (logs : list LogEntry) :
  exists keys,
    NoDup keys
    /\ (forall k, In k keys <-> In k (map (keyOf (widthOf logs)) logs))
    /\ Permutation (LogCharts.volumeData logs) (map (bucketOf (widthOf logs) logs) keys).
Proof.
  destruct logs as [|first rest] eqn:Elogs.
  - exists []. split; [constructor|]. split; [simpl; tauto | constructor].
  - rewrite <- Elogs.
    pose proof (@fold_addLog_Tallied _ (widthOf logs) logs [] []
                  (@Tallied_empty _ (widthOf logs)))
      as (Hnd & Hvals & Hdom). simpl in Hnd, Hvals, Hdom.
    exists (map fst (fold_left (LogCharts.addLog (widthOf logs)) logs [])).
    split; [exact Hnd|]. split; [exact Hdom|].
    assert (Hdata : LogCharts.volumeData logs =
              arraySort (fun a b => nsub (LogCharts.timestamp a) (LogCharts.timestamp b))
                (LogCharts.objectValues (fold_left (LogCharts.addLog (widthOf logs)) logs [])))
      by (rewrite Elogs; reflexivity).
    rewrite Hdata.
    eapply perm_trans; [apply arraySort_perm|].
    eapply perm_trans; [apply objectValues_perm|].
    rewrite map_map.
    replace (map snd (fold_left (LogCharts.addLog (widthOf logs)) logs []))
      with (map (fun kb => bucketOf (widthOf logs) logs (fst kb))
              (fold_left (LogCharts.addLog (widthOf logs)) logs [])); [apply Permutation_refl|].
    apply map_ext_in. intros [k b] Hin. simpl. symmetry. apply Hvals, Hin.
Qed.

(** The buckets of the timeline have distinct starts. *)
Lemma buckets_distinct `{Platform} (logs : list LogEntry) :
  NoDup (map LogCharts.timestamp (LogCharts.volumeData logs)).
Proof.
  destruct (volumeData_buckets logs) as (keys & Hnd & _ & Hperm).
  eapply Permutation_NoDup; [apply Permutation_sym, Permutation_map, Hperm|].
  rewrite map_map. simpl. rewrite map_id. exact Hnd.
Qed.

(** C7. For every dataset, every entry is counted in exactly one bucket,
    the one that starts at [floor(timestamp / width) * width]: the bucket
    starts are distinct and the start of every entry is among them; the
    counts add up to the number of entries; every emitted bucket counts at
    least one entry, namely the entries with its start; and its error count
    is the number of these entries whose level is Error or Critical. *)
Theorem buckets_count_every_entry_once `{Platform} (logs : list LogEntry) :
  let width := widthOf logs in
  let buckets := LogCharts.volumeData logs in
  totalCount buckets = Z.of_nat (List.length logs)
  /\ NoDup (map LogCharts.timestamp buckets)
  /\ (forall e, In e logs ->
        exists b, In b buckets
                  /\ LogCharts.timestamp b = LogCharts.bucketKey (getTime e) width)
  /\ (forall b, In b buckets ->
        1 <= LogCharts.count b
        /\ LogCharts.count b = tally (inBucket width (LogCharts.timestamp b)) logs
        /\ LogCharts.errors b
           = tally (fun e => inBucket width (LogCharts.timestamp b) e && LogCharts.isError e)
               logs).
Proof.
  intros width buckets.
  destruct (volumeData_buckets logs) as (keys & Hnd & Hdom & Hperm).
  fold width in Hdom, Hperm. fold buckets in Hperm.
  split; [|split; [|split]].
  - rewrite (totalCount_perm Hperm), (totalCount_bucketOf _ _ Hnd).
    unfold tally. f_equal. f_equal.
    assert (Hall : forall e, In e logs -> existsb (nkey_eqb (keyOf width e)) keys = true).
    { intros e He. apply existsb_exists. exists (keyOf width e).
      split; [apply Hdom, in_map, He | apply nkey_eqb_refl]. }
    apply filter_everything, Hall.
  - eapply Permutation_NoDup; [apply Permutation_sym, Permutation_map, Hperm|].
    rewrite map_map. simpl. rewrite map_id. exact Hnd.
  - intros e He. exists (bucketOf width logs (keyOf width e)). split; [|reflexivity].
    eapply Permutation_in; [apply Permutation_sym, Hperm|].
    apply in_map, Hdom, in_map, He.
  - intros b Hb. apply (Permutation_in _ Hperm) in Hb. apply in_map_iff in Hb.
    destruct Hb as (k & <- & Hk). simpl. split; [|split; reflexivity].
    apply Hdom in Hk. apply in_map_iff in Hk. destruct Hk as (e & Hkey & He).
    unfold tally.
    assert (Hin : In e (filter (inBucket width k) logs)).
    { apply filter_In. split; [exact He|]. apply nkey_eqb_eq. exact Hkey. }
    destruct (filter (inBucket width k) logs); [contradiction|]. simpl List.length. lia.
Qed.

(** C10. Every bucket of the timeline has an error count between zero
    and its count. *)
Theorem bucket_errors_within_count `{Platform} (logs : list LogEntry) (b : LogCharts.Bucket) :
  In b (LogCharts.volumeData logs) ->
  0 <= LogCharts.errors b <= LogCharts.count b.
Proof.
  intros Hb.
  destruct (volumeData_buckets logs) as (keys & _ & _ & Hperm).
  apply (Permutation_in _ Hperm) in Hb. apply in_map_iff in Hb.
  destruct Hb as (k & <- & _). simpl. apply tally_bounds.
Qed.

(** The theorem on the buckets of the sample dataset. *)
Lemma bucket_errors_within_count_witness :
  Forall (fun b => 0 <= LogCharts.errors b <= LogCharts.count b)
    (LogCharts.volumeData Samples.dataset)
  /\ map (fun b => (LogCharts.count b, LogCharts.errors b)) (LogCharts.volumeData Samples.dataset)
     = [(2, 1); (1, 1); (1, 0)].
Proof.
  split; [|vm_compute; reflexivity].
  apply Forall_forall. intros b Hb.
  exact (@bucket_errors_within_count Reference.platform Samples.dataset b Hb).
Defined.

(* ------------------------------------------------------------------ *)
(** ** The bucket width *)

Lemma last_cons (A : Type) (x d : A) (l : list A) : last (x :: l) d = last l x.
Proof.
  revert x d. induction l as [|y l IH]; intros x d; [reflexivity|].
  change (last (x :: y :: l) d) with (last (y :: l) d). rewrite (IH y d), (IH y x).
  reflexivity.
Qed.

Lemma fold_max_bounds (t : Z) (rest : list Z) :
  In (fold_right Z.max t rest) (t :: rest)
  /\ (forall u, In u (t :: rest) -> u <= fold_right Z.max t rest).
Proof.
  induction rest as [|v rest [IHin IHle]]; simpl.
  - split; [left; reflexivity | intros u [<-|[]]; lia].
  - split.
    + destruct (Z.max_spec v (fold_right Z.max t rest)) as [[_ ->]|[_ ->]].
      * destruct IHin as [<-|Hin]; [left; reflexivity | right; right; exact Hin].
      * right. left. reflexivity.
    + intros u [<-|[<-|Hu]].
      * specialize (IHle t (or_introl eq_refl)). lia.
      * lia.
      * specialize (IHle u (or_intror Hu)). lia.
Qed.

Lemma fold_min_bounds (t : Z) (rest : list Z) :
  In (fold_right Z.min t rest) (t :: rest)
  /\ (forall u, In u (t :: rest) -> fold_right Z.min t rest <= u).
Proof.
  induction rest as [|v rest [IHin IHle]]; simpl.
  - split; [left; reflexivity | intros u [<-|[]]; lia].
  - split.
    + destruct (Z.min_spec v (fold_right Z.min t rest)) as [[_ ->]|[_ ->]].
      * right. left. reflexivity.
      * destruct IHin as [<-|Hin]; [left; reflexivity | right; right; exact Hin].
    + intros u [<-|[<-|Hu]].
      * specialize (IHle t (or_introl eq_refl)). lia.
      * lia.
      * specialize (IHle u (or_intror Hu)). lia.
Qed.

(** In a sorted list the first element is the least and the last one the
    greatest. *)
Lemma sorted_ends (t : Z) (rest : list Z) :
  Sorted Z.le (t :: rest) ->
  In (last rest t) (t :: rest)
  /\ (forall u, In u (t :: rest) -> t <= u <= last rest t).
Proof.
  intros Hs. apply Sorted_StronglySorted in Hs; [|intros a b c; apply Z.le_trans].
  revert t Hs. induction rest as [|v rest IH]; intros t Hs.
  - simpl. split; [left; reflexivity | intros u [<-|[]]; lia].
  - inversion Hs as [|? ? Hrest Hall]; subst.
    destruct (IH v Hrest) as [Hin Hle].
    assert (Htv : t <= v) by (inversion Hall; assumption).
    rewrite last_cons. split; [right; exact Hin|].
    intros u [<-|Hu].
    + specialize (Hle v (or_introl eq_refl)). lia.
    + specialize (Hle u Hu). lia.
Qed.

Lemma span_of_sorted (t : Z) (rest : list Z) :
  Sorted Z.le (t :: rest) ->
  maxOf (t :: rest) - minOf (t :: rest) = last rest t - t.
Proof.
  intros Hs. destruct (sorted_ends Hs) as [Hin Hle].
  destruct (fold_max_bounds t rest) as [Hmaxin Hmax].
  destruct (fold_min_bounds t rest) as [Hminin Hmin].
  simpl maxOf. simpl minOf.
  specialize (Hle _ Hmaxin) as Hle1. specialize (Hle _ Hminin) as Hle2.
  specialize (Hmax _ Hin) as Hmax1. specialize (Hmin t (or_introl eq_refl)) as Hmin1.
  lia.
Qed.

Section WidthFacts.
Context `{Platform}.

Lemma times_valid (logs : list LogEntry) :
  Forall hasTime logs -> map getTime logs = map Some (timesOf logs).
Proof.
  unfold hasTime, NaN. induction 1 as [|e rest He _ IH]; simpl; [reflexivity|].
  destruct (getTime e) as [t|] eqn:Et; [|congruence]. simpl. rewrite <- IH. reflexivity.
Qed.

Lemma times_sorted (logs : list LogEntry) :
  Forall hasTime logs -> Sorted timeLe logs -> Sorted Z.le (timesOf logs).
Proof.
  unfold hasTime, NaN. intros Hvalid Hsorted.
  induction Hsorted as [|e rest Hrest IH Hhd]; simpl; [constructor|].
  inversion Hvalid as [|? ? He Hvrest]; subst.
  destruct (getTime e) as [t|] eqn:Et; [|congruence]. simpl.
  constructor; [apply IH, Hvrest|].
  destruct Hhd as [|e' rest' Hle]; simpl; [constructor|].
  inversion Hvrest as [|? ? He' _]; subst.
  unfold timeLe in Hle. rewrite Et in Hle.
  destruct (getTime e') as [t'|]; [|congruence]. simpl in *.
  constructor. apply Z.leb_le. exact Hle.
Qed.

Lemma last_times (logs : list LogEntry) (first : LogEntry) (t : Z) :
  Forall hasTime logs -> getTime first = Some t ->
  getTime (last logs first) = Some (last (timesOf logs) t).
Proof.
  unfold hasTime, NaN. intros Hvalid. revert first t.
  induction Hvalid as [|e rest He _ IH]; intros first t Hfirst; [exact Hfirst|].
  destruct (getTime e) as [u|] eqn:Eu; [|congruence].
  rewrite last_cons, (IH e u Eu). simpl timesOf. rewrite Eu. simpl app.
  rewrite last_cons. reflexivity.
Qed.

(** On a dataset in timestamp order the duration measured between the
    first and the last entry is the total span. *)
Lemma durationMs_span (logs : list LogEntry) :
  logs <> [] -> Forall hasTime logs -> Sorted timeLe logs ->
  LogCharts.durationMs logs = Some (spanOf logs).
Proof.
  intros Hne Hvalid Hsorted.
  pose proof (times_sorted Hvalid Hsorted) as Hts.
  destruct logs as [|first rest]; [congruence|].
  unfold LogCharts.durationMs, spanOf.
  inversion Hvalid as [|? ? Hfirst Hrest]; subst. unfold hasTime, NaN in Hfirst.
  destruct (getTime first) as [t|] eqn:Et; [|congruence].
  rewrite (@last_times (first :: rest) first t Hvalid Et).
  simpl timesOf in *. rewrite Et in *. simpl app in *.
  rewrite (span_of_sorted Hts), last_cons. reflexivity.
Qed.

End WidthFacts.

(** C6, as amended. On a non-empty dataset whose entries all have an
    [eventTimestamp] that reads as a datetime and that is in timestamp
    order, with [D = max(timestamp) - min(timestamp)] its total span in
    milliseconds,
    the bucket width is 1,000 ms exactly when [D < 300,000], 10,000 ms
    exactly when [300,000 <= D < 3,600,000], and 60,000 ms exactly when
    [3,600,000 <= D]; every bucket of the timeline has this one width. *)
Theorem bucket_width_from_span `{Platform} (logs : list LogEntry) :
  logs <> [] -> Forall hasTime logs -> Sorted timeLe logs ->
  let D := spanOf logs in
  let width := widthOf logs in
  (width = 1000 <-> D < 300000)
  /\ (width = 10000 <-> 300000 <= D < 3600000)
  /\ (width = 60000 <-> 3600000 <= D)
  /\ (forall b, In b (LogCharts.volumeData logs) ->
        LogCharts.endTime b = nadd (LogCharts.timestamp b) width).
Proof.
  intros Hne Hvalid Hsorted D width.
  assert (Hwidth : width = LogCharts.bucketSizeMs (Some D))
    by (subst width D; unfold widthOf; rewrite (durationMs_span Hne Hvalid Hsorted); reflexivity).
  split; [|split; [|split]].
  - rewrite Hwidth. unfold LogCharts.bucketSizeMs. simpl.
    destruct (D <? 300000) eqn:E1; [apply Z.ltb_lt in E1; split; [intros _; exact E1 | reflexivity]|].
    apply Z.ltb_ge in E1. destruct (D <? 3600000); split; (discriminate || lia).
  - rewrite Hwidth. unfold LogCharts.bucketSizeMs. simpl.
    destruct (D <? 300000) eqn:E1; [apply Z.ltb_lt in E1; split; [discriminate | lia]|].
    apply Z.ltb_ge in E1.
    destruct (D <? 3600000) eqn:E2;
      [apply Z.ltb_lt in E2; split; [lia | reflexivity]
      |apply Z.ltb_ge in E2; split; [discriminate | lia]].
  - rewrite Hwidth. unfold LogCharts.bucketSizeMs. simpl.
    destruct (D <? 300000) eqn:E1; [apply Z.ltb_lt in E1; split; [discriminate | lia]|].
    destruct (D <? 3600000) eqn:E2;
      [apply Z.ltb_lt in E2; split; [discriminate | lia]
      |apply Z.ltb_ge in E2; split; [intros _; exact E2 | reflexivity]].
  - intros b Hb. destruct (volumeData_buckets logs) as (keys & _ & _ & Hperm).
    apply (Permutation_in _ Hperm) in Hb. apply in_map_iff in Hb.
    destruct Hb as (k & <- & _). reflexivity.
Qed.

(** The theorem on the sample dataset, which spans three seconds. *)
Lemma bucket_width_from_span_witness :
  spanOf Samples.dataset = 3000 /\ widthOf Samples.dataset = 1000.
Proof.
  assert (Hne : Samples.dataset <> []) by discriminate.
  assert (Hvalid : Forall hasTime Samples.dataset)
    by (repeat constructor; vm_compute; discriminate).
  assert (Hsorted : Sorted timeLe Samples.dataset)
    by (repeat constructor; vm_compute; reflexivity).
  destruct (@bucket_width_from_span Reference.platform Samples.dataset Hne Hvalid Hsorted)
    as (Hsecond & _).
  split; [vm_compute; reflexivity|].
  apply Hsecond. vm_compute. reflexivity.
Defined.

(** C6, as stated, fails: a record whose timestamp is not a date is
    accepted and published. When it stands first, before two entries two
    seconds apart, the width is 60,000 ms although the timestamps span
    2,000 ms. With a single dated entry beside it the timestamps span
    nothing and the width is 60,000 ms in either order of the two entries,
    so the failure does not depend on where the sort leaves the record. *)
Lemma bucket_width_from_span_counterexample :
  (exists logs name,
     ingest (H := Reference.platform) [Samples.staleClockLog] = Some (logs, name)
     /\ logs = [ Samples.entry "not-a-date" "Agent" "Info" "clock lost";
                 Samples.entry "2024-01-01T00:00:00Z" "Agent" "Info" "clock back";
                 Samples.entry "2024-01-01T00:00:02Z" "Agent" "Info" "still there" ]
     /\ timesOf (H := Reference.platform) logs = [1704067200000; 1704067202000]
     /\ spanOf (H := Reference.platform) logs = 2000
     /\ widthOf (H := Reference.platform) logs = 60000)
  /\ (exists logs name,
        ingest (H := Reference.platform) [Samples.brokenClockLog] = Some (logs, name)
        /\ forall arranged,
             Permutation logs arranged ->
             spanOf (H := Reference.platform) arranged = 0
             /\ widthOf (H := Reference.platform) arranged = 60000).
Proof.
  split.
  - eexists. eexists. split; [vm_compute; reflexivity|].
    split; [reflexivity|]. split; [vm_compute; reflexivity|].
    split; vm_compute; reflexivity.
  - eexists. eexists. split; [vm_compute; reflexivity|].
    intros arranged Hperm.
    apply Permutation_length_2_inv in Hperm.
    destruct Hperm as [->| ->]; split; vm_compute; reflexivity.
Qed.

(** The theorem of the bucket tallies on the sample dataset. *)
Lemma buckets_count_every_entry_once_witness :
  totalCount (LogCharts.volumeData Samples.dataset) = 4
  /\ map LogCharts.timestamp (LogCharts.volumeData Samples.dataset)
     = [Some 1704067200000; Some 1704067202000; Some 1704067203000].
Proof.
  destruct (@buckets_count_every_entry_once Reference.platform Samples.dataset)
    as (Htotal & _).
  split; [exact Htotal | vm_compute; reflexivity].
Defined.

(* ------------------------------------------------------------------ *)
(** ** The metric downsampler *)

Lemma Subsequence_refl (A : Type) (l : list A) : Subsequence l l.
Proof. induction l; constructor; assumption. Qed.

Lemma Subsequence_trans (A : Type) (l1 l2 l3 : list A) :
  Subsequence l1 l2 -> Subsequence l2 l3 -> Subsequence l1 l3.
Proof.
  intros H12 H23. revert l1 H12.
  induction H23 as [|x l2 l3 _ IH|x l2 l3 _ IH]; intros l1 H12.
  - exact H12.
  - inversion H12; subst; constructor; apply IH; assumption.
  - constructor. apply IH, H12.
Qed.

Lemma everyNth_Subsequence (A : Type) (step i : nat) (l : list A) :
  Subsequence (LogCharts.everyNth step i l) l.
Proof.
  revert i. induction l as [|x rest IH]; intros i; simpl; [constructor|].
  destruct (i mod step =? 0)%nat; constructor; apply IH.
Qed.

(** The recursion of [everyNth] selects by index. *)
Lemma everyNth_indices (A : Type) (step i : nat) (l : list A) :
  LogCharts.everyNth step i l
  = map snd
      (filter (fun ix => (fst ix mod step =? 0)%nat) (combine (seq i (List.length l)) l)).
Proof.
  revert i. induction l as [|x rest IH]; intros i; simpl; [reflexivity|].
  rewrite IH. destruct (i mod step =? 0)%nat; reflexivity.
Qed.

(** From an index [i] that is [c] short of a multiple of [step], the kept
    elements, one per [step], fit in the list. *)
Lemma everyNth_length (A : Type) (step : nat) (l : list A) (i c : nat) :
  (c < step)%nat -> (exists q, i + c = q * step)%nat ->
  (List.length (LogCharts.everyNth step i l) * step + c <= List.length l + (step - 1))%nat.
Proof.
  revert i c. induction l as [|x rest IH]; intros i c Hc [q Hq]; simpl; [lia|].
  destruct (i mod step =? 0)%nat eqn:Emod.
  - apply Nat.eqb_eq, Nat.Div0.mod_divides in Emod. destruct Emod as [q' Hq'].
    assert (c = 0)%nat.
    { destruct (Nat.le_gt_cases q q') as [Hle|Hgt].
      - pose proof (Nat.mul_le_mono_r q q' step Hle). lia.
      - pose proof (Nat.mul_le_mono_r (S q') q step Hgt). lia. }
    subst c.
    assert (Hnext : (exists q0, S i + (step - 1) = q0 * step)%nat) by (exists (S q); lia).
    specialize (IH (S i) (step - 1)%nat ltac:(lia) Hnext). simpl. lia.
  - apply Nat.eqb_neq in Emod.
    destruct c as [|c'].
    + exfalso. apply Emod. apply Nat.Div0.mod_divides. exists q. lia.
    + assert (Hnext : (exists q0, S i + c' = q0 * step)%nat) by (exists q; lia).
      specialize (IH (S i) c' ltac:(lia) Hnext). lia.
Qed.

Lemma ceilDiv_covers (n : nat) : (n <= 500 * LogCharts.ceilDiv n 500)%nat.
Proof.
  unfold LogCharts.ceilDiv.
  pose proof (Nat.div_mod_eq (n + 500 - 1) 500) as Hdm.
  pose proof (Nat.mod_upper_bound (n + 500 - 1) 500 ltac:(lia)) as Hlt.
  lia.
Qed.

(** C8. With [N] the number of entries that carry performance data, the
    downsampler keeps exactly the selected entries whose index among the
    selected ones is divisible by [ceil(N / 500)]: the first selected entry
    is kept, the output has at most 500 points, one per kept entry, and the
    kept entries are a subsequence of the input. *)
Theorem metric_downsampler_stride `{Platform} (logs : list LogEntry) :
  let selected := LogCharts.perfLogs logs in
  let N := List.length selected in
  let step := LogCharts.ceilDiv N 500 in
  LogCharts.sampled logs = atStride step selected
  /\ (forall first rest, selected = first :: rest ->
        exists others, LogCharts.sampled logs = first :: others)
  /\ LogCharts.perfData logs = map LogCharts.toMetricPoint (LogCharts.sampled logs)
  /\ (List.length (LogCharts.perfData logs) <= 500)%nat
  /\ Subsequence (LogCharts.sampled logs) logs.
Proof.
  intros selected N step.
  assert (Hsampled : LogCharts.sampled logs = LogCharts.everyNth step 0 selected).
  { unfold LogCharts.sampled. fold selected. subst step N.
    destruct selected as [|first rest]; reflexivity. }
  split; [|split; [|split; [|split]]].
  - rewrite Hsampled. apply everyNth_indices.
  - intros first rest Hsel. rewrite Hsampled, Hsel. simpl.
    rewrite Nat.Div0.mod_0_l. simpl. eexists. reflexivity.
  - reflexivity.
  - unfold LogCharts.perfData. rewrite length_map, Hsampled.
    pose proof (ceilDiv_covers N) as Hc. change (LogCharts.ceilDiv N 500) with step in Hc.
    destruct (Nat.eq_dec N 0) as [HN|HN].
    + assert (Hnil : selected = []) by (apply length_zero_iff_nil; exact HN).
      rewrite Hnil. simpl. lia.
    + assert (Hpos : (0 < step)%nat) by lia.
      pose proof (@everyNth_length _ step selected 0%nat 0%nat Hpos
                    (ex_intro _ 0%nat eq_refl)) as Hlen.
      change (List.length selected) with N in Hlen. nia.
  - rewrite Hsampled. eapply Subsequence_trans; [apply everyNth_Subsequence|].
    apply filter_Subsequence.
Qed.

(** The theorem on a series of 1001 records with counters between two
    records without: the stride is 3 and 334 points are plotted. *)
Lemma metric_downsampler_stride_witness :
  let logs := (Samples.silent :: Samples.perfSeries 1001 ++ [Samples.silent])%list in
  List.length (LogCharts.perfLogs logs) = 1001%nat
  /\ LogCharts.ceilDiv 1001 500 = 3%nat
  /\ List.length (LogCharts.perfData logs) = 334%nat
  /\ (List.length (LogCharts.perfData logs) <= 500)%nat
  /\ Subsequence (LogCharts.sampled logs) logs.
Proof.
  intros logs.
  destruct (@metric_downsampler_stride Reference.platform logs) as (_ & _ & _ & Hbound & Hsub).
  split; [vm_compute; reflexivity|]. split; [vm_compute; reflexivity|].
  split; [vm_compute; reflexivity|]. split; [exact Hbound | exact Hsub].
Defined.

(* ------------------------------------------------------------------ *)
(** ** Pagination *)

Lemma totalPages_bounds (l : list LogEntry) :
  let n := Z.of_nat (List.length l) in
  0 <= LogTable.totalPages l /\ n <= 50 * LogTable.totalPages l < n + 50.
Proof.
  unfold LogTable.totalPages, LogTable.ROWS_PER_PAGE. cbv zeta.
  pose proof (Z.div_mod (Z.of_nat (List.length l) + 50 - 1) 50 ltac:(lia)) as Hdm.
  pose proof (Z.mod_pos_bound (Z.of_nat (List.length l) + 50 - 1) 50 ltac:(lia)) as Hmod.
  lia.
Qed.

(** A page from 1 on is the window of 50 entries at its offset. *)
Lemma paginatedLogs_window (l : list LogEntry) (page : Z) :
  1 <= page ->
  LogTable.paginatedLogs l page = firstn 50 (skipn (Z.to_nat ((page - 1) * 50)) l).
Proof.
  intros Hpage. unfold LogTable.paginatedLogs, slice, LogTable.ROWS_PER_PAGE. cbv zeta.
  set (len := Z.of_nat (List.length l)).
  destruct ((page - 1) * 50 <? 0) eqn:Es; [apply Z.ltb_lt in Es; lia|].
  destruct (page * 50 <? 0) eqn:Ee; [apply Z.ltb_lt in Ee; lia|].
  destruct (Z.le_gt_cases len ((page - 1) * 50)) as [Hout|Hin].
  - rewrite (Z.min_r _ _ Hout).
    rewrite !skipn_all2 by (subst len; lia). rewrite !firstn_nil. reflexivity.
  - rewrite (Z.min_l ((page - 1) * 50) len) by lia.
    set (rest := skipn (Z.to_nat ((page - 1) * 50)) l).
    assert (Hrest : Z.of_nat (List.length rest) = len - (page - 1) * 50)
      by (subst rest len; rewrite length_skipn; lia).
    destruct (Z.le_gt_cases (page * 50) len) as [Hfull|Hpart].
    + rewrite (Z.min_l _ _ Hfull). f_equal. lia.
    + rewrite (Z.min_r (page * 50) len) by lia.
      rewrite !firstn_all2; [reflexivity | lia | lia].
Qed.

Lemma paginatedLogs_length (l : list LogEntry) (page : Z) :
  1 <= page ->
  Z.of_nat (List.length (LogTable.paginatedLogs l page))
  = Z.min 50 (Z.max 0 (Z.of_nat (List.length l) - (page - 1) * 50)).
Proof.
  intros Hpage. rewrite (paginatedLogs_window l Hpage), length_firstn, length_skipn. lia.
Qed.

Lemma windows_concat (n : nat) (l : list LogEntry) :
  (List.length l <= 50 * n)%nat ->
  List.concat (map (fun i => firstn 50 (skipn (50 * i) l)) (seq 0 n)) = l.
Proof.
  revert l. induction n as [|n IH]; intros l Hlen.
  - destruct l; [reflexivity | simpl in Hlen; lia].
  - rewrite <- cons_seq, <- seq_shift, map_cons, map_map, concat_cons.
    rewrite (map_ext (fun i => firstn 50 (skipn (50 * S i) l))
               (fun i => firstn 50 (skipn (50 * i) (skipn 50 l)))).
    + rewrite IH by (rewrite length_skipn; lia).
      rewrite Nat.mul_0_r. apply (firstn_skipn 50 l).
    + intros i. rewrite skipn_skipn. do 2 f_equal. lia.
Qed.

(** X1. The pages from 1 to [totalPages], one after the other, are the
    filtered entries: none is lost, repeated or moved. *)
Theorem pages_cover_filtered_logs (filtered : list LogEntry) :
  List.concat (map (LogTable.paginatedLogs filtered) (pageNumbers filtered)) = filtered.
Proof.
  unfold pageNumbers. destruct (totalPages_bounds filtered) as [Hpos [Hlow _]].
  rewrite <- seq_shift, !map_map.
  rewrite (map_ext _ (fun i => firstn 50 (skipn (50 * i) filtered))).
  - apply windows_concat. lia.
  - intros i. rewrite paginatedLogs_window by lia. do 2 f_equal. lia.
Qed.

(** X2. A page between 1 and [totalPages] holds at least one and at most
    50 entries, every page before the last holds exactly 50, and a page
    after the last is empty. *)
Theorem page_sizes (filtered : list LogEntry) (page : Z) :
  1 <= page ->
  let size := Z.of_nat (List.length (LogTable.paginatedLogs filtered page)) in
  (page <= LogTable.totalPages filtered -> 1 <= size <= 50)
  /\ (page < LogTable.totalPages filtered -> size = 50)
  /\ (LogTable.totalPages filtered < page -> LogTable.paginatedLogs filtered page = []).
Proof.
  intros Hpage size. subst size. rewrite (paginatedLogs_length filtered Hpage).
  destruct (totalPages_bounds filtered) as [Hpos [Hlow Hhigh]].
  split; [|split]; intros Hrange; try lia.
  apply length_zero_iff_nil. apply Nat2Z.inj.
  rewrite (paginatedLogs_length filtered Hpage). lia.
Qed.

(** The theorem on 120 entries: three pages of 50, 50 and 20. *)
Lemma page_sizes_witness :
  LogTable.totalPages (Samples.perfSeries 120) = 3
  /\ Z.of_nat (List.length (LogTable.paginatedLogs (Samples.perfSeries 120) 2)) = 50
  /\ LogTable.paginatedLogs (Samples.perfSeries 120) 4 = []
  /\ map (fun page => List.length (LogTable.paginatedLogs (Samples.perfSeries 120) page))
       [1; 2; 3; 4]
     = [50; 50; 20; 0]%nat.
Proof.
  split; [reflexivity|].
  pose proof (@page_sizes (Samples.perfSeries 120) 2 ltac:(lia)) as (_ & Hfull & _).
  pose proof (@page_sizes (Samples.perfSeries 120) 4 ltac:(lia)) as (_ & _ & Hpast).
  split; [apply Hfull; vm_compute; reflexivity|].
  split; [apply Hpast; vm_compute; reflexivity|].
  vm_compute. reflexivity.
Defined.

(** X3. Whatever page buttons are pressed from page 1, the current page
    stays between 1 and the number of pages shown, and it is never an empty
    page while there are filtered entries. *)
Theorem page_buttons_stay_in_range (filtered : list LogEntry) (buttons : list PageButton) :
  let currentPage := fold_left (press filtered) buttons 1 in
  1 <= currentPage <= LogTable.shownPages filtered
  /\ (filtered <> [] -> LogTable.paginatedLogs filtered currentPage <> []).
Proof.
  cbv zeta.
  assert (Hinv : forall page, 1 <= page <= LogTable.shownPages filtered ->
                   1 <= fold_left (press filtered) buttons page <= LogTable.shownPages filtered).
  { induction buttons as [|b rest IH]; intros page Hpage; [exact Hpage|].
    simpl. apply IH. unfold LogTable.shownPages in *.
    destruct b; simpl; unfold LogTable.previousPage, LogTable.nextPage, LogTable.handlePageChange.
    - destruct (page =? 1); [exact Hpage|].
      destruct ((1 <=? page - 1) && (page - 1 <=? LogTable.totalPages filtered)) eqn:Eok;
        [|exact Hpage].
      apply andb_true_iff in Eok. destruct Eok as [E1 E2].
      apply Z.leb_le in E1, E2.
      destruct (LogTable.totalPages filtered =? 0) eqn:E0;
        [apply Z.eqb_eq in E0 | apply Z.eqb_neq in E0]; lia.
    - destruct ((page =? LogTable.totalPages filtered)
                || (LogTable.totalPages filtered =? 0)); [exact Hpage|].
      destruct ((1 <=? page + 1) && (page + 1 <=? LogTable.totalPages filtered)) eqn:Eok;
        [|exact Hpage].
      apply andb_true_iff in Eok. destruct Eok as [E1 E2].
      apply Z.leb_le in E1, E2.
      destruct (LogTable.totalPages filtered =? 0) eqn:E0;
        [apply Z.eqb_eq in E0 | apply Z.eqb_neq in E0]; lia. }
  assert (Hstart : 1 <= 1 <= LogTable.shownPages filtered).
  { unfold LogTable.shownPages. destruct (totalPages_bounds filtered) as [Hpos _].
    destruct (LogTable.totalPages filtered =? 0) eqn:E0; [lia|]. apply Z.eqb_neq in E0. lia. }
  specialize (Hinv 1 Hstart). split; [exact Hinv|].
  intros Hne Hnil. apply (f_equal (@List.length _)) in Hnil. apply (f_equal Z.of_nat) in Hnil.
  rewrite paginatedLogs_length in Hnil by lia.
  destruct (totalPages_bounds filtered) as [Hpos [Hlow Hhigh]].
  assert (Hlen : 0 < Z.of_nat (List.length filtered))
    by (destruct filtered; [congruence | simpl List.length; lia]).
  unfold LogTable.shownPages in Hinv.
  destruct (LogTable.totalPages filtered =? 0) eqn:E0;
    [apply Z.eqb_eq in E0 | apply Z.eqb_neq in E0]; simpl in Hnil; lia.
Qed.

(** The theorem on 120 entries: three presses of Next and one of Previous
    lead to page 2. *)
Lemma page_buttons_stay_in_range_witness :
  fold_left (press (Samples.perfSeries 120)) [Next; Next; Next; Previous] 1 = 2
  /\ LogTable.paginatedLogs (Samples.perfSeries 120)
       (fold_left (press (Samples.perfSeries 120)) [Next; Next; Next; Previous] 1) <> [].
Proof.
  split; [vm_compute; reflexivity|].
  apply (@page_buttons_stay_in_range (Samples.perfSeries 120) [Next; Next; Next; Previous]).
  discriminate.
Defined.

(** X4. For a page between 1 and [totalPages], the footer's range
    [Showing from to to] starts one past the entries of the earlier pages,
    spans exactly the entries of the page, and the page holds the filtered
    entries at these positions. *)
Theorem showing_range_matches_page (filtered : list LogEntry) (page : Z) :
  1 <= page <= LogTable.totalPages filtered ->
  let from := LogTable.showingFrom filtered page in
  let to := LogTable.showingTo filtered page in
  from = (page - 1) * 50 + 1
  /\ to - from + 1 = Z.of_nat (List.length (LogTable.paginatedLogs filtered page))
  /\ (forall i, (i < List.length (LogTable.paginatedLogs filtered page))%nat ->
        nth_error (LogTable.paginatedLogs filtered page) i
        = nth_error filtered (Z.to_nat (from - 1) + i)).
Proof.
  intros [Hlow Hhigh]. cbv zeta.
  assert (Hsize : 1 <= Z.of_nat (List.length (LogTable.paginatedLogs filtered page)) <= 50).
  { rewrite (paginatedLogs_length filtered Hlow).
    destruct (totalPages_bounds filtered) as [Hpos [Hfirst Hlast]]. lia. }
  pose proof (paginatedLogs_length filtered Hlow) as Hlen.
  assert (Hfrom : LogTable.showingFrom filtered page = (page - 1) * 50 + 1).
  { unfold LogTable.showingFrom, LogTable.ROWS_PER_PAGE.
    destruct (0 <? List.length (LogTable.paginatedLogs filtered page))%nat eqn:Epos;
      [reflexivity|]. apply Nat.ltb_ge in Epos. lia. }
  rewrite Hfrom. split; [reflexivity|]. split.
  - unfold LogTable.showingTo, LogTable.ROWS_PER_PAGE. lia.
  - intros i Hi. rewrite (paginatedLogs_window filtered Hlow) in *.
    rewrite nth_error_firstn.
    destruct (i <? 50)%nat eqn:Ei; [|apply Nat.ltb_ge in Ei; rewrite length_firstn in Hi; lia].
    rewrite nth_error_skipn. f_equal. lia.
Qed.

(** The theorem on the last page of 120 entries: it shows 101 to 120. *)
Lemma showing_range_matches_page_witness :
  LogTable.showingFrom (Samples.perfSeries 120) 3 = 101
  /\ LogTable.showingTo (Samples.perfSeries 120) 3 = 120.
Proof.
  destruct (@showing_range_matches_page (Samples.perfSeries 120) 3) as (Hfrom & _ & _);
    [vm_compute; split; discriminate|].
  split; [exact Hfrom | vm_compute; reflexivity].
Defined.

(** X5. On a current page that is more than one past the last page, the
    table shows no rows and neither the previous nor the next button
    changes the page. *)
Theorem stale_page_is_stuck (filtered : list LogEntry) (page : Z) :
  LogTable.totalPages filtered + 1 < page ->
  LogTable.paginatedLogs filtered page = []
  /\ LogTable.previousPage filtered page = page
  /\ LogTable.nextPage filtered page = page.
Proof.
  intros Hstale. destruct (totalPages_bounds filtered) as [Hpos _].
  split; [|split].
  - assert (Hpage : 1 <= page) by lia.
    destruct (totalPages_bounds filtered) as [_ [Hfirst Hlast]].
    apply length_zero_iff_nil, Nat2Z.inj.
    rewrite (paginatedLogs_length filtered Hpage). lia.
  - unfold LogTable.previousPage, LogTable.handlePageChange.
    destruct (page =? 1); [reflexivity|].
    destruct (page - 1 <=? LogTable.totalPages filtered) eqn:E; [apply Z.leb_le in E; lia|].
    rewrite andb_false_r. reflexivity.
  - unfold LogTable.nextPage, LogTable.handlePageChange.
    destruct ((page =? LogTable.totalPages filtered) || (LogTable.totalPages filtered =? 0));
      [reflexivity|].
    destruct (page + 1 <=? LogTable.totalPages filtered) eqn:E; [apply Z.leb_le in E; lia|].
    rewrite andb_false_r. reflexivity.
Qed.

(** The theorem on page 3 over 20 entries, a page that the buttons reach
    over 120 entries: it shows nothing and cannot be left with the
    buttons. *)
Lemma stale_page_is_stuck_witness :
  fold_left (press (Samples.perfSeries 120)) [Next; Next] 1 = 3
  /\ LogTable.paginatedLogs (Samples.perfSeries 20) 3 = []
  /\ fold_left (press (Samples.perfSeries 20)) [Previous; Next; Previous] 3 = 3.
Proof.
  destruct (@stale_page_is_stuck (Samples.perfSeries 20) 3) as (Hempty & Hprev & Hnext);
    [vm_compute; reflexivity|].
  split; [vm_compute; reflexivity|]. split; [exact Hempty|].
  simpl. rewrite Hprev, Hnext, Hprev. reflexivity.
Defined.

(* ------------------------------------------------------------------ *)
(** ** Order of the timeline and the brush *)

Lemma widthOf_pos `{Platform} (logs : list LogEntry) : 0 < widthOf logs.
Proof.
  unfold widthOf, LogCharts.bucketSizeMs.
  destruct (nlt _ _); [lia|]. destruct (nlt _ _); lia.
Qed.

Lemma volumeData_unfold `{Platform} (logs : list LogEntry) :
  logs <> [] ->
  LogCharts.volumeData logs
  = arraySort (fun a b => nsub (LogCharts.timestamp a) (LogCharts.timestamp b))
      (LogCharts.objectValues (fold_left (LogCharts.addLog (widthOf logs)) logs [])).
Proof. destruct logs; [congruence | reflexivity]. Qed.

(** With dated entries, every bucket is the bucket of a multiple of the
    width. *)
Lemma volumeData_starts `{Platform} (logs : list LogEntry) (b : LogCharts.Bucket) :
  Forall hasTime logs -> In b (LogCharts.volumeData logs) ->
  exists q, b = bucketOf (widthOf logs) logs (Some (q * widthOf logs)).
Proof.
  intros Hvalid Hb. destruct (volumeData_buckets logs) as (keys & _ & Hdom & Hperm).
  apply (Permutation_in _ Hperm) in Hb. apply in_map_iff in Hb.
  destruct Hb as (k & <- & Hk). apply Hdom in Hk. apply in_map_iff in Hk.
  destruct Hk as (e & <- & He).
  pose proof (proj1 (Forall_forall _ _) Hvalid e He) as Ht. unfold hasTime, NaN in Ht.
  unfold keyOf. destruct (getTime e) as [t|]; [|congruence].
  exists (t / widthOf logs). reflexivity.
Qed.

Lemma Sorted_refine (A : Type) (R R' : A -> A -> Prop) (l : list A) :
  (forall a b, In a l -> In b l -> R a b -> R' a b \/ a = b) ->
  NoDup l -> Sorted R l -> Sorted R' l.
Proof.
  intros Hstep Hnd Hs. induction Hs as [|a rest Hrest IH Hhd]; [constructor|].
  inversion Hnd as [|? ? Hfresh Hnd']; subst.
  constructor.
  - apply IH; [|exact Hnd']. intros x y Hx Hy. apply Hstep; right; assumption.
  - destruct Hhd as [|b rest' Hab]; constructor.
    destruct (Hstep a b (or_introl eq_refl) (or_intror (or_introl eq_refl)) Hab) as [H'|Heq];
      [exact H'|]. exfalso. apply Hfresh. left. symmetry. exact Heq.
Qed.

Lemma EndsBefore_trans (w : Z) (a b c : LogCharts.Bucket) :
  0 < w -> EndsBefore w a b -> EndsBefore w b c -> EndsBefore w a c.
Proof.
  intros Hw (x & y & Ha & Hae & Hb & Hxy) (y' & z & Hb' & _ & Hc & Hyz).
  exists x, z. repeat split; try assumption. rewrite Hb in Hb'. injection Hb' as <-. lia.
Qed.

Lemma volumeData_apart `{Platform} (logs : list LogEntry) :
  Forall hasTime logs ->
  Sorted (EndsBefore (widthOf logs)) (LogCharts.volumeData logs).
Proof.
  intros Hvalid.
  destruct logs as [|first rest] eqn:Elogs; [constructor|]. rewrite <- Elogs in *.
  assert (Hne : logs <> []) by (rewrite Elogs; discriminate).
  pose proof (widthOf_pos logs) as Hw.
  assert (Hnd : NoDup (LogCharts.volumeData logs)).
  { apply (NoDup_map_inv LogCharts.timestamp), buckets_distinct. }
  apply (@Sorted_refine _ (keyLe LogCharts.timestamp)); [|exact Hnd|].
  - intros a b Ha Hb Hle.
    destruct (@volumeData_starts _ logs a Hvalid Ha) as [qa ->].
    destruct (@volumeData_starts _ logs b Hvalid Hb) as [qb ->].
    unfold keyLe in Hle. simpl in Hle. apply Z.leb_le in Hle.
    destruct (Z.eq_dec qa qb) as [->|Hneq]; [right; reflexivity|left].
    exists (qa * widthOf logs), (qb * widthOf logs). simpl. repeat split. nia.
  - rewrite (volumeData_unfold Hne). apply arraySort_sorted.
    apply Forall_forall. intros b Hb.
    assert (Hin : In b (LogCharts.volumeData logs))
      by (rewrite (volumeData_unfold Hne); apply arraySort_In; exact Hb).
    destruct (@volumeData_starts _ logs b Hvalid Hin) as [q ->]. simpl. discriminate.
Qed.

(** X6. With dated entries, the timeline lists its buckets by ascending
    start and no two of them overlap: each bucket ends, one width after its
    start, at or before the start of every bucket listed after it. *)
Theorem volumeData_ascending `{Platform} (logs : list LogEntry) :
  Forall hasTime logs ->
  StronglySorted (EndsBefore (widthOf logs)) (LogCharts.volumeData logs).
Proof.
  intros Hvalid. apply Sorted_StronglySorted.
  - intros a b c. apply EndsBefore_trans, widthOf_pos.
  - apply volumeData_apart, Hvalid.
Qed.

(** The theorem on the sample dataset: three buckets of one second. *)
Lemma volumeData_ascending_witness :
  widthOf Samples.dataset = 1000
  /\ StronglySorted (EndsBefore 1000) (LogCharts.volumeData Samples.dataset).
Proof.
  split; [vm_compute; reflexivity|].
  apply (@volumeData_ascending Reference.platform Samples.dataset).
  repeat constructor; vm_compute; discriminate.
Defined.

Lemma findIndexFrom_range (A : Type) (p : A -> bool) (i : Z) (l : list A) :
  findIndexFrom p i l = -1
  \/ i <= findIndexFrom p i l < i + Z.of_nat (List.length l).
Proof.
  revert i. induction l as [|x rest IH]; intros i; simpl; [left; reflexivity|].
  destruct (p x); [right; lia|]. destruct (IH (i + 1)) as [->|Hr]; [left; reflexivity|right; lia].
Qed.

Lemma lastStartingBefore_range (vd : list LogCharts.Bucket) (bound : jsnum) (n : nat)
    (fallback : Z) :
  lastStartingBefore_result_ok n fallback (LogCharts.lastStartingBefore vd bound n fallback).
Proof.
  unfold lastStartingBefore_result_ok.
  induction n as [|i IH]; simpl; [left; reflexivity|].
  destruct (nth_error vd i) as [d|].
  - destruct (nlt (LogCharts.timestamp d) bound); [right; lia|].
    destruct IH as [->|Hr]; [left; reflexivity | right; lia].
  - destruct IH as [->|Hr]; [left; reflexivity | right; lia].
Qed.

(** X7. Whatever the zoom window is, the brush indices computed for a
    timeline with buckets are indices of the timeline, the start index at
    or before the end index. *)
Theorem brush_indices_in_bounds (volumeData : list LogCharts.Bucket)
    (timeRange : option Dashboard.TimeRange) (startIndex endIndex : Z) :
  LogCharts.brushIndices volumeData timeRange = Some (startIndex, endIndex) ->
  0 <= startIndex <= endIndex /\ endIndex < Z.of_nat (List.length volumeData).
Proof.
  unfold LogCharts.brushIndices.
  destruct timeRange as [range|]; [|discriminate].
  destruct volumeData as [|d rest] eqn:Evd; [discriminate|]. rewrite <- Evd.
  assert (Hlen : 0 < Z.of_nat (List.length volumeData)) by (rewrite Evd; simpl List.length; lia).
  cbv zeta.
  set (found := findIndex _ volumeData).
  set (last_ := LogCharts.lastStartingBefore _ _ _ _).
  assert (Hfound : found = -1 \/ 0 <= found < Z.of_nat (List.length volumeData))
    by (subst found; unfold findIndex;
        destruct (findIndexFrom_range (fun d0 => nge (LogCharts.timestamp d0) (Dashboard.start range))
                    0 volumeData) as [E|E]; [left; exact E | right; lia]).
  assert (Hlast : 0 <= last_ < Z.of_nat (List.length volumeData)).
  { subst last_.
    destruct (lastStartingBefore_range volumeData (Dashboard.end_ range)
                (List.length volumeData) (Z.of_nat (List.length volumeData) - 1)) as [->|Hr]; lia. }
  intros [= <- <-].
  destruct (found =? -1) eqn:E1; [|apply Z.eqb_neq in E1].
  - destruct (last_ <? 0) eqn:E2; [apply Z.ltb_lt in E2 | apply Z.ltb_ge in E2]; lia.
  - destruct (last_ <? found) eqn:E2; [apply Z.ltb_lt in E2 | apply Z.ltb_ge in E2]; lia.
Qed.

(** The theorem on the sample timeline and a window that ends before its
    first bucket: no bucket starts before the end of the window, and the
    brush spans the three buckets. *)
Lemma brush_indices_in_bounds_witness :
  exists s e,
    LogCharts.brushIndices (LogCharts.volumeData Samples.dataset)
      (Some {| Dashboard.start := Some 0; Dashboard.end_ := Some 5 |}) = Some (s, e)
    /\ (s, e) = (0, 2)
    /\ 0 <= s <= e
    /\ e < Z.of_nat (List.length (LogCharts.volumeData Samples.dataset)).
Proof.
  exists 0, 2. split; [vm_compute; reflexivity|]. split; [reflexivity|].
  apply (@brush_indices_in_bounds (LogCharts.volumeData Samples.dataset)
           (Some {| Dashboard.start := Some 0; Dashboard.end_ := Some 5 |}) 0 2).
  vm_compute. reflexivity.
Defined.

Lemma StronglySorted_nth (A : Type) (R : A -> A -> Prop) (l : list A) (i j : nat) (a b : A) :
  StronglySorted R l -> (i < j)%nat ->
  nth_error l i = Some a -> nth_error l j = Some b -> R a b.
Proof.
  intros Hs. revert i j. induction Hs as [|x rest Hrest IH Hall]; intros i j Hij Ha Hb.
  - destruct i; discriminate Ha.
  - destruct j as [|j]; [lia|]. destruct i as [|i]; simpl in Ha, Hb.
    + injection Ha as <-. apply (proj1 (Forall_forall _ _) Hall). eapply nth_error_In, Hb.
    + apply (IH i j); [lia | exact Ha | exact Hb].
Qed.

Lemma findIndexFrom_at (A : Type) (p : A -> bool) (l : list A) (s : nat) (i : Z) (a : A) :
  (forall j d, (j < s)%nat -> nth_error l j = Some d -> p d = false) ->
  nth_error l s = Some a -> p a = true ->
  findIndexFrom p i l = i + Z.of_nat s.
Proof.
  revert s i. induction l as [|x rest IH]; intros s i Hbefore Hs Ha.
  - destruct s; discriminate Hs.
  - destruct s as [|s]; simpl in *.
    + injection Hs as ->. rewrite Ha. lia.
    + rewrite (Hbefore 0%nat x ltac:(lia) eq_refl).
      rewrite (IH s (i + 1)); [lia | | exact Hs | exact Ha].
      intros j d Hj Hd. apply (Hbefore (S j) d); [lia | exact Hd].
Qed.

Lemma lastStartingBefore_at (vd : list LogCharts.Bucket) (bound : jsnum) (n e : nat)
    (fallback : Z) (b : LogCharts.Bucket) :
  (e < n)%nat -> nth_error vd e = Some b -> nlt (LogCharts.timestamp b) bound = true ->
  (forall j d, (e < j < n)%nat -> nth_error vd j = Some d ->
               nlt (LogCharts.timestamp d) bound = false) ->
  LogCharts.lastStartingBefore vd bound n fallback = Z.of_nat e.
Proof.
  induction n as [|i IH]; intros He Hb Hlt Hafter; [lia|]. simpl.
  destruct (Nat.eq_dec i e) as [->|Hne].
  - rewrite Hb, Hlt. reflexivity.
  - assert (Hrec : LogCharts.lastStartingBefore vd bound i fallback = Z.of_nat e).
    { apply IH; [lia | exact Hb | exact Hlt|]. intros j d Hj. apply Hafter. lia. }
    destruct (nth_error vd i) as [d|] eqn:Ed; [|exact Hrec].
    rewrite (Hafter i d ltac:(lia) Ed). exact Hrec.
Qed.

Lemma changeTimeRange_bounds (timeRange : option Dashboard.TimeRange) (x y : Z) :
  exists range,
    LogCharts.changeTimeRange timeRange (Some x) (Some y) = Some range
    /\ Dashboard.start range = Some x /\ Dashboard.end_ range = Some y.
Proof.
  unfold LogCharts.changeTimeRange. destruct timeRange as [[from to]|].
  - simpl. destruct (nstrictEq from (Some x) && nstrictEq to (Some y)) eqn:Esame.
    + apply andb_true_iff in Esame. destruct Esame as [E1 E2].
      destruct from as [f|], to as [t|]; simpl in E1, E2; try discriminate.
      apply Z.eqb_eq in E1, E2. subst. eexists. repeat split.
    + eexists. repeat split.
  - eexists. repeat split.
Qed.

(** X8. With dated entries, a selection of the brush from bucket [s] to
    bucket [e] sets the zoom window from the start of the first to the end
    of the last, and the brush indices computed back from that window are
    [s] and [e] again. *)
Theorem brush_round_trip `{Platform} (logs : list LogEntry)
    (timeRange : option Dashboard.TimeRange) (s e : Z) :
  Forall hasTime logs ->
  0 <= s <= e -> e < Z.of_nat (List.length (LogCharts.volumeData logs)) ->
  LogCharts.brushIndices (LogCharts.volumeData logs)
    (LogCharts.handleBrushChange (LogCharts.volumeData logs) timeRange (Some s) (Some e))
  = Some (s, e).
Proof.
  intros Hvalid Hse He.
  pose proof (widthOf_pos logs) as Hw.
  pose proof (volumeData_apart Hvalid) as Hsorted.
  apply Sorted_StronglySorted in Hsorted;
    [|intros a b c; apply EndsBefore_trans; exact Hw].
  set (vd := LogCharts.volumeData logs) in *.
  assert (Hshape : forall d, In d vd ->
            exists x, LogCharts.timestamp d = Some x /\ LogCharts.endTime d = Some (x + widthOf logs)).
  { intros d Hd. destruct (@volumeData_starts _ logs d Hvalid Hd) as [q ->].
    eexists. split; reflexivity. }
  destruct (nth_error vd (Z.to_nat s)) as [a|] eqn:Ea;
    [|apply nth_error_None in Ea; lia].
  destruct (nth_error vd (Z.to_nat e)) as [b|] eqn:Eb;
    [|apply nth_error_None in Eb; lia].
  destruct (Hshape a (nth_error_In _ _ Ea)) as (xa & Hta & _).
  destruct (Hshape b (nth_error_In _ _ Eb)) as (xb & Htb & Heb).
  unfold LogCharts.handleBrushChange, item.
  destruct (s <? 0) eqn:Es; [apply Z.ltb_lt in Es; lia|].
  destruct (e <? 0) eqn:Ee; [apply Z.ltb_lt in Ee; lia|].
  rewrite Ea, Eb, Hta, Heb.
  destruct (changeTimeRange_bounds timeRange xa (xb + widthOf logs)) as (range & -> & Hfrom & Hto).
  unfold LogCharts.brushIndices.
  destruct vd as [|d0 rest] eqn:Evd; [destruct (Z.to_nat s); discriminate Ea|]. rewrite <- Evd in *.
  cbv zeta. rewrite Hfrom, Hto. unfold findIndex.
  rewrite (@findIndexFrom_at _ _ vd (Z.to_nat s) 0 a).
  - rewrite (@lastStartingBefore_at vd (Some (xb + widthOf logs)) (List.length vd)
               (Z.to_nat e) _ b).
    + rewrite !Z2Nat.id by lia. simpl Z.add.
      destruct (s =? -1) eqn:E1; [apply Z.eqb_eq in E1; lia|].
      destruct (e <? s) eqn:E2; [apply Z.ltb_lt in E2; lia|]. reflexivity.
    + lia.
    + exact Eb.
    + rewrite Htb. simpl. apply Z.ltb_lt. lia.
    + intros j d Hj Hd.
      destruct (@StronglySorted_nth _ _ vd (Z.to_nat e) j b d Hsorted ltac:(lia) Eb Hd)
        as (x & y & Hx & _ & Hy & Hxy).
      rewrite Hy. simpl. apply Z.ltb_ge. rewrite Htb in Hx. injection Hx as <-. exact Hxy.
  - intros j d Hj Hd.
    destruct (@StronglySorted_nth _ _ vd j (Z.to_nat s) d a Hsorted Hj Hd Ea)
      as (x & y & Hx & _ & Hy & Hxy).
    rewrite Hx. unfold nge. simpl. apply Z.leb_gt. rewrite Hta in Hy. injection Hy as <-. lia.
  - exact Ea.
  - rewrite Hta. unfold nge. simpl. apply Z.leb_refl.
Qed.

(** The theorem on the sample timeline: the selection of its last two
    buckets comes back. *)
Lemma brush_round_trip_witness :
  LogCharts.handleBrushChange (LogCharts.volumeData Samples.dataset) None (Some 1) (Some 2)
  = Some {| Dashboard.start := Some 1704067202000; Dashboard.end_ := Some 1704067204000 |}
  /\ LogCharts.brushIndices (LogCharts.volumeData Samples.dataset)
       (LogCharts.handleBrushChange (LogCharts.volumeData Samples.dataset) None
          (Some 1) (Some 2))
     = Some (1, 2).
Proof.
  split; [vm_compute; reflexivity|].
  apply (@brush_round_trip Reference.platform Samples.dataset None 1 2).
  - repeat constructor; vm_compute; discriminate.
  - lia.
  - vm_compute. reflexivity.
Defined.

(* ------------------------------------------------------------------ *)
(** ** A click on the timeline *)

Lemma floor_multiple (w q t : Z) :
  0 < w -> (t / w * w =? q * w) = (q * w <=? t) && (t <? q * w + w).
Proof.
  intros Hw.
  pose proof (Z.div_mod t w ltac:(lia)) as Hdm.
  pose proof (Z.mod_pos_bound t w Hw) as Hmod.
  destruct (t / w * w =? q * w) eqn:E1;
    [apply Z.eqb_eq in E1 | apply Z.eqb_neq in E1]; symmetry.
  - apply andb_true_iff. split; [apply Z.leb_le | apply Z.ltb_lt]; nia.
  - apply andb_false_iff.
    destruct (q * w <=? t) eqn:E2; [right | left; reflexivity].
    apply Z.leb_le in E2. apply Z.ltb_ge.
    destruct (Z.lt_ge_cases t (q * w + w)) as [Hlt|Hge]; [|lia].
    exfalso. apply E1. assert (t / w = q); [|subst; reflexivity].
    symmetry. apply (Z.div_unique_pos t w q (t - q * w)); lia.
Qed.

(** A bucket of the timeline that has a start: the start is a multiple of
    the width, and the bucket holds the tallies of that start. *)
Lemma volumeData_started `{Platform} (logs : list LogEntry) (data : LogCharts.Bucket) :
  In data (LogCharts.volumeData logs) -> LogCharts.timestamp data <> NaN ->
  exists q, data = bucketOf (widthOf logs) logs (Some (q * widthOf logs)).
Proof.
  intros Hb Hstart. destruct (volumeData_buckets logs) as (keys & _ & Hdom & Hperm).
  apply (Permutation_in _ Hperm) in Hb. apply in_map_iff in Hb.
  destruct Hb as (k & <- & Hk). apply Hdom in Hk. apply in_map_iff in Hk.
  destruct Hk as (e & <- & He). simpl in Hstart. unfold keyOf in *.
  destruct (getTime e) as [t|]; [|contradiction Hstart; reflexivity].
  exists (t / widthOf logs). reflexivity.
Qed.

(** The window of a click selects the entries that the bucket counted. *)
Lemma bucketLogs_inBucket `{Platform} (logs : list LogEntry) (q : Z) :
  LogCharts.bucketLogs logs (bucketOf (widthOf logs) logs (Some (q * widthOf logs)))
  = filter (inBucket (widthOf logs) (Some (q * widthOf logs))) logs.
Proof.
  unfold LogCharts.bucketLogs. apply filter_ext. intros e. cbv zeta. simpl.
  unfold inBucket, keyOf, nge, nle, nlt, LogCharts.bucketKey.
  destruct (getTime e) as [t|]; simpl; [|reflexivity].
  symmetry. apply floor_multiple, widthOf_pos.
Qed.

Lemma filter_filter_length (p q : LogEntry -> bool) (logs : list LogEntry) :
  Z.of_nat (List.length (filter q (filter p logs))) = tally (fun e => p e && q e) logs.
Proof.
  unfold tally. do 2 f_equal. induction logs as [|e rest IH]; simpl; [reflexivity|].
  destruct (p e); simpl; [destruct (q e); simpl; rewrite IH; reflexivity | exact IH].
Qed.

(** X9. A click on a bucket of the timeline that has a start zooms on the
    bucket and decides from its tallies: the entries it examines are the
    [count] entries of the bucket, of which [errors] are errors; the filter
    becomes the Error level filter when [errors] is positive and the empty
    filter otherwise; and the selected entry changes exactly when [errors]
    is 1, to that one error of the bucket. *)
Theorem chart_click_follows_bucket `{Platform} (logs : list LogEntry)
    (data : LogCharts.Bucket) (st : Dashboard.State) :
  In data (LogCharts.volumeData logs) -> LogCharts.timestamp data <> NaN ->
  let after := LogCharts.handleChartClick logs (Some data) st in
  Z.of_nat (List.length (LogCharts.bucketLogs logs data)) = LogCharts.count data
  /\ Z.of_nat (List.length (filter LogCharts.isError (LogCharts.bucketLogs logs data)))
     = LogCharts.errors data
  /\ Dashboard.filters after
     = (if 0 <? LogCharts.errors data then LogCharts.errorFilter else Dashboard.noFilters)
  /\ (LogCharts.errors data = 1 ->
      exists only,
        Dashboard.selectedLog after = Some only /\ In only logs
        /\ LogCharts.isError only = true
        /\ inBucket (widthOf logs) (LogCharts.timestamp data) only = true)
  /\ (LogCharts.errors data <> 1 -> Dashboard.selectedLog after = Dashboard.selectedLog st)
  /\ (exists range,
        Dashboard.timeRange after = Some range
        /\ Dashboard.start range = LogCharts.timestamp data
        /\ Dashboard.end_ range = LogCharts.endTime data).
Proof.
  intros Hdata Hstart. destruct (volumeData_started logs data Hdata Hstart) as [q ->].
  cbv zeta. set (k := q * widthOf logs). set (w := widthOf logs).
  pose proof (bucketLogs_inBucket logs q) as Hlogs. fold k w in Hlogs.
  assert (Hcount : Z.of_nat (List.length (LogCharts.bucketLogs logs (bucketOf w logs (Some k))))
                   = LogCharts.count (bucketOf w logs (Some k)))
    by (rewrite Hlogs; reflexivity).
  assert (Herrors :
            Z.of_nat (List.length (filter LogCharts.isError
                                     (LogCharts.bucketLogs logs (bucketOf w logs (Some k)))))
            = LogCharts.errors (bucketOf w logs (Some k)))
    by (rewrite Hlogs, filter_filter_length; reflexivity).
  split; [exact Hcount|]. split; [exact Herrors|].
  unfold LogCharts.handleChartClick.
  destruct (filter LogCharts.isError (LogCharts.bucketLogs logs (bucketOf w logs (Some k))))
    as [|only [|second more]] eqn:Eerr; rewrite <- Herrors; simpl List.length.
  - split; [reflexivity|]. split; [intros Hone; discriminate Hone|]. split; [reflexivity|].
    destruct (changeTimeRange_bounds (Dashboard.timeRange st) k (k + w)) as (r & Hr & Hs & He).
    exists r. simpl. auto.
  - split; [reflexivity|]. split; [|split; [intros Hone; contradiction Hone; reflexivity|]].
    + intros _. exists only.
      assert (Hin : In only (filter LogCharts.isError
                               (LogCharts.bucketLogs logs (bucketOf w logs (Some k)))))
        by (rewrite Eerr; left; reflexivity).
      apply filter_In in Hin. destruct Hin as [Hin Hiserr]. rewrite Hlogs in Hin.
      apply filter_In in Hin. simpl. tauto.
    + destruct (changeTimeRange_bounds (Dashboard.timeRange st) k (k + w)) as (r & Hr & Hs & He).
      exists r. simpl. auto.
  - split; [reflexivity|]. split; [intros Hone; lia|]. split; [reflexivity|].
    destruct (changeTimeRange_bounds (Dashboard.timeRange st) k (k + w)) as (r & Hr & Hs & He).
    exists r. simpl. auto.
Qed.

(** The zoom window after a click on a bucket that has a start. *)
Lemma chart_click_window `{Platform} (logs : list LogEntry) (data : LogCharts.Bucket)
    (st : Dashboard.State) :
  In data (LogCharts.volumeData logs) -> LogCharts.timestamp data <> NaN ->
  exists q,
    data = bucketOf (widthOf logs) logs (Some (q * widthOf logs))
    /\ exists range,
         Dashboard.timeRange (LogCharts.handleChartClick logs (Some data) st) = Some range
         /\ Dashboard.start range = Some (q * widthOf logs)
         /\ Dashboard.end_ range = Some (q * widthOf logs + widthOf logs).
Proof.
  intros Hdata Hstart. destruct (volumeData_started logs data Hdata Hstart) as [q ->].
  exists q. split; [reflexivity|].
  destruct (changeTimeRange_bounds (Dashboard.timeRange st) (q * widthOf logs)
              (q * widthOf logs + widthOf logs)) as (r & Hr & Hs & He).
  exists r. split; [|split; assumption].
  unfold LogCharts.handleChartClick.
  destruct (filter LogCharts.isError _) as [|only [|second more]]; exact Hr.
Qed.

(** The theorem on the bucket of the sample timeline that holds the one
    critical entry: the click applies the Error filter and selects it. *)
Lemma chart_click_follows_bucket_witness :
  exists data,
    nth_error (LogCharts.volumeData Samples.dataset) 1 = Some data
    /\ LogCharts.errors data = 1
    /\ Dashboard.filters (LogCharts.handleChartClick Samples.dataset (Some data) Dashboard.initial)
       = LogCharts.errorFilter
    /\ Dashboard.selectedLog
         (LogCharts.handleChartClick Samples.dataset (Some data) Dashboard.initial)
       = Some (Samples.entry "2024-01-01T00:00:02Z" "Service" "Critical" "crash").
Proof.
  destruct (nth_error (LogCharts.volumeData Samples.dataset) 1) as [data|] eqn:Edata;
    [|vm_compute in Edata; discriminate Edata].
  exists data. split; [reflexivity|].
  assert (Hin : In data (LogCharts.volumeData Samples.dataset))
    by (eapply nth_error_In; exact Edata).
  vm_compute in Edata. injection Edata as <-.
  destruct (@chart_click_follows_bucket Reference.platform Samples.dataset _ Dashboard.initial
              Hin ltac:(discriminate)) as (_ & _ & Hfilters & _).
  split; [reflexivity|]. split; [exact Hfilters | vm_compute; reflexivity].
Defined.

Lemma filter_or_length (p q : LogEntry -> bool) (logs : list LogEntry) :
  (forall e, p e = true -> q e = false) ->
  Z.of_nat (List.length (filter (fun e => p e || q e) logs)) = tally p logs + tally q logs.
Proof.
  intros Hdisjoint. induction logs as [|e rest IH]; [reflexivity|].
  rewrite !tally_cons. simpl filter.
  destruct (p e) eqn:Ep; simpl orb.
  - rewrite (Hdisjoint e Ep). simpl List.length. lia.
  - destruct (q e); simpl List.length; lia.
Qed.

(** X10. The window that a click sets includes its end: after a click on
    a bucket that has a start, the dashboard holds the entries of the
    bucket and, with them, the entries dated at the very end of the bucket,
    which the timeline counts in the next bucket. *)
Theorem click_window_includes_its_end `{Platform} (logs : list LogEntry)
    (data : LogCharts.Bucket) (st : Dashboard.State) :
  In data (LogCharts.volumeData logs) -> LogCharts.timestamp data <> NaN ->
  let after := LogCharts.handleChartClick logs (Some data) st in
  Z.of_nat (List.length (Dashboard.filteredLogs logs (Dashboard.timeRange after)))
  = LogCharts.count data
    + tally (fun e => nkey_eqb (getTime e) (LogCharts.endTime data)) logs.
Proof.
  intros Hdata Hstart. cbv zeta.
  destruct (chart_click_window logs data st Hdata Hstart) as (q & -> & range & -> & Hs & He).
  unfold Dashboard.filteredLogs. rewrite Hs, He. simpl LogCharts.count. simpl LogCharts.endTime.
  pose proof (widthOf_pos logs) as Hw.
  rewrite <- (filter_or_length (inBucket (widthOf logs) (Some (q * widthOf logs)))
                (fun e => nkey_eqb (getTime e) (Some (q * widthOf logs + widthOf logs)))).
  - do 2 f_equal. apply filter_ext. intros e. cbv zeta.
    unfold inBucket, keyOf, nge, nle, LogCharts.bucketKey.
    destruct (getTime e) as [t|]; simpl; [|reflexivity].
    rewrite (floor_multiple q t Hw).
    destruct (q * widthOf logs <=? t) eqn:E1; simpl; [|
      apply Z.leb_gt in E1; symmetry; apply Z.eqb_neq; lia].
    destruct (t <? q * widthOf logs + widthOf logs) eqn:E2; simpl.
    + apply Z.ltb_lt in E2. apply Z.leb_le. lia.
    + apply Z.ltb_ge in E2.
      destruct (t =? q * widthOf logs + widthOf logs) eqn:E3;
        [apply Z.eqb_eq in E3; apply Z.leb_le; lia | apply Z.eqb_neq in E3; apply Z.leb_gt; lia].
  - intros e. unfold inBucket, keyOf, LogCharts.bucketKey.
    destruct (getTime e) as [t|]; simpl; [|discriminate].
    rewrite (floor_multiple q t Hw). intros Hin. apply andb_true_iff in Hin.
    destruct Hin as [_ Hlt]. apply Z.ltb_lt in Hlt. apply Z.eqb_neq. lia.
Qed.

(** The theorem on the sample dataset: the bucket of the third second
    counts one entry, and the window of a click on it holds two, the second
    one dated at the start of the fourth second. *)
Lemma click_window_includes_its_end_witness :
  exists data,
    nth_error (LogCharts.volumeData Samples.dataset) 1 = Some data
    /\ LogCharts.count data = 1
    /\ Z.of_nat
         (List.length
            (Dashboard.filteredLogs Samples.dataset
               (Dashboard.timeRange
                  (LogCharts.handleChartClick Samples.dataset (Some data) Dashboard.initial))))
       = 2.
Proof.
  destruct (nth_error (LogCharts.volumeData Samples.dataset) 1) as [data|] eqn:Edata;
    [|vm_compute in Edata; discriminate Edata].
  exists data. split; [reflexivity|].
  assert (Hin : In data (LogCharts.volumeData Samples.dataset))
    by (eapply nth_error_In; exact Edata).
  vm_compute in Edata. injection Edata as <-.
  split; [reflexivity|].
  rewrite (@click_window_includes_its_end Reference.platform Samples.dataset _
             Dashboard.initial Hin ltac:(discriminate)).
  vm_compute. reflexivity.
Defined.

Lemma filteredLogs_without_search `{Platform} (logs : list LogEntry) (filters : LogFilter) :
  search filters = "" ->
  LogTable.filteredLogs logs filters = Some (filter (matchesb filters) logs).
Proof.
  intros Hs. induction logs as [|e rest IH]; simpl; [reflexivity|].
  rewrite (keeps_without_search filters e Hs), IH. reflexivity.
Qed.

Lemma chart_click_filters `{Platform} (logs : list LogEntry) (data : LogCharts.Bucket)
    (st : Dashboard.State) :
  In data (LogCharts.volumeData logs) -> LogCharts.timestamp data <> NaN ->
  0 < LogCharts.errors data ->
  Dashboard.filters (LogCharts.handleChartClick logs (Some data) st) = LogCharts.errorFilter.
Proof.
  intros Hdata Hstart Herr. destruct (volumeData_started logs data Hdata Hstart) as [q ->].
  unfold LogCharts.handleChartClick. rewrite bucketLogs_inBucket.
  pose proof (filter_filter_length (inBucket (widthOf logs) (Some (q * widthOf logs)))
                LogCharts.isError logs) as Hlen.
  simpl in Herr.
  destruct (filter LogCharts.isError
              (filter (inBucket (widthOf logs) (Some (q * widthOf logs))) logs))
    as [|only [|second more]]; [simpl in Hlen; lia | reflexivity | reflexivity].
Qed.

(** X11. After a click on a bucket that has a start and counts an error,
    the table shows, of the entries in the zoom window, those whose level
    is exactly Error, in their order: an entry of level Critical, which the
    bucket counts as an error, is not among them. *)
Theorem table_after_click_shows_error_level `{Platform} (logs : list LogEntry)
    (data : LogCharts.Bucket) (st : Dashboard.State) :
  In data (LogCharts.volumeData logs) -> LogCharts.timestamp data <> NaN ->
  0 < LogCharts.errors data ->
  let after := LogCharts.handleChartClick logs (Some data) st in
  LogTable.filteredLogs (Dashboard.logTableLogs logs after) (Dashboard.filters after)
  = Some (filter (fun e => strictEqStr (traceLevel e) "Error")
            (Dashboard.logTableLogs logs after))
  /\ (forall shown e,
        LogTable.filteredLogs (Dashboard.logTableLogs logs after) (Dashboard.filters after)
        = Some shown ->
        In e shown -> traceLevel e <> Some (JStr "Critical")).
Proof.
  intros Hdata Hstart Herr after.
  assert (Htable :
            LogTable.filteredLogs (Dashboard.logTableLogs logs after) (Dashboard.filters after)
            = Some (filter (fun e => strictEqStr (traceLevel e) "Error")
                      (Dashboard.logTableLogs logs after))).
  { subst after. rewrite (chart_click_filters logs data st Hdata Hstart Herr).
    rewrite filteredLogs_without_search by reflexivity. f_equal.
    apply filter_ext. intros e. unfold matchesb. simpl. apply andb_true_r. }
  split; [exact Htable|].
  intros shown e Hshown He. rewrite Htable in Hshown. injection Hshown as <-.
  apply filter_In in He. destruct He as [_ Hlevel].
  apply strictEqStr_spec in Hlevel. rewrite Hlevel. discriminate.
Qed.

(** The theorem on the bucket of the sample timeline whose one error is
    critical: the click selects the critical entry and the table is
    empty. *)
Lemma table_after_click_shows_error_level_witness :
  exists data,
    nth_error (LogCharts.volumeData Samples.dataset) 1 = Some data
    /\ Dashboard.selectedLog
         (LogCharts.handleChartClick Samples.dataset (Some data) Dashboard.initial)
       = Some (Samples.entry "2024-01-01T00:00:02Z" "Service" "Critical" "crash")
    /\ LogTable.filteredLogs
         (Dashboard.logTableLogs Samples.dataset
            (LogCharts.handleChartClick Samples.dataset (Some data) Dashboard.initial))
         (Dashboard.filters
            (LogCharts.handleChartClick Samples.dataset (Some data) Dashboard.initial))
       = Some [].
Proof.
  destruct (nth_error (LogCharts.volumeData Samples.dataset) 1) as [data|] eqn:Edata;
    [|vm_compute in Edata; discriminate Edata].
  exists data. split; [reflexivity|].
  assert (Hin : In data (LogCharts.volumeData Samples.dataset))
    by (eapply nth_error_In; exact Edata).
  vm_compute in Edata. injection Edata as <-.
  split; [vm_compute; reflexivity|].
  destruct (@table_after_click_shows_error_level Reference.platform Samples.dataset _
              Dashboard.initial Hin ltac:(discriminate) ltac:(reflexivity)) as [Htable _].
  rewrite Htable. vm_compute. reflexivity.
Defined.

(* ------------------------------------------------------------------ *)
(** ** The summary cards *)

Lemma totalErrors_perm (a b : list LogCharts.Bucket) :
  Permutation a b -> totalErrors a = totalErrors b.
Proof.
  unfold totalErrors. induction 1; simpl; lia.
Qed.

Lemma tally_ext_in (p q : LogEntry -> bool) (logs : list LogEntry) :
  (forall e, In e logs -> p e = q e) -> tally p logs = tally q logs.
Proof.
  intros Hext. unfold tally. do 2 f_equal. apply filter_ext_in. exact Hext.
Qed.

Lemma totalErrors_bucketOf `{Platform} (size : Z) (keys : list jsnum) (logs : list LogEntry) :
  NoDup keys ->
  totalErrors (map (bucketOf size logs) keys)
  = tally (fun e => existsb (nkey_eqb (keyOf size e)) keys && LogCharts.isError e) logs.
Proof.
  intros Hnd. unfold totalErrors. rewrite map_map. simpl.
  induction Hnd as [|k keys Hfresh Hnd IH]; simpl.
  - rewrite tally_none; [reflexivity | reflexivity].
  - rewrite IH. clear IH. unfold inBucket.
    induction logs as [|e rest IHlogs]; [reflexivity|].
    rewrite !tally_cons.
    destruct (nkey_eqb (keyOf size e) k) eqn:Ek.
    + assert (Hout : existsb (nkey_eqb (keyOf size e)) keys = false).
      { apply not_true_is_false. intros Hex. apply existsb_exists in Hex.
        destruct Hex as (k' & Hk' & Heq). apply nkey_eqb_eq in Ek, Heq. congruence. }
      rewrite Hout. simpl orb. simpl andb. destruct (LogCharts.isError e); cbv iota; lia.
    + simpl orb. simpl andb.
      destruct (existsb (nkey_eqb (keyOf size e)) keys); simpl andb;
        destruct (LogCharts.isError e); cbv iota; lia.
Qed.

(** X12. The error total of the summary equals the sum of the error
    counts of the timeline built from the same entries, and the entry total
    equals the sum of its counts. *)
Theorem overview_totals_match_timeline `{Platform} (logs : list LogEntry) :
  Overview.errors logs = totalErrors (LogCharts.volumeData logs)
  /\ Overview.totalLogs logs = totalCount (LogCharts.volumeData logs).
Proof.
  destruct (volumeData_buckets logs) as (keys & Hnd & Hdom & Hperm).
  assert (Hall : forall e, In e logs ->
                   existsb (nkey_eqb (keyOf (widthOf logs) e)) keys = true).
  { intros e He. apply existsb_exists. exists (keyOf (widthOf logs) e).
    split; [apply Hdom, in_map, He | apply nkey_eqb_refl]. }
  split.
  - rewrite (totalErrors_perm Hperm), (totalErrors_bucketOf _ _ Hnd).
    unfold Overview.errors. symmetry. apply tally_ext_in.
    intros e He. rewrite (Hall e He). reflexivity.
  - rewrite (totalCount_perm Hperm), (totalCount_bucketOf _ _ Hnd).
    unfold Overview.totalLogs, tally. do 2 f_equal. symmetry.
    apply filter_everything, Hall.
Qed.

Lemma setOf_length (values : list (option json)) :
  (List.length (setOf values) <= List.length values)%nat.
Proof.
  induction values as [|v rest IH]; simpl; [lia|].
  pose proof (filter_length_le (fun w => negb (sameValueZero w v)) (setOf rest)). lia.
Qed.

(** On texts, [new Set] keeps what the choices of the table keep. *)
Lemma setOf_texts (texts : list string) :
  setOf (map (fun c => Some (JStr c)) texts)
  = map (fun c => Some (JStr c)) (LogTable.distinct texts).
Proof.
  induction texts as [|c rest IH]; [reflexivity|].
  simpl. f_equal. rewrite IH. clear IH.
  induction (LogTable.distinct rest) as [|d others IH]; [reflexivity|].
  simpl. destruct (d =? c)%string; simpl; rewrite IH; reflexivity.
Qed.

(** X13. On the summary, errors and warnings together never exceed the
    entry total; the number of components is at most the entry total and is
    zero only for an empty dataset; and when the components are texts it is
    the number of component choices that the table offers for the same
    entries. *)
Theorem overview_counters `{Platform} (logs : list LogEntry) :
  0 <= Overview.errors logs
  /\ 0 <= Overview.warnings logs
  /\ Overview.errors logs + Overview.warnings logs <= Overview.totalLogs logs
  /\ Overview.components logs <= Overview.totalLogs logs
  /\ (Overview.components logs = 0 <-> logs = [])
  /\ (Forall (fun e => exists c, component e = Some (JStr c)) logs ->
      Overview.components logs = Z.of_nat (List.length (LogTable.uniqueComponents logs))).
Proof.
  unfold Overview.errors, Overview.warnings, Overview.totalLogs, Overview.components.
  split; [lia|]. split; [lia|]. split; [|split; [|split]].
  - induction logs as [|e rest IH]; [simpl; lia|].
    assert (Hone : LogCharts.isError e && strictEqStr (traceLevel e) "Warning" = false).
    { apply not_true_is_false. unfold LogCharts.isError.
      rewrite andb_true_iff, orb_true_iff, !strictEqStr_spec.
      intros [[He | He] Hw]; rewrite He in Hw; discriminate. }
    cbn [filter].
    destruct (LogCharts.isError e), (strictEqStr (traceLevel e) "Warning");
      try discriminate; cbn [List.length]; lia.
  - apply inj_le. rewrite <- (length_map component logs). apply setOf_length.
  - destruct logs as [|e rest]; simpl; [tauto|]. split; [lia | discriminate].
  - intros Htexts. f_equal.
    unfold LogTable.uniqueComponents. rewrite arraySort_length.
    assert (Hvalues : map component logs
                      = map (fun c => Some (JStr c))
                          (map (fun l => LogTable.asString (component l)) logs)).
    { rewrite map_map. apply map_ext_in. intros e He.
      destruct (proj1 (Forall_forall _ _) Htexts e He) as [c Hc]. rewrite Hc. reflexivity. }
    rewrite Hvalues, setOf_texts, length_map. reflexivity.
Qed.

Lemma spanOf_nonneg `{Platform} (logs : list LogEntry) : 0 <= spanOf logs.
Proof.
  unfold spanOf. destruct (timesOf logs) as [|t rest]; simpl; [lia|].
  destruct (fold_max_bounds t rest) as [_ Hmax].
  destruct (fold_min_bounds t rest) as [_ Hmin].
  specialize (Hmax t (or_introl eq_refl)). specialize (Hmin t (or_introl eq_refl)). lia.
Qed.

Lemma dsub_exact (a b : jsnum) (d : Z) :
  nsub a b = Some d -> Z.abs d <= 2 ^ 53 -> dsub a b = Some d.
Proof.
  destruct a as [x|], b as [y|]; unfold nsub, dsub, NaN; try discriminate.
  intros [= <-] Hsmall. unfold toDouble. cbv zeta.
  apply Z.leb_le in Hsmall. rewrite Hsmall. reflexivity.
Qed.

(** X14. For a dataset that has entries, all dated and in timestamp
    order, whose total span is at most 2^53 ms, the duration card shows the
    whole minutes and the remaining whole seconds of the total span: the
    seconds are between 0 and 59, and the text understates the span by less
    than one second. *)
Theorem overview_duration_parts `{Platform} (logs : list LogEntry)
    (Hentries : logs <> []) (Hdated : Forall hasTime logs) (Hordered : Sorted timeLe logs)
    (Hexact : spanOf logs <= 2 ^ 53) :
  exists mins secs : Z,
    Overview.duration logs
    = (numberText (Some mins) ++ "m " ++ numberText (Some secs) ++ "s")%string
    /\ 0 <= mins /\ 0 <= secs <= 59
    /\ mins * 60000 + secs * 1000 <= spanOf logs < mins * 60000 + secs * 1000 + 1000.
Proof.
  pose proof (durationMs_span Hentries Hdated Hordered) as Hspan.
  pose proof (spanOf_nonneg logs) as Hpos.
  destruct logs as [|first rest]; [congruence|].
  exists (spanOf (first :: rest) / 60000), (Z.rem (spanOf (first :: rest)) 60000 / 1000).
  assert (Hdiff : Overview.diffMs first (first :: rest) = Some (spanOf (first :: rest))).
  { unfold Overview.diffMs. apply dsub_exact; [exact Hspan|].
    rewrite Z.abs_eq by exact Hpos. exact Hexact. }
  split.
  - unfold Overview.duration, Overview.diffMins, Overview.diffSecs.
    rewrite Hdiff. reflexivity.
  - remember (spanOf (first :: rest)) as span eqn:Espan. clear Espan Hdiff Hspan Hexact.
    rewrite Z.rem_mod_nonneg by lia.
    pose proof (Z.div_mod span 60000 ltac:(lia)) as Hmins.
    pose proof (Z.mod_pos_bound span 60000 ltac:(lia)) as Hrem.
    pose proof (Z.div_mod (span mod 60000) 1000 ltac:(lia)) as Hsecs.
    pose proof (Z.mod_pos_bound (span mod 60000) 1000 ltac:(lia)) as Hms.
    assert (0 <= span / 60000) by (apply Z.div_pos; lia).
    assert (0 <= span mod 60000 / 1000) by (apply Z.div_pos; lia).
    assert (span mod 60000 / 1000 <= 59)
      by (apply Z.lt_succ_r, Z.div_lt_upper_bound; lia).
    lia.
Qed.

(** The theorem on the sample dataset, which spans three seconds. *)
Lemma overview_duration_parts_witness :
  Overview.duration Samples.dataset = "0m 3s"
  /\ exists mins secs : Z,
       Overview.duration Samples.dataset
       = (numberText (Some mins) ++ "m " ++ numberText (Some secs) ++ "s")%string
       /\ 0 <= mins /\ 0 <= secs <= 59
       /\ mins * 60000 + secs * 1000 <= spanOf Samples.dataset
          < mins * 60000 + secs * 1000 + 1000.
Proof.
  assert (Hne : Samples.dataset <> []) by discriminate.
  assert (Hvalid : Forall hasTime Samples.dataset)
    by (repeat constructor; vm_compute; discriminate).
  assert (Hsorted : Sorted timeLe Samples.dataset)
    by (repeat constructor; vm_compute; reflexivity).
  assert (Hexact : spanOf Samples.dataset <= 2 ^ 53)
    by (vm_compute; discriminate).
  split; [vm_compute; reflexivity|].
  exact (@overview_duration_parts Reference.platform Samples.dataset Hne Hvalid Hsorted Hexact).
Defined.

(** X15. When the first or the last entry of the dataset has no readable
    timestamp, the duration card shows the text NaNm NaNs, whatever the
    other entries are. *)
Theorem overview_duration_undated `{Platform} (first : LogEntry) (rest : list LogEntry)
    (Hundated : getTime first = NaN \/ getTime (last rest first) = NaN) :
  Overview.duration (first :: rest) = "NaNm NaNs".
Proof.
  unfold Overview.duration, Overview.diffMins, Overview.diffSecs, Overview.diffMs.
  rewrite last_cons.
  assert (Hdiff : dsub (getTime (last rest first)) (getTime first) = NaN).
  { unfold NaN in *. destruct Hundated as [E | E]; rewrite E;
      [destruct (getTime (last rest first))|]; reflexivity. }
  rewrite Hdiff. reflexivity.
Qed.

(** The theorem on a dataset whose first entry has an unreadable clock. *)
Lemma overview_duration_undated_witness :
  Overview.duration
    [Samples.entry "not-a-date" "Agent" "Info" "clock lost";
     Samples.entry "2024-01-01T00:00:00Z" "Agent" "Info" "clock back"]
  = "NaNm NaNs".
Proof.
  apply (@overview_duration_undated Reference.platform). left. vm_compute. reflexivity.
Defined.

(* ------------------------------------------------------------------ *)
(** ** The component chart *)

Lemma distinct_snoc_new (values : list string) (v : string) :
  ~ In v values -> LogTable.distinct (values ++ [v]) = (LogTable.distinct values ++ [v])%list.
Proof.
  induction values as [|w rest IH]; intros Hfresh; [reflexivity|].
  simpl. f_equal. rewrite IH by (intros Hin; apply Hfresh; right; exact Hin).
  rewrite filter_app. simpl.
  assert (Hv : (v =? w)%string = false)
    by (apply String.eqb_neq; intros ->; apply Hfresh; left; reflexivity).
  rewrite Hv. reflexivity.
Qed.

Lemma distinct_snoc_old (values : list string) (v : string) :
  In v values -> LogTable.distinct (values ++ [v]) = LogTable.distinct values.
Proof.
  induction values as [|w rest IH]; intros Hin; [destruct Hin|].
  simpl. f_equal.
  destruct (in_dec string_dec v rest) as [Hrest|Hfresh].
  - rewrite (IH Hrest). reflexivity.
  - destruct Hin as [->|Hin]; [|contradiction].
    rewrite (@distinct_snoc_new rest v Hfresh), filter_app. simpl.
    rewrite String.eqb_refl. simpl. apply app_nil_r.
Qed.

Section CountFacts.

Variables f g : string -> option Z.

Lemma ownCount_old (k : string) (ks : list string) :
  In k ks -> LogCharts.ownCount k (map (fun n => (n, f n)) ks) = Some (f k).
Proof.
  induction ks as [|n ks IH]; intros Hin; [destruct Hin|]. simpl.
  destruct (n =? k)%string eqn:E.
  - apply String.eqb_eq in E. subst n. reflexivity.
  - apply String.eqb_neq in E. destruct Hin as [Heq|Hin]; [congruence | apply IH, Hin].
Qed.

Lemma ownCount_new (k : string) (ks : list string) :
  ~ In k ks -> LogCharts.ownCount k (map (fun n => (n, f n)) ks) = None.
Proof.
  induction ks as [|n ks IH]; intros Hfresh; [reflexivity|]. simpl.
  destruct (n =? k)%string eqn:E.
  - apply String.eqb_eq in E. subst n. destruct Hfresh. left. reflexivity.
  - apply IH. intros Hin. apply Hfresh. right. exact Hin.
Qed.

Lemma setCount_old (k : string) (ks : list string) :
  NoDup ks -> In k ks -> (forall n, n <> k -> g n = f n) ->
  LogCharts.setCount k (g k) (map (fun n => (n, f n)) ks) = map (fun n => (n, g n)) ks.
Proof.
  intros Hnd Hin Hsame. induction Hnd as [|n ks Hfresh Hnd IH]; [destruct Hin|]. simpl.
  destruct (n =? k)%string eqn:E.
  - apply String.eqb_eq in E. subst n. f_equal.
    apply map_ext_in. intros n Hn. rewrite Hsame; [reflexivity|].
    intros ->. exact (Hfresh Hn).
  - apply String.eqb_neq in E. rewrite (Hsame n E). f_equal.
    destruct Hin as [Heq|Hin]; [congruence | apply IH, Hin].
Qed.

Lemma setCount_new (k : string) (ks : list string) :
  ~ In k ks -> (forall n, n <> k -> g n = f n) ->
  LogCharts.setCount k (g k) (map (fun n => (n, f n)) ks)
  = map (fun n => (n, g n)) (ks ++ [k]).
Proof.
  intros Hfresh Hsame. induction ks as [|n ks IH]; [reflexivity|]. simpl.
  assert (E : n <> k) by (intros ->; apply Hfresh; left; reflexivity).
  rewrite (proj2 (String.eqb_neq n k) E), (Hsame n E). f_equal.
  apply IH. intros Hin. apply Hfresh. right. exact Hin.
Qed.

End CountFacts.

Lemma occurrences_positive (k : string) (logs : list LogEntry) :
  1 <= occurrences k logs <-> In (Some (JStr k)) (map component logs).
Proof.
  unfold occurrences. induction logs as [|e rest IH]; [unfold tally; simpl; split; [lia|tauto]|].
  rewrite tally_cons. simpl map. simpl In.
  pose proof (strictEqStr_spec (component e) k) as Hspec.
  assert (0 <= tally (fun e => strictEqStr (component e) k) rest) by (unfold tally; lia).
  destruct (strictEqStr (component e) k).
  - split; [left; apply Hspec; reflexivity | lia].
  - split.
    + intros Hone. right. apply IH. lia.
    + intros [Heq | Hin]; [apply Hspec in Heq; discriminate | apply IH in Hin; lia].
Qed.

(** The counts object after the loop: one property for each component, in
    the order of first occurrence, holding the number of its entries. *)
Lemma counts_of_logs (logs : list LogEntry) :
  Forall plainComponent logs ->
  fold_left LogCharts.countComponent logs []
  = map (fun k => (k, Some (occurrences k logs)))
      (LogTable.distinct (map (fun l => LogTable.asString (component l)) logs)).
Proof.
  induction logs as [|e seen IH] using rev_ind; intros Hplain; [reflexivity|].
  apply Forall_app in Hplain. destruct Hplain as [Hseen He].
  inversion He as [|? ? (c & Hc & Hown) _]; subst.
  rewrite fold_left_app, (IH Hseen), map_app. simpl fold_left. simpl map.
  unfold LogCharts.countComponent. rewrite Hc. simpl LogTable.asString. cbv zeta.
  set (keys := map (fun l => LogTable.asString (component l)) seen).
  assert (Hstep : forall n, n <> c -> Some (occurrences n (seen ++ [e])) = Some (occurrences n seen)).
  { intros n Hn. unfold occurrences. rewrite tally_snoc, Hc. simpl.
    rewrite (proj2 (String.eqb_neq c n)) by congruence. f_equal. lia. }
  assert (Hhere : occurrences c (seen ++ [e]) = occurrences c seen + 1).
  { unfold occurrences. rewrite tally_snoc, Hc. simpl. rewrite String.eqb_refl. reflexivity. }
  destruct (in_dec string_dec c keys) as [Hold|Hnew].
  - rewrite (@ownCount_old (fun k => Some (occurrences k seen)) c _
               (proj2 (distinct_In keys c) Hold)).
    rewrite (@distinct_snoc_old keys c Hold). simpl nadd. rewrite <- Hhere.
    apply (@setCount_old (fun k => Some (occurrences k seen))
             (fun k => Some (occurrences k (seen ++ [e])))).
    + apply distinct_NoDup.
    + apply distinct_In, Hold.
    + exact Hstep.
  - rewrite (@ownCount_new (fun k => Some (occurrences k seen)) c _
               (fun Hin => Hnew (proj1 (distinct_In keys c) Hin))).
    rewrite Hown, (@distinct_snoc_new keys c Hnew).
    assert (Hzero : occurrences c seen = 0).
    { apply tally_none. intros x Hx. apply not_true_is_false. intros Hx'.
      apply strictEqStr_spec in Hx'. apply Hnew. unfold keys.
      apply in_map_iff. exists x. rewrite Hx'. split; [reflexivity | exact Hx]. }
    replace (Some 1) with (Some (occurrences c (seen ++ [e]))) by (rewrite Hhere, Hzero; reflexivity).
    apply (@setCount_new (fun k => Some (occurrences k seen))
             (fun k => Some (occurrences k (seen ++ [e])))).
    + intros Hin. apply Hnew, distinct_In, Hin.
    + exact Hstep.
Qed.

Lemma objectEntries_perm (counts : LogCharts.Counts) :
  Permutation (LogCharts.objectEntries counts) counts.
Proof.
  unfold LogCharts.objectEntries.
  eapply perm_trans; [|apply (filter_partition_perm (fun kv => defined_index (fst kv)))].
  apply Permutation_app_tail, arraySort_perm.
Qed.

Lemma slice_firstn (A : Type) (n : Z) (l : list A) :
  0 <= n -> slice 0 n l = firstn (Z.to_nat n) l.
Proof.
  intros Hn. unfold slice. cbv zeta.
  destruct (n <? 0) eqn:E; [apply Z.ltb_lt in E; lia|].
  change (0 <? 0) with false. cbv iota.
  rewrite (Z.min_l 0) by lia. simpl skipn. rewrite Z.sub_0_r.
  destruct (Z.le_gt_cases n (Z.of_nat (List.length l))) as [Hle|Hgt].
  - rewrite Z.min_l by lia. reflexivity.
  - rewrite Z.min_r by lia. rewrite Nat2Z.id, firstn_all.
    symmetry. apply firstn_all2. lia.
Qed.

Lemma In_firstn (A : Type) (n : nat) (l : list A) (x : A) :
  In x (firstn n l) -> In x l.
Proof.
  intros Hin. rewrite <- (firstn_skipn n l). apply in_or_app. left. exact Hin.
Qed.

Lemma In_slice (A : Type) (start end_ : Z) (l : list A) (x : A) :
  In x (slice start end_ l) -> In x l.
Proof.
  unfold slice. cbv zeta. intros Hin. apply In_firstn in Hin.
  rewrite <- (firstn_skipn (Z.to_nat (if start <? 0
                                      then Z.max (Z.of_nat (List.length l) + start) 0
                                      else Z.min start (Z.of_nat (List.length l)))) l).
  apply in_or_app. right. exact Hin.
Qed.

Lemma StronglySorted_app_left (A : Type) (R : A -> A -> Prop) (a b : list A) :
  StronglySorted R (a ++ b) -> StronglySorted R a.
Proof.
  induction a as [|h a IH]; intros Hs; [constructor|].
  simpl in Hs. inversion Hs as [|? ? Hrest Hall]; subst.
  constructor; [apply IH, Hrest|].
  apply Forall_app in Hall. exact (proj1 Hall).
Qed.

Lemma StronglySorted_app_order (A : Type) (R : A -> A -> Prop) (a b : list A) :
  StronglySorted R (a ++ b) -> forall x y, In x a -> In y b -> R x y.
Proof.
  induction a as [|h a IH]; intros Hs x y Hx Hy; [destruct Hx|].
  simpl in Hs. inversion Hs as [|? ? Hrest Hall]; subst.
  destruct Hx as [<-|Hx].
  - apply (proj1 (Forall_forall _ _) Hall). apply in_or_app. right. exact Hy.
  - apply (IH Hrest x y Hx Hy).
Qed.

(** X16. For entries whose components are texts other than the inherited
    property names, the component chart has at most ten rows with distinct
    names, each row holds the number of entries of its component, the rows
    are in descending order of that number, and a component left out of the
    chart has no more entries than any of the ten rows shown. *)
Theorem component_chart_top_ten (logs : list LogEntry)
    (Hplain : Forall plainComponent logs) :
  let rows := LogCharts.componentData logs in
  (List.length rows <= 10)%nat
  /\ NoDup (map LogCharts.cc_name rows)
  /\ (forall r, In r rows ->
        LogCharts.value r = Some (occurrences (LogCharts.cc_name r) logs)
        /\ 1 <= occurrences (LogCharts.cc_name r) logs)
  /\ Sorted countsAtLeast rows
  /\ (forall k, 1 <= occurrences k logs -> ~ In k (map LogCharts.cc_name rows) ->
        List.length rows = 10%nat
        /\ forall r, In r rows -> occurrences k logs <= occurrences (LogCharts.cc_name r) logs).
Proof.
  cbv zeta. unfold LogCharts.componentData. cbv zeta.
  rewrite (counts_of_logs Hplain), slice_firstn by lia.
  change (Z.to_nat 10) with 10%nat.
  set (keys := LogTable.distinct (map (fun l => LogTable.asString (component l)) logs)).
  set (row := fun k => {| LogCharts.cc_name := k; LogCharts.value := Some (occurrences k logs) |}).
  set (sorted := arraySort _ _).
  assert (Hperm : Permutation sorted (map row keys)).
  { unfold sorted. eapply perm_trans; [apply arraySort_perm|].
    eapply perm_trans; [apply Permutation_map, objectEntries_perm|].
    rewrite map_map. apply Permutation_refl. }
  assert (Hrows : forall r, In r sorted -> exists k, r = row k /\ In k keys).
  { intros r Hr. apply (Permutation_in _ Hperm), in_map_iff in Hr.
    destruct Hr as (k & <- & Hk). exists k. split; [reflexivity | exact Hk]. }
  assert (Hkeys : forall k, In k keys <-> 1 <= occurrences k logs).
  { intros k. unfold keys. rewrite distinct_In, occurrences_positive, !in_map_iff.
    split; intros (e & He & Hin); exists e; (split; [|exact Hin]).
    - apply (proj1 (Forall_forall _ _) Hplain) in Hin. destruct Hin as (c & Hc & _).
      rewrite Hc in *. simpl in He. congruence.
    - rewrite He. reflexivity. }
  assert (Hnames : NoDup (map LogCharts.cc_name sorted)).
  { eapply Permutation_NoDup; [apply Permutation_sym, Permutation_map, Hperm|].
    rewrite map_map. simpl. rewrite map_id. apply distinct_NoDup. }
  assert (Hsorted : Sorted countsAtLeast sorted).
  { unfold sorted.
    apply (@arraySort_Sorted _ _ (fun r => LogCharts.value r <> NaN));
      unfold comesAfter, countsAtLeast, NaN.
    - intros a b Ha Hb. destruct (LogCharts.value a), (LogCharts.value b);
        try congruence. simpl. rewrite Z.ltb_lt, Z.leb_le. lia.
    - intros a b Ha Hb. destruct (LogCharts.value a), (LogCharts.value b);
        try congruence. simpl. rewrite Z.ltb_ge, Z.leb_le. lia.
    - apply Forall_forall. intros r Hr. apply in_map_iff in Hr.
      destruct Hr as ((k & v) & <- & Hin). simpl.
      apply (Permutation_in _ (objectEntries_perm _)), in_map_iff in Hin.
      destruct Hin as (k' & [= _ <-] & _). discriminate. }
  assert (Hstrong : StronglySorted countsAtLeast sorted).
  { apply Sorted_StronglySorted; [|exact Hsorted].
    intros a b c. unfold countsAtLeast.
    destruct (LogCharts.value a), (LogCharts.value b), (LogCharts.value c);
      simpl; try discriminate. rewrite !Z.leb_le. lia. }
  rewrite <- (firstn_skipn 10 sorted) in Hnames, Hstrong.
  split; [apply firstn_le_length|]. split; [|split; [|split]].
  - rewrite map_app in Hnames. apply NoDup_app_remove_r in Hnames. exact Hnames.
  - intros r Hr. apply In_firstn, Hrows in Hr. destruct Hr as (k & -> & Hk).
    split; [reflexivity | apply Hkeys, Hk].
  - apply StronglySorted_Sorted, (@StronglySorted_app_left _ _ _ _ Hstrong).
  - intros k Hk Hout.
    assert (Hin : In (row k) sorted).
    { apply (Permutation_in _ (Permutation_sym Hperm)), in_map, Hkeys, Hk. }
    rewrite <- (firstn_skipn 10 sorted) in Hin. apply in_app_or in Hin.
    destruct Hin as [Hin|Hin]; [destruct Hout; apply (in_map LogCharts.cc_name) in Hin; exact Hin|].
    split.
    + apply firstn_length_le.
      destruct (Nat.le_gt_cases 10 (List.length sorted)) as [Hlen|Hlen]; [exact Hlen|].
      rewrite skipn_all2 in Hin by lia. destruct Hin.
    + intros r Hr.
      pose proof (@StronglySorted_app_order _ _ _ _ Hstrong _ _ Hr Hin) as Hle.
      apply In_firstn, Hrows in Hr. destruct Hr as (k' & -> & _).
      unfold countsAtLeast in Hle. simpl in Hle. apply Z.leb_le in Hle. exact Hle.
Qed.

(** The theorem on the sample dataset: two components with two entries
    each. *)
Lemma component_chart_top_ten_witness :
  LogCharts.componentData Samples.dataset
  = [ {| LogCharts.cc_name := "Agent"; LogCharts.value := Some 2 |};
      {| LogCharts.cc_name := "Service"; LogCharts.value := Some 2 |} ]
  /\ Sorted countsAtLeast (LogCharts.componentData Samples.dataset).
Proof.
  assert (Hplain : Forall plainComponent Samples.dataset).
  { repeat constructor; eexists; (split; [reflexivity | reflexivity]). }
  destruct (@component_chart_top_ten Samples.dataset Hplain) as (_ & _ & _ & Hsorted & _).
  split; [vm_compute; reflexivity | exact Hsorted].
Defined.

Lemma ownCount_setCount_other (k n : string) (v : jsnum) (counts : LogCharts.Counts) :
  n <> k -> LogCharts.ownCount n (LogCharts.setCount k v counts) = LogCharts.ownCount n counts.
Proof.
  intros Hne. induction counts as [|[k' v'] rest IH]; simpl.
  - rewrite (proj2 (String.eqb_neq k n)) by congruence. reflexivity.
  - destruct (k' =? k)%string eqn:E; simpl.
    + apply String.eqb_eq in E. subst k'.
      rewrite (proj2 (String.eqb_neq k n)) by congruence. reflexivity.
    + destruct (k' =? n)%string; [reflexivity | exact IH].
Qed.

Lemma ownCount_absent (k : string) (counts : LogCharts.Counts) :
  LogCharts.ownCount k counts = None -> ~ In k (map fst counts).
Proof.
  induction counts as [|[k' v'] rest IH]; simpl; [tauto|].
  destruct (k' =? k)%string eqn:E; [discriminate|].
  apply String.eqb_neq in E. intros Hnone [Heq|Hin]; [congruence | exact (IH Hnone Hin)].
Qed.

Lemma countComponent_keeps_proto_out (counts : LogCharts.Counts) (e : LogEntry) :
  LogCharts.ownCount "__proto__" counts = None ->
  LogCharts.ownCount "__proto__" (LogCharts.countComponent counts e) = None.
Proof.
  intros Hout. unfold LogCharts.countComponent. cbv zeta.
  set (k := LogTable.asString (component e)).
  destruct (string_dec k "__proto__") as [Ek|Ek].
  - rewrite Ek, Hout. simpl. exact Hout.
  - destruct (LogCharts.ownCount k counts) as [v|].
    + rewrite ownCount_setCount_other by congruence. exact Hout.
    + rewrite (proj2 (String.eqb_neq k "__proto__") Ek).
      destruct (isInherited k); rewrite ownCount_setCount_other by congruence; exact Hout.
Qed.

Lemma counts_without_proto (logs : list LogEntry) (counts : LogCharts.Counts) :
  Forall (fun e => exists c, component e = Some (JStr c)) logs ->
  LogCharts.ownCount "__proto__" counts = None ->
  fold_left LogCharts.countComponent logs counts
  = fold_left LogCharts.countComponent (withoutProto logs) counts
  /\ LogCharts.ownCount "__proto__" (fold_left LogCharts.countComponent logs counts) = None.
Proof.
  intros Htyped. revert counts.
  induction Htyped as [|e rest (c & Hc) _ IH]; intros counts Hout; [split; [reflexivity | exact Hout]|].
  unfold withoutProto. simpl filter. rewrite Hc. simpl strictEqStr.
  destruct (c =? "__proto__")%string eqn:E; simpl negb; cbv iota; simpl fold_left.
  - apply String.eqb_eq in E. subst c.
    assert (Hsame : LogCharts.countComponent counts e = counts).
    { unfold LogCharts.countComponent. rewrite Hc. simpl LogTable.asString. cbv zeta.
      rewrite Hout. reflexivity. }
    rewrite Hsame. apply IH, Hout.
  - apply IH, countComponent_keeps_proto_out, Hout.
Qed.

(** X17. Entries whose component is the text [__proto__] are not counted
    in the component chart: the chart is the one of the dataset without
    them, and it has no row of that name. *)
Theorem proto_component_not_charted (logs : list LogEntry)
    (Htyped : Forall (fun e => exists c, component e = Some (JStr c)) logs) :
  LogCharts.componentData logs = LogCharts.componentData (withoutProto logs)
  /\ ~ In "__proto__" (map LogCharts.cc_name (LogCharts.componentData logs)).
Proof.
  destruct (@counts_without_proto logs [] Htyped eq_refl) as [Hsame Hout].
  unfold LogCharts.componentData. cbv zeta. rewrite <- Hsame. split; [reflexivity|].
  intros Hin. apply (@ownCount_absent _ _ Hout).
  apply in_map_iff in Hin. destruct Hin as (r & Hname & Hr).
  apply In_slice, arraySort_In, in_map_iff in Hr.
  destruct Hr as ((k & v) & <- & Hkv). simpl in Hname. subst k.
  apply (Permutation_in _ (objectEntries_perm _)) in Hkv.
  apply (in_map fst) in Hkv. exact Hkv.
Qed.

(** The theorem on a dataset with one such entry among two others: the
    chart has the single row of the others. *)
Lemma proto_component_not_charted_witness :
  LogCharts.componentData
    [ Samples.entry "2024-01-01T00:00:00Z" "Agent" "Info" "Flow started";
      Samples.entry "2024-01-01T00:00:01Z" "__proto__" "Error" "lost";
      Samples.entry "2024-01-01T00:00:02Z" "Agent" "Info" "Flow finished" ]
  = [ {| LogCharts.cc_name := "Agent"; LogCharts.value := Some 2 |} ].
Proof.
  set (logs := [ Samples.entry "2024-01-01T00:00:00Z" "Agent" "Info" "Flow started";
                 Samples.entry "2024-01-01T00:00:01Z" "__proto__" "Error" "lost";
                 Samples.entry "2024-01-01T00:00:02Z" "Agent" "Info" "Flow finished" ]).
  assert (Htyped : Forall (fun e => exists c, component e = Some (JStr c)) logs).
  { repeat constructor; eexists; reflexivity. }
  rewrite (proj1 (@proto_component_not_charted logs Htyped)).
  vm_compute. reflexivity.
Defined.

(* ------------------------------------------------------------------ *)
(** ** More on reading and merging the sources *)

Lemma readAll_unreadable `{Platform} (files : list FileUpload.File) :
  Exists (fun f => FileUpload.text f = None) files -> FileUpload.readAll files = None.
Proof.
  intros Hsome. destruct (FileUpload.readAll files) as [results|] eqn:Eread; [|reflexivity].
  destruct (readAll_Some _ Eread) as [_ Hall].
  apply Exists_exists in Hsome. destruct Hsome as (f & Hf & Hnone).
  destruct (proj1 (Forall_forall _ _) Hall f Hf Hnone).
Qed.

(** X18. When one of the selected files cannot be read, the run ends with
    the message that the files could not be processed and the callback is
    not called: nothing is published, whatever the other files hold. *)
Theorem unreadable_source_discards_batch `{Platform} (S : Type)
    (onDataLoaded : list LogEntry -> string -> S -> S)
    (fileList : list FileUpload.File) (up : FileUpload.State) (app : S)
    (Hfailed : Exists (fun f => FileUpload.text f = None) fileList) :
  FileUpload.processFiles onDataLoaded fileList (up, app)
  = (reporting FileUpload.failedToProcess, app).
Proof.
  unfold FileUpload.processFiles.
  destruct fileList as [|file rest] eqn:Efiles; [inversion Hfailed|]. rewrite <- Efiles in *.
  rewrite (readAll_unreadable Hfailed). reflexivity.
Qed.

(** The theorem on a selection of a good file and a file that cannot be
    read. *)
Lemma unreadable_source_discards_batch_witness :
  FileUpload.processFiles App.handleDataLoaded [Samples.agentLog; Samples.lockedLog]
    (quiet, App.initial)
  = (reporting FileUpload.failedToProcess, App.initial).
Proof.
  apply (@unreadable_source_discards_batch Reference.platform).
  apply Exists_cons_tl, Exists_cons_hd. reflexivity.
Defined.

Lemma Permutation_filter_same (A : Type) (p : A -> bool) (a b : list A) :
  Permutation a b -> Permutation (filter p a) (filter p b).
Proof.
  induction 1 as [|x a b _ IH|x y a|a b c _ IHab _ IHbc]; simpl.
  - constructor.
  - destruct (p x); [apply perm_skip|]; exact IH.
  - destruct (p x), (p y); try apply Permutation_refl. apply perm_swap.
  - eapply perm_trans; eassumption.
Qed.

Lemma readAll_perm `{Platform} (files files' : list FileUpload.File) :
  Permutation files files' ->
  (FileUpload.readAll files = None /\ FileUpload.readAll files' = None)
  \/ (FileUpload.readAll files = Some (map resultOf files)
      /\ FileUpload.readAll files' = Some (map resultOf files')).
Proof.
  intros Hperm.
  destruct (FileUpload.readAll files) as [results|] eqn:Eread.
  - right. destruct (readAll_Some _ Eread) as [-> Hall].
    split; [reflexivity|]. apply readAll_readable.
    eapply Permutation_Forall; eassumption.
  - destruct (FileUpload.readAll files') as [results'|] eqn:Eread'; [|left; split; reflexivity].
    destruct (readAll_Some _ Eread') as [_ Hall].
    rewrite readAll_readable in Eread; [discriminate|].
    eapply Permutation_Forall; [apply Permutation_sym|]; eassumption.
Qed.

(** X19. The order in which the files are selected does not change what a
    run reports, the name of the published dataset or the entries it
    holds: two selections of the same files publish the same entries, up
    to the order of entries. *)
Theorem file_order_irrelevant `{Platform} (S : Type)
    (onDataLoaded : list LogEntry -> string -> S -> S)
    (files files' : list FileUpload.File) (st : FileUpload.State * S)
    (Hsame : Permutation files files') :
  fst (FileUpload.processFiles onDataLoaded files st)
  = fst (FileUpload.processFiles onDataLoaded files' st)
  /\ match ingest files, ingest files' with
     | Some (logs, name), Some (logs', name') => Permutation logs logs' /\ name = name'
     | None, None => True
     | _, _ => False
     end.
Proof.
  rewrite !ingest_cases. unfold FileUpload.processFiles. destruct st as [up app].
  destruct files as [|file rest] eqn:Efiles.
  { apply Permutation_nil in Hsame. subst files'. split; [reflexivity | exact I]. }
  destruct files' as [|file' rest'] eqn:Efiles'.
  { apply Permutation_sym, Permutation_nil in Hsame. discriminate. }
  rewrite <- Efiles, <- Efiles' in *. clear Efiles Efiles'.
  destruct (readAll_perm Hsame) as [[-> ->]|[-> ->]]; [split; [reflexivity | exact I]|].
  cbv zeta. rewrite !validFileResults_contributing.
  pose proof (Permutation_filter_same contributes Hsame) as Hvalid.
  assert (Hall : Permutation (FileUpload.allLogs (map resultOf (filter contributes files)))
                             (FileUpload.allLogs (map resultOf (filter contributes files')))).
  { unfold FileUpload.allLogs. apply Permutation_flat_map, Permutation_map, Hvalid. }
  assert (Hname : FileUpload.datasetName (map resultOf (filter contributes files))
                  = FileUpload.datasetName (map resultOf (filter contributes files'))).
  { rewrite !datasetName_names. pose proof (Permutation_length Hvalid) as Hlen.
    destruct (filter contributes files) as [|a [|b l]].
    - apply Permutation_nil in Hvalid. rewrite Hvalid. reflexivity.
    - apply Permutation_length_1_inv in Hvalid. rewrite Hvalid. reflexivity.
    - destruct (filter contributes files') as [|a' [|b' l']]; try discriminate Hlen.
      rewrite Hlen. reflexivity. }
  pose proof (Permutation_length Hall) as Hlen.
  destruct (FileUpload.allLogs (map resultOf (filter contributes files))) as [|e all];
    destruct (FileUpload.allLogs (map resultOf (filter contributes files'))) as [|e' all'];
    try discriminate Hlen; simpl Nat.eqb; cbv iota.
  - split; [reflexivity | exact I].
  - split; [reflexivity|]. split; [|exact Hname].
    eapply perm_trans; [apply arraySort_perm|].
    eapply perm_trans; [exact Hall|]. apply Permutation_sym, arraySort_perm.
Qed.

(** The theorem on the two sample logs, selected in either order. *)
Lemma file_order_irrelevant_witness :
  match ingest [Samples.agentLog; Samples.serviceLog],
        ingest [Samples.serviceLog; Samples.agentLog] with
  | Some (logs, name), Some (logs', name') => Permutation logs logs' /\ name = name'
  | None, None => True
  | _, _ => False
  end.
Proof.
  apply (@file_order_irrelevant Reference.platform App.State App.handleDataLoaded
           [Samples.agentLog; Samples.serviceLog] [Samples.serviceLog; Samples.agentLog]
           (quiet, App.initial)).
  apply perm_swap.
Defined.

Lemma splitLines_nonempty (s : string) : splitLines s <> [].
Proof.
  destruct s as [|c rest]; simpl; [discriminate|].
  destruct (Ascii.eqb c "010"%char); [discriminate|].
  destruct (splitLines rest); discriminate.
Qed.

Lemma splitLines_joined (a b : string) :
  splitLines (a ++ String "010"%char b) = (splitLines a ++ splitLines b)%list.
Proof.
  induction a as [|c a IH]; [reflexivity|]. simpl.
  destruct (Ascii.eqb c "010"%char); [rewrite IH; reflexivity|].
  rewrite IH. pose proof (splitLines_nonempty a) as Hne.
  destruct (splitLines a) as [|first others]; [congruence | reflexivity].
Qed.

Lemma collect_app `{Platform} (l1 l2 : list string) :
  Utils.collect (l1 ++ l2) = (Utils.collect l1 ++ Utils.collect l2)%list.
Proof.
  induction l1 as [|line rest IH]; [reflexivity|]. simpl.
  destruct (Utils.parseLine line); rewrite IH; reflexivity.
Qed.

(** X20. Parsing two texts joined by a line break gives the entries of
    parsing the first text together with those of parsing the second, up to
    the order of entries; in particular it gives as many. *)
Theorem parseLogFile_joined `{Platform} (a b : string) :
  Permutation (Utils.parseLogFile (a ++ String "010"%char b))
              (Utils.parseLogFile a ++ Utils.parseLogFile b)
  /\ List.length (Utils.parseLogFile (a ++ String "010"%char b))
     = (List.length (Utils.parseLogFile a) + List.length (Utils.parseLogFile b))%nat.
Proof.
  assert (Hperm : Permutation (Utils.parseLogFile (a ++ String "010"%char b))
                              (Utils.parseLogFile a ++ Utils.parseLogFile b)).
  { unfold Utils.parseLogFile. cbv zeta. rewrite splitLines_joined, collect_app.
    eapply perm_trans; [apply arraySort_perm|].
    apply Permutation_app; apply Permutation_sym, arraySort_perm. }
  split; [exact Hperm|].
  rewrite (Permutation_length Hperm), length_app. reflexivity.
Qed.

Lemma arraySort_fixed (A : Type) (comparefn : A -> A -> jsnum) (l : list A) :
  Sorted (fun a b => comesAfter comparefn a b = false) l -> arraySort comparefn l = l.
Proof.
  induction 1 as [|x rest Hrest IH Hhd]; [reflexivity|].
  simpl. rewrite IH. destruct Hhd as [|y rest' Hxy]; [reflexivity|].
  simpl. rewrite Hxy. reflexivity.
Qed.

Lemma timeLe_in_order `{Platform} (l : list LogEntry) :
  Sorted timeLe l -> Sorted (fun a b => comesAfter byTimestamp a b = false) l.
Proof.
  induction 1 as [|x rest Hrest IH Hhd]; constructor; [exact IH|].
  destruct Hhd as [|y rest' Hxy]; constructor.
  unfold timeLe, nle in Hxy. unfold comesAfter, byTimestamp, nlt, nsub.
  destruct (getTime x) as [tx|]; [|discriminate].
  destruct (getTime y) as [ty|]; [|discriminate].
  apply Z.leb_le in Hxy. apply Z.ltb_ge. lia.
Qed.

(** X21. The second sort changes nothing for a single file: when one
    readable file is selected whose text has at least one valid entry, all
    of them dated, the run publishes the parsed entries of that file as the
    parser ordered them, under the name of the file. *)
Theorem single_source_published_as_parsed `{Platform} (file : FileUpload.File)
    (content : string)
    (Hread : FileUpload.text file = Some content)
    (Hentries : Utils.parseLogFile content <> [])
    (Hdated : Forall hasTime (Utils.parseLogFile content)) :
  ingest [file] = Some (Utils.parseLogFile content, FileUpload.name file).
Proof.
  assert (Hfixed : arraySort byTimestamp (Utils.parseLogFile content)
                   = Utils.parseLogFile content).
  { apply arraySort_fixed, timeLe_in_order.
    unfold Utils.parseLogFile. cbv zeta. apply (arraySort_sorted getTime).
    apply Forall_forall. intros x Hx.
    apply (proj1 (Forall_forall _ _) Hdated).
    unfold Utils.parseLogFile. cbv zeta. apply arraySort_In. exact Hx. }
  rewrite ingest_cases. unfold FileUpload.readAll, FileUpload.readFile. rewrite Hread.
  cbv zeta. unfold FileUpload.validFileResults. simpl filter.
  destruct (Utils.parseLogFile content) as [|e rest] eqn:Eparsed; [congruence|].
  simpl. rewrite app_nil_r. f_equal. f_equal. exact Hfixed.
Qed.

(** The theorem on the sample log of the service, whose two lines are in
    reverse time order. *)
Lemma single_source_published_as_parsed_witness :
  ingest [Samples.serviceLog]
  = Some ([ Samples.entry "2024-01-01T00:00:02.500Z" "Service" "Critical" "crash";
            Samples.entry "2024-01-01T00:00:03Z" "Service" "Warning" "slow reply" ],
          "service.log").
Proof.
  set (content := (Samples.line "2024-01-01T00:00:03Z" "Service" "Warning" "slow reply"
                   ++ Samples.newline
                   ++ Samples.line "2024-01-01T00:00:02.500Z" "Service" "Critical" "crash")%string).
  assert (Hparsed : @Utils.parseLogFile Reference.platform content
                    = [ Samples.entry "2024-01-01T00:00:02.500Z" "Service" "Critical" "crash";
                        Samples.entry "2024-01-01T00:00:03Z" "Service" "Warning" "slow reply" ])
    by (vm_compute; reflexivity).
  rewrite <- Hparsed.
  apply (@single_source_published_as_parsed Reference.platform Samples.serviceLog content).
  - reflexivity.
  - rewrite Hparsed. discriminate.
  - rewrite Hparsed. repeat constructor; vm_compute; discriminate.
Defined.

(* ------------------------------------------------------------------ *)
(** ** More on the downsampler *)

Lemma everyNth_one (A : Type) (i : nat) (l : list A) : LogCharts.everyNth 1 i l = l.
Proof.
  revert i. induction l as [|x rest IH]; intros i; [reflexivity|].
  change (LogCharts.everyNth 1 i (x :: rest))
    with (if (i mod 1 =? 0)%nat then x :: LogCharts.everyNth 1 (S i) rest
          else LogCharts.everyNth 1 (S i) rest).
  rewrite Nat.mod_1_r, IH. reflexivity.
Qed.

(** From an index [i] that is [c] short of a multiple of [step], the kept
    elements, one per [step], reach the end of the list. *)
Lemma everyNth_reaches (A : Type) (step : nat) (l : list A) (i c : nat) :
  (c < step)%nat -> (exists q, i + c = q * step)%nat ->
  (List.length l <= List.length (LogCharts.everyNth step i l) * step + c)%nat.
Proof.
  revert i c. induction l as [|x rest IH]; intros i c Hc [q Hq]; simpl; [lia|].
  destruct (i mod step =? 0)%nat eqn:Emod.
  - apply Nat.eqb_eq, Nat.Div0.mod_divides in Emod. destruct Emod as [q' Hq'].
    assert (c = 0)%nat.
    { destruct (Nat.le_gt_cases q q') as [Hle|Hgt].
      - pose proof (Nat.mul_le_mono_r q q' step Hle). lia.
      - pose proof (Nat.mul_le_mono_r (S q') q step Hgt). lia. }
    subst c.
    assert (Hnext : (exists q0, S i + (step - 1) = q0 * step)%nat) by (exists (S q); lia).
    specialize (IH (S i) (step - 1)%nat ltac:(lia) Hnext). simpl. lia.
  - apply Nat.eqb_neq in Emod.
    destruct c as [|c'].
    + exfalso. apply Emod. apply Nat.Div0.mod_divides. exists q. lia.
    + assert (Hnext : (exists q0, S i + c' = q0 * step)%nat) by (exists q; lia).
      specialize (IH (S i) c' ltac:(lia) Hnext). lia.
Qed.

(** X22. With [N] the number of entries that carry performance data: up
    to 500 of them are all kept, in order; beyond 500 the kept entries,
    one per stride, reach the end of the selection, and there are more than
    250 of them. *)
Theorem downsampler_keeps_enough (logs : list LogEntry) :
  let selected := LogCharts.perfLogs logs in
  let N := List.length selected in
  let step := LogCharts.ceilDiv N 500 in
  ((N <= 500)%nat -> LogCharts.sampled logs = selected)
  /\ (N <= List.length (LogCharts.sampled logs) * step)%nat
  /\ ((500 < N)%nat -> (250 < List.length (LogCharts.sampled logs))%nat).
Proof.
  intros selected N step.
  assert (Hsampled : LogCharts.sampled logs = LogCharts.everyNth step 0 selected).
  { unfold LogCharts.sampled. fold selected. subst step N.
    destruct selected as [|first rest]; reflexivity. }
  assert (Hstep : (500 * step <= N + 499 /\ N <= 500 * step)%nat).
  { subst step. unfold LogCharts.ceilDiv.
    pose proof (Nat.div_mod_eq (N + 500 - 1) 500) as Hdm.
    pose proof (Nat.mod_upper_bound (N + 500 - 1) 500 ltac:(lia)) as Hlt. lia. }
  assert (Hreach : (N <= List.length (LogCharts.sampled logs) * step)%nat).
  { destruct (Nat.eq_dec N 0) as [HN|HN]; [lia|].
    assert (Hpos : (0 < step)%nat) by lia.
    pose proof (@everyNth_reaches _ step selected 0%nat 0%nat Hpos
                  (ex_intro _ 0%nat eq_refl)) as Hlen.
    rewrite Hsampled. fold N in Hlen. lia. }
  split; [|split; [exact Hreach|]].
  - intros Hsmall. rewrite Hsampled.
    destruct (Nat.eq_dec N 0) as [HN|HN].
    + assert (Hnil : selected = []) by (apply length_zero_iff_nil; exact HN).
      rewrite Hnil. reflexivity.
    + assert (Hone : step = 1%nat) by lia. rewrite Hone. apply everyNth_one.
  - intros Hbig. nia.
Qed.

(** The theorem on a series of three records with counters, all kept,
    and on one of 501, of which every second one is kept. *)
Lemma downsampler_keeps_enough_witness :
  LogCharts.sampled (Samples.perfSeries 3) = LogCharts.perfLogs (Samples.perfSeries 3)
  /\ (250 < List.length (LogCharts.sampled (Samples.perfSeries 501)))%nat.
Proof.
  split.
  - pose proof (@downsampler_keeps_enough (Samples.perfSeries 3)) as Hthree.
    cbv zeta in Hthree. destruct Hthree as (Hall & _). apply Hall.
    assert (Hlen : List.length (LogCharts.perfLogs (Samples.perfSeries 3)) = 3%nat)
      by (vm_compute; reflexivity).
    rewrite Hlen. lia.
  - pose proof (@downsampler_keeps_enough (Samples.perfSeries 501)) as Hmany.
    cbv zeta in Hmany. destruct Hmany as (_ & _ & Hmore). apply Hmore.
    assert (Hlen : List.length (LogCharts.perfLogs (Samples.perfSeries 501)) = 501%nat)
      by (vm_compute; reflexivity).
    rewrite Hlen. lia.
Defined.

(* ------------------------------------------------------------------ *)
(** ** More on the filter choices *)

(** X23. On a dataset of named entries a choice of the component list or
    of the level list is never a dead end: with no search text, the filter
    on an offered component, or on an offered level, keeps at least one
    entry; and a component that is not offered keeps none. *)
Theorem filter_choice_keeps_entries `{Platform} (logs : list LogEntry) (choice : string)
    (Hnamed : Forall named logs) :
  (In choice (LogTable.uniqueComponents logs) ->
     exists e rest,
       LogTable.filteredLogs logs {| search := ""; level := ""; component_ := choice |}
       = Some (e :: rest))
  /\ (In choice (LogTable.uniqueLevels logs) ->
     exists e rest,
       LogTable.filteredLogs logs {| search := ""; level := choice; component_ := "" |}
       = Some (e :: rest))
  /\ (choice <> "" -> ~ In choice (LogTable.uniqueComponents logs) ->
     LogTable.filteredLogs logs {| search := ""; level := ""; component_ := choice |}
     = Some []).
Proof.
  assert (Hkept : forall filters e,
             search filters = "" -> In e logs -> matchesb filters e = true ->
             exists e' rest, LogTable.filteredLogs logs filters = Some (e' :: rest)).
  { intros filters e Hs He Hm. rewrite (filteredLogs_without_search _ _ Hs).
    assert (Hin : In e (filter (matchesb filters) logs)) by (apply filter_In; auto).
    destruct (filter (matchesb filters) logs) as [|e' rest]; [destruct Hin|].
    exists e', rest. reflexivity. }
  split; [|split].
  - unfold LogTable.uniqueComponents. rewrite arraySort_In, distinct_In, in_map_iff.
    intros (e & Hc & He).
    destruct (proj1 (Forall_forall _ _) Hnamed e He) as [[c Hcomp] _].
    rewrite Hcomp in Hc. simpl in Hc. subst c.
    apply (Hkept {| search := ""; level := ""; component_ := choice |} e eq_refl He).
    unfold matchesb. simpl.
    rewrite Hcomp. simpl. rewrite String.eqb_refl. apply orb_true_r.
  - unfold LogTable.uniqueLevels. rewrite arraySort_In, distinct_In, in_map_iff.
    intros (e & Hc & He).
    destruct (proj1 (Forall_forall _ _) Hnamed e He) as [_ [l Hlevel]].
    rewrite Hlevel in Hc. simpl in Hc. subst l.
    apply (Hkept {| search := ""; level := choice; component_ := "" |} e eq_refl He).
    unfold matchesb. simpl.
    rewrite Hlevel. simpl. rewrite String.eqb_refl. rewrite orb_true_r. reflexivity.
  - intros Hne Hout. rewrite filteredLogs_without_search by reflexivity.
    f_equal. apply filter_nothing. apply Forall_forall. intros e He.
    unfold matchesb. simpl.
    rewrite (proj2 (String.eqb_neq choice "") Hne). simpl.
    apply not_true_is_false. intros Hm. apply strictEqStr_spec in Hm.
    apply Hout. unfold LogTable.uniqueComponents.
    rewrite arraySort_In, distinct_In, in_map_iff. exists e. rewrite Hm. auto.
Qed.

(** The theorem on the sample dataset: the choice Service keeps two
    entries, and a component that is not there keeps none. *)
Lemma filter_choice_keeps_entries_witness :
  (exists e rest,
     LogTable.filteredLogs Samples.dataset
       {| search := ""; level := ""; component_ := "Service" |} = Some (e :: rest))
  /\ LogTable.filteredLogs Samples.dataset
       {| search := ""; level := ""; component_ := "Robot" |} = Some [].
Proof.
  assert (Hnamed : Forall named Samples.dataset).
  { repeat constructor; eexists; reflexivity. }
  split.
  - destruct (@filter_choice_keeps_entries Reference.platform Samples.dataset "Service" Hnamed)
      as (Hoffered & _ & _).
    apply Hoffered. vm_compute. tauto.
  - destruct (@filter_choice_keeps_entries Reference.platform Samples.dataset "Robot" Hnamed)
      as (_ & _ & Hout).
    apply Hout; [discriminate|]. vm_compute. intuition discriminate.
Defined.

(* ------------------------------------------------------------------ *)
(** ** Worked examples *)

(** The parser keeps the two records of a file of four lines, a truncated
    line and a blank line among them, and returns them in time order. *)
Example parseLogFile_sample :
  option_map (fun text => map getTime (Utils.parseLogFile text))
    (FileUpload.text Samples.agentLog)
  = Some [Some 1704067201000; Some 1704067205000].
Proof. vm_compute. reflexivity. Qed.

(** A record that has the three properties but one of them empty is
    skipped. *)
Example parseLine_empty_component :
  Utils.parseLine (Samples.line "2024-01-01T00:00:05Z" "" "Info" "started") = None.
Proof. vm_compute. reflexivity. Qed.

(** One unreadable file makes the whole batch fail with the generic
    message, and nothing is published. *)
Example processFiles_read_failure :
  FileUpload.processFiles App.handleDataLoaded [Samples.agentLog; Samples.lockedLog]
    (quiet, App.initial)
  = (reporting FileUpload.failedToProcess, App.initial).
Proof. vm_compute. reflexivity. Qed.

(** With a record whose timestamp is not a date between them, two dated
    records stay in the wrong order in this model of the sort. *)
Example arraySort_around_NaN :
  map getTime
    (arraySort byTimestamp
       [Samples.entry "2024-01-01T00:00:03Z" "Agent" "Info" "late";
        Samples.entry "not-a-date" "Agent" "Info" "clock lost";
        Samples.entry "2024-01-01T00:00:01Z" "Agent" "Info" "early"])
  = [Some 1704067203000; NaN; Some 1704067201000].
Proof. vm_compute. reflexivity. Qed.

(** A search raises on a record without a message; without a search text
    the same record is filtered like any other. *)
Example filteredLogs_without_message :
  LogTable.filteredLogs [Samples.silent] {| search := "x"; level := ""; component_ := "" |}
  = None
  /\ LogTable.filteredLogs [Samples.silent]
       {| search := ""; level := "Info"; component_ := "" |}
     = Some [Samples.silent].
Proof. split; vm_compute; reflexivity. Qed.

(** The component count of the summary keeps values of different types
    apart: the number 5, the truth value and the text 5 are three
    components, and the number 5 twice is one. *)
Example components_of_any_type :
  Overview.components
    [ [("eventTimestamp", JStr "2024-01-01T00:00:00Z"); ("component", JNum 5%float);
       ("traceLevel", JStr "Info")];
      [("eventTimestamp", JStr "2024-01-01T00:00:01Z"); ("component", JBool true);
       ("traceLevel", JStr "Info")];
      [("eventTimestamp", JStr "2024-01-01T00:00:02Z"); ("component", JStr "5");
       ("traceLevel", JStr "Info")];
      [("eventTimestamp", JStr "2024-01-01T00:00:03Z"); ("component", JNum 5%float);
       ("traceLevel", JStr "Info")] ]
  = 3.
Proof. vm_compute. reflexivity. Qed.

(** Beyond 2^53 a difference of time values is rounded: between the first
    and the last millisecond but one that a date can hold, the duration
    reads 288000000000m 0s. *)
Example dsub_rounds :
  dsub (Some 8640000000000000) (Some (-8639999999999999)) = Some 17280000000000000
  /\ numberText (nfloorDiv (dsub (Some 8640000000000000) (Some (-8639999999999999))) 60000)
     = "288000000000"
  /\ numberText
       (nfloorDiv (nrem (dsub (Some 8640000000000000) (Some (-8639999999999999))) 60000) 1000)
     = "0"
  /\ map toDouble [9007199254740993; 9007199254740995; -9007199254740995; 9007199254740992]
     = [9007199254740992; 9007199254740996; -9007199254740996; 9007199254740992].
Proof. repeat split; vm_compute; reflexivity. Qed.

(** The width at the two thresholds and just below them. *)
Example bucketSizeMs_thresholds :
  map LogCharts.bucketSizeMs [Some 0; Some 299999; Some 300000; Some 3599999; Some 3600000; NaN]
  = [1000; 1000; 10000; 10000; 60000; 60000].
Proof. reflexivity. Qed.

(** The metric point of a record of the newer agent format reads the
    machine and process information, and its queue length is 0. *)
Example toMetricPoint_agent_format :
  LogCharts.toMetricPoint Samples.agentEntry
  = {| LogCharts.pt_time := "1704067206000 ms";
       LogCharts.pt_timestamp := Some 1704067206000;
       LogCharts.cpu := JNum 12.5%float;
       LogCharts.memory := JNum 4096%float;
       LogCharts.processCpu := JNum 3%float;
       LogCharts.queueLength := JNum 0%float |}.
Proof. vm_compute. reflexivity. Qed.
